(** * mERRANT: edit-span alignment, classification and formatting

    A shallow embedding of the Python package [merrant]
    ([utils.py], [classification.py], [api.py], [io.py]) and the
    properties of its aligner, its rule cascade, its annotator and its
    M2 formatters.

    Python floats are IEEE binary64 numbers: they are embedded as Rocq's
    primitive floats, so that [0.2 + 0.3] below is the same rounded
    addition the interpreter performs.  Python integers are [Z].  A cell of
    the Levenshtein matrix is either of the two, as in the source, where
    the first column of every row but the first holds an [int].  A Python
    string is a [string] that holds its UTF-8 encoding: [chars] cuts it
    into its characters (the code points), which is what [len] counts
    and what a loop over the string visits.  What spaCy and aspell provide (the pipeline, the speller, the text and
    the character offsets of a span, [str.lower]) is a parameter. *)

From Stdlib Require Import Floats ZArith List String Ascii Bool Lia Arith.
From Stdlib Require Import Uint63 DecimalString Sorted.
Import ListNotations.

Set Warnings "-inexact-float".

Local Open Scope string_scope.
Local Open Scope list_scope.

(* ================================================================= *)
(** ** Python values the code computes with *)

Module Py.

(** Exceptions the modelled code raises. *)
Inductive exn : Type :=
| ValueError (msg : string)
| TypeError (msg : string)
| ZeroDivisionError (msg : string).

(** The outcome of a call: a value, or a raised exception. *)
Inductive result (A : Type) : Type :=
| Ok (a : A)
| Raise (e : exn).
Arguments Ok {A} a.
Arguments Raise {A} e.

Definition bind {A B : Type} (r : result A) (k : A -> result B) : result B :=
  match r with
  | Ok a => k a
  | Raise e => Raise e
  end.

(** A number: an [int] (a [bool] is the int 0 or 1) or a [float]. *)
Inductive num : Type :=
| Int (z : Z)
| Float (f : float).

(** [float(z)].  Every integer the code converts is a sequence length
    or an index, far below [2^63]; there [of_uint63] is the correctly
    rounded conversion, exact below [2^53]. *)
Definition float_of_Z (z : Z) : float := PrimFloat.of_uint63 (Uint63.of_Z z).

Definition to_float (x : num) : float :=
  match x with
  | Int z => float_of_Z z
  | Float f => f
  end.

Definition of_bool (b : bool) : num := Int (Z.b2z b).

(** [x + y]: integer addition on two ints, float addition otherwise. *)
Definition add (x y : num) : num :=
  match x, y with
  | Int a, Int b => Int (a + b)
  | _, _ => Float (PrimFloat.add (to_float x) (to_float y))
  end.

(** [x * y] and [x / y] with a float on the left, as the code has them. *)
Definition fmul (x : float) (y : num) : float := PrimFloat.mul x (to_float y).

Definition fdiv (x : float) (y : Z) : result float :=
  if (y =? 0)%Z then Raise (ZeroDivisionError "float division by zero")
  else Ok (PrimFloat.div x (float_of_Z y)).

(** [x < y] and [x == y]; an int meets a float through its float value
    (exact for the magnitudes at hand). *)
Definition ltb (x y : num) : bool :=
  match x, y with
  | Int a, Int b => (a <? b)%Z
  | _, _ => PrimFloat.ltb (to_float x) (to_float y)
  end.

Definition eqb (x y : num) : bool :=
  match x, y with
  | Int a, Int b => (a =? b)%Z
  | _, _ => PrimFloat.eqb (to_float x) (to_float y)
  end.

(** [min(a, b, c)]: the first of the smallest; a later argument
    replaces the current one only when it is strictly smaller. *)
Definition min3 (a b c : num) : num :=
  let r := if ltb b a then b else a in
  if ltb c r then c else r.

(** [enumerate(xs)]. *)
Definition enumerate {A : Type} (xs : list A) : list (nat * A) :=
  combine (seq 0 (List.length xs)) xs.

End Py.

Import Py.

(* ================================================================= *)
(** ** Python strings: the characters *)

(** A byte [10xxxxxx] continues the character the bytes before it began. *)
Definition is_continuation (c : ascii) : bool :=
  (128 <=? N_of_ascii c)%N && (N_of_ascii c <? 192)%N.

Definition starts_with_continuation (s : string) : bool :=
  match s with
  | String c _ => is_continuation c
  | EmptyString => false
  end.

(** [list(s)]: the characters of a string in order, each one the string
    of length one a loop [for c in s] hands over.  A character is a byte
    that is no continuation byte with the continuation bytes after it. *)
Fixpoint chars (s : string) : list string :=
  match s with
  | EmptyString => []
  | String c rest =>
    if starts_with_continuation rest then
      match chars rest with
      | head :: tail => String c head :: tail
      | [] => [String c EmptyString]
      end
    else String c EmptyString :: chars rest
  end.

(** [len(s)]. *)
Definition len (s : string) : Z := Z.of_nat (List.length (chars s)).

(* ================================================================= *)
(** ** utils.py: the Levenshtein matrix *)

Section Levenshtein.

Context {T : Type}.
Variable compare_func : T -> T -> num.

(** A cell read; every read of the code is inside the matrix. *)
Definition cell (row : list num) (j : nat) : num := nth j row (Float nan).

(** The body of the inner loop: one cell appended to [current_row]. *)
Definition row_step (c1 : T) (previous_row : list num)
           (current_row : list num) (jc : nat * T) : list num :=
  let '(j, c2) := jc in
  let insertions := add (cell previous_row (j + 1)) (Float 1.0) in
  let deletions := add (cell current_row j) (Float 1.0) in
  let substitutions := add (cell previous_row j) (compare_func c1 c2) in
  current_row ++ [min3 insertions deletions substitutions].

(** The inner loop: the row of source position [i]. *)
Definition next_row (target_tokens : list T) (i : nat) (c1 : T)
           (previous_row : list num) : list num :=
  fold_left (row_step c1 previous_row) (enumerate target_tokens)
            [Int (Z.of_nat i + 1)].

(** The body of the outer loop on the state [(previous_row, mat)]. *)
Definition mat_step (target_tokens : list T)
           (st : list num * list (list num)) (ic : nat * T)
  : list num * list (list num) :=
  let '(previous_row, mat) := st in
  let '(i, c1) := ic in
  let current_row := next_row target_tokens i c1 previous_row in
  (current_row, mat ++ [current_row]).

Definition first_row (target_tokens : list T) : list num :=
  map (fun c => Float (float_of_Z (Z.of_nat c)))
      (seq 0 (List.length target_tokens + 1)).

Definition levenshtein_matrix (source_tokens target_tokens : list T)
  : list (list num) :=
  let previous_row := first_row target_tokens in
  snd (fold_left (mat_step target_tokens) (enumerate source_tokens)
                 (previous_row, [previous_row])).

(** [levenshtein_matrix(...)[-1][-1]]. *)
Definition levenshtein_distance (source_tokens target_tokens : list T) : num :=
  last (last (levenshtein_matrix source_tokens target_tokens) []) (Float nan).

End Levenshtein.

(** [lev_mat[row][col]]. *)
Definition at_ (lev_mat : list (list num)) (row col : nat) : num :=
  cell (nth row lev_mat []) col.

(* ================================================================= *)
(** ** Tokens, documents and spans (the spaCy interface the code uses) *)

(** spaCy's universal part-of-speech tags. *)
Inductive UPOS : Type :=
| NO_TAG | ADJ | ADP | ADV | AUX | CONJ | CCONJ | DET | INTJ | NOUN | NUM
| PART | PRON | PROPN | PUNCT | SCONJ | SYM | VERB | X | EOL | SPACE.

Definition UPOS_eqb (a b : UPOS) : bool :=
  match a, b with
  | NO_TAG, NO_TAG | ADJ, ADJ | ADP, ADP | ADV, ADV | AUX, AUX | CONJ, CONJ
  | CCONJ, CCONJ | DET, DET | INTJ, INTJ | NOUN, NOUN | NUM, NUM
  | PART, PART | PRON, PRON | PROPN, PROPN | PUNCT, PUNCT | SCONJ, SCONJ
  | SYM, SYM | VERB, VERB | X, X | EOL, EOL | SPACE, SPACE => true
  | _, _ => false
  end.

(** [token.pos_]: the name of the tag. *)
Definition UPOS_name (p : UPOS) : string :=
  match p with
  | NO_TAG => "" | ADJ => "ADJ" | ADP => "ADP" | ADV => "ADV" | AUX => "AUX"
  | CONJ => "CONJ" | CCONJ => "CCONJ" | DET => "DET" | INTJ => "INTJ"
  | NOUN => "NOUN" | NUM => "NUM" | PART => "PART" | PRON => "PRON"
  | PROPN => "PROPN" | PUNCT => "PUNCT" | SCONJ => "SCONJ" | SYM => "SYM"
  | VERB => "VERB" | X => "X" | EOL => "EOL" | SPACE => "SPACE"
  end.

(** A token as the tagger hands it over: [lemma] is spaCy's integer id of
    the lemma, [morph] the feature map, [idx] the character offset. *)
Record Token : Type := {
  text : string;
  lemma : Z;
  pos : UPOS;
  morph : list (string * list string);
  is_punct : bool;
  is_digit : bool;
  idx : Z
}.

Definition pos_ (t : Token) : string := UPOS_name (pos t).

Record Doc : Type := {
  doc_text : string;
  doc_tokens : list Token
}.

(** [doc[start:end]]. *)
Record Span : Type := {
  span_doc : Doc;
  span_start : Z;
  span_end : Z
}.

Definition span_tokens (sp : Span) : list Token :=
  firstn (Z.to_nat (span_end sp - span_start sp))
         (skipn (Z.to_nat (span_start sp)) (doc_tokens (span_doc sp))).

Definition span_len (sp : Span) : nat := List.length (span_tokens sp).

Definition UNK_TAG_NAME : string := "UNK".

Record EditSpan : Type := {
  source_span : Span;
  target_span : Span;
  tag : string
}.

Definition is_deletion (e : EditSpan) : bool := (span_len (target_span e) =? 0)%nat.
Definition is_insertion (e : EditSpan) : bool := (span_len (source_span e) =? 0)%nat.

Definition get_label (e : EditSpan) : string :=
  if is_deletion e then "U:" ++ tag e
  else if is_insertion e then "M:" ++ tag e
  else "R:" ++ tag e.

Record TargetSentence : Type := {
  doc : Doc;
  edit_spans : list EditSpan
}.

Record Annotation : Type := {
  source_doc : Doc;
  target_sentences : list TargetSentence
}.

(* ================================================================= *)
(** ** utils.py: the aligner *)

Section Merrant.

(** [str.lower()], Python's Unicode lower-casing; spaCy's
    [token.lower_] is [token.text.lower()]. *)
Variable lower : string -> string.

Definition lower_ (t : Token) : string := lower (text t).

Definition _token_sub_cost (source_token target_token : Token) : num :=
  if String.eqb (text source_token) (text target_token) then Float 0.0
  else if String.eqb (lower (text source_token)) (lower (text target_token))
  then Float 0.1
  else
    let lemma_cost :=
      fmul 0.3 (of_bool (negb (lemma source_token =? lemma target_token)%Z)) in
    let pos_cost :=
      fmul 0.5 (of_bool (negb (UPOS_eqb (pos source_token) (pos target_token)))) in
    Float (0.2 + lemma_cost + pos_cost).

(** The backtrace, [while row * col != 0], on the state
    [(row, col, align)].  Every turn lowers [row + col], so [row + col]
    turns are enough; [fuel] counts them. *)
Fixpoint backtrace (lev_mat : list (list num)) (fuel row col : nat)
         (align : list (Z * Z)) : list (Z * Z) :=
  match fuel with
  | O => align
  | S fuel' =>
    if (row * col =? 0)%nat then align
    else if ltb (at_ lev_mat (row - 1) col) (at_ lev_mat row col)
    then backtrace lev_mat fuel' (row - 1) col align
    else if ltb (at_ lev_mat row (col - 1)) (at_ lev_mat row col)
    then backtrace lev_mat fuel' row (col - 1) align
    else
      let row' := (row - 1)%nat in
      let col' := (col - 1)%nat in
      backtrace lev_mat fuel' row' col'
        (if eqb (at_ lev_mat row' col') (at_ lev_mat (row' + 1) (col' + 1))
         then align ++ [(Z.of_nat row', Z.of_nat col')]
         else align)
  end.

(** [source_tokens[a:b]]. *)
Definition slice (d : Doc) (a b : Z) : Span :=
  {| span_doc := d; span_start := a; span_end := b |}.

(** The body of the last loop, on
    [(prev_source_pos, prev_target_pos, spans)]. *)
Definition span_step (source_tokens target_tokens : Doc)
           (st : Z * Z * list EditSpan) (p : Z * Z) : Z * Z * list EditSpan :=
  let '(prev_source_pos, prev_target_pos, spans) := st in
  let '(source_pos, target_pos) := p in
  let spans :=
    if negb (prev_source_pos + 1 =? source_pos)%Z
       || negb (prev_target_pos + 1 =? target_pos)%Z
    then spans ++
         [{| source_span := slice source_tokens (prev_source_pos + 1) source_pos;
             target_span := slice target_tokens (prev_target_pos + 1) target_pos;
             tag := UNK_TAG_NAME |}]
    else spans in
  (source_pos, target_pos, spans).

Definition alignment (source_tokens target_tokens : Doc) : list (Z * Z) :=
  let lev_mat := levenshtein_matrix _token_sub_cost
                   (doc_tokens source_tokens) (doc_tokens target_tokens) in
  let row := List.length (doc_tokens source_tokens) in
  let col := List.length (doc_tokens target_tokens) in
  let align := backtrace lev_mat (row + col) row col [] in
  rev align ++ [(Z.of_nat row, Z.of_nat col)].

Definition get_edit_spans (source_tokens target_tokens : Doc) : list EditSpan :=
  snd (fold_left (span_step source_tokens target_tokens)
                 (alignment source_tokens target_tokens)
                 ((-1)%Z, (-1)%Z, [])).

(* =============================================================== *)
(** ** classification.py *)

Definition join (parts : list string) : string := String.concat "" parts.

Definition _is_orth_error (source_tokens target_tokens : list Token) : bool :=
  String.eqb (join (map lower_ source_tokens)) (join (map lower_ target_tokens)).

(** [set(xs) == set(ys)]: each holds every element of the other. *)
Definition set_eqb (xs ys : list string) : bool :=
  forallb (fun x => existsb (String.eqb x) ys) xs
  && forallb (fun y => existsb (String.eqb y) xs) ys.

Definition _is_wo_error (source_tokens target_tokens : list Token) : bool :=
  set_eqb (map lower_ source_tokens) (map lower_ target_tokens).

Definition get_nonpunct_tokens (tokens : list Token) : list Token :=
  filter (fun token => negb (is_punct token)) tokens.

Definition _is_punct_error (source_tokens target_tokens : list Token) : bool :=
  _is_orth_error (get_nonpunct_tokens source_tokens)
                 (get_nonpunct_tokens target_tokens).

Definition _pos_is_subset (tokens : list Token) (allowed_pos : list string) : bool :=
  forallb (fun token => existsb (String.eqb (pos_ token)) allowed_pos) tokens.

Definition _is_aux_span (tokens : list Token) : bool :=
  _pos_is_subset tokens ["AUX"].

Definition _is_verbal_span (tokens : list Token) : bool :=
  _pos_is_subset tokens ["AUX"; "PART"; "VERB"]
  && existsb (fun token => String.eqb (pos_ token) "VERB") tokens.

Definition _is_noun_span (tokens : list Token) : bool :=
  _pos_is_subset tokens ["DET"; "NOUN"]
  && existsb (fun token => String.eqb (pos_ token) "NOUN") tokens.

Definition _match_up_pos_tokens (source_tokens target_tokens : list Token)
           (p : string) : list (Token * Token) :=
  let pos_source_tokens := filter (fun token => String.eqb (pos_ token) p) source_tokens in
  let pos_target_tokens := filter (fun token => String.eqb (pos_ token) p) target_tokens in
  filter (fun st => (lemma (fst st) =? lemma (snd st))%Z)
         (combine pos_source_tokens pos_target_tokens).

(** [token.morph.get(field_name)]: the values of the feature, none when
    the token does not have it. *)
Definition morph_get (t : Token) (field_name : string) : list string :=
  match find (fun kv => String.eqb (fst kv) field_name) (morph t) with
  | Some kv => snd kv
  | None => []
  end.

Definition _morph_match (source_token target_token : Token)
           (field_name : string) : bool :=
  String.eqb (join (morph_get source_token field_name))
             (join (morph_get target_token field_name)).

(** The set [{token.pos_ for token in tokens}], without repeats. *)
Definition pos_set_of (tokens : list Token) : list string :=
  nodup string_dec (map pos_ tokens).

Record GenericClassifier : Type := {
  _aspell_lang : option string;
  _aspell : option (string -> list string)
}.

Definition _get_one_sided_tag (tokens : list Token) : string :=
  if _is_aux_span tokens then "VERB:TENSE"
  else
    let pos_set := pos_set_of tokens in
    if (List.length pos_set =? 1)%nat then hd "" pos_set
    else if _is_verbal_span tokens then "VERB"
    else "OTHER".

(** The loop over the matched nouns, left at the first mismatch. *)
Fixpoint noun_loop (pairs : list (Token * Token)) : string :=
  match pairs with
  | [] => "NOUN"
  | (source_noun, target_noun) :: rest =>
    if negb (_morph_match source_noun target_noun "Number") then "NOUN:NUM"
    else noun_loop rest
  end.

(** The loop over the matched verbs, left at the first mismatch. *)
Fixpoint verb_loop (pairs : list (Token * Token)) : string :=
  match pairs with
  | [] => "VERB"
  | (source_verb, target_verb) :: rest =>
    if negb (_morph_match source_verb target_verb "Tense") then "VERB:TENSE"
    else if negb (_morph_match source_verb target_verb "Number")
            && negb (_morph_match source_verb target_verb "Person")
    then "VERB:SVA"
    else verb_loop rest
  end.

Definition _get_two_sided_tag (source_tokens target_tokens : list Token) : string :=
  if _is_aux_span source_tokens && _is_aux_span target_tokens then "VERB:TENSE"
  else if _is_noun_span source_tokens && _is_noun_span target_tokens
  then noun_loop (_match_up_pos_tokens source_tokens target_tokens "NOUN")
  else if _is_verbal_span source_tokens && _is_verbal_span target_tokens
  then verb_loop (_match_up_pos_tokens source_tokens target_tokens "VERB")
  else
    let target_pos_set := pos_set_of target_tokens in
    if (List.length target_pos_set =? 1)%nat then
      let p := hd "" target_pos_set in
      if String.eqb p "AUX" then "VERB" else p
    else "OTHER".

(** [lambda x, y: x != y] on characters. *)
Definition char_neq (x y : string) : num := of_bool (negb (String.eqb x y)).

(** [utils.levenshtein_distance(a, b, lambda x, y: x != y)] on two
    strings: the sequences compared are their characters. *)
Definition char_lev (a b : string) : num :=
  levenshtein_distance char_neq (chars a) (chars b).

(** [2.0 * lev / (len(source_token.text) + len(target_token.text))]. *)
Definition relative_lev (source_token target_token : Token) : result float :=
  fdiv (fmul 2.0 (char_lev (text source_token) (text target_token)))
       (len (text source_token) + len (text target_token)).

(** [aspell_suggestions and aspell_suggestions[0].lower() != source_token.text.lower()]. *)
Definition top_differs (aspell_suggestions : list string) (source_token : Token) : bool :=
  match aspell_suggestions with
  | [] => false
  | top :: _ => negb (String.eqb (lower top) (lower (text source_token)))
  end.

Definition _get_one2one_tag (self : GenericClassifier)
           (source_token target_token : Token) : result string :=
  let aspell_suggestions :=
    match _aspell self with
    | Some speller => speller (text source_token)
    | None => []
    end in
  if top_differs aspell_suggestions source_token then
    if (lemma source_token =? lemma target_token)%Z then
      if String.eqb (pos_ source_token) (pos_ target_token)
         && existsb (String.eqb (pos_ source_token)) ["NOUN"; "VERB"]
      then Ok (pos_ source_token ++ ":INFL")%string
      else Ok "MORPH"
    else if existsb (fun aspell_suggestion =>
                       String.eqb (lower aspell_suggestion) (lower (text target_token)))
                    aspell_suggestions
    then Ok "SPELL"
    else
      bind (relative_lev source_token target_token) (fun r =>
        if PrimFloat.ltb r 0.3 then Ok "SPELL"
        else Ok (_get_two_sided_tag [source_token] [target_token]))
  else if (lemma source_token =? lemma target_token)%Z
          && negb (UPOS_eqb (pos source_token) (pos target_token))
  then Ok "MORPH"
  else Ok (_get_two_sided_tag [source_token] [target_token]).

Definition get_regular_tokens (tokens : list Token) : list Token :=
  filter (fun token => negb (is_digit token) && negb (is_punct token)) tokens.

Definition classify_single_span (self : GenericClassifier) (edit_span : EditSpan)
  : result string :=
  let source := span_tokens (source_span edit_span) in
  let target := span_tokens (target_span edit_span) in
  if _is_orth_error source target then Ok "ORTH"
  else if _is_wo_error source target then Ok "WO"
  else if _is_punct_error source target then Ok "PUNCT"
  else
    let source_regular_tokens := get_regular_tokens source in
    let target_regular_tokens := get_regular_tokens target in
    if _is_orth_error source_regular_tokens target_regular_tokens then Ok "NUM"
    else
      match source_regular_tokens, target_regular_tokens with
      | [], _ => Ok (_get_one_sided_tag target_regular_tokens)
      | _, [] => Ok (_get_one_sided_tag source_regular_tokens)
      | [s], [t] => _get_one2one_tag self s t
      | _, _ => Ok (_get_two_sided_tag source_regular_tokens target_regular_tokens)
      end.

(** [Classifier.classify]: every span of the alignment gets its tag. *)
Fixpoint tag_spans (self : GenericClassifier) (spans : list EditSpan)
  : result (list EditSpan) :=
  match spans with
  | [] => Ok []
  | edit_span :: rest =>
    bind (classify_single_span self edit_span) (fun tg =>
    bind (tag_spans self rest) (fun rest' =>
    Ok ({| source_span := source_span edit_span;
           target_span := target_span edit_span;
           tag := tg |} :: rest')))
  end.

Definition classify (self : GenericClassifier) (source_doc target_doc : Doc)
  : result (list EditSpan) :=
  tag_spans self (get_edit_spans source_doc target_doc).

(* =============================================================== *)
(** ** api.py *)

(** [spacy.load(model_name)]: the pipeline, a function from a sentence
    to its annotated document. *)
Variable load_spacy_from_google3 : string -> string -> Doc.

(** [aspell.Speller('lang', lang)]: the speller, through its [suggest]. *)
Variable aspell_Speller : string -> string -> list string.

Definition GenericClassifier_new (aspell_lang : option string) : GenericClassifier :=
  {| _aspell_lang := aspell_lang; _aspell := None |}.

Definition GenericClassifier_initialize (self : GenericClassifier) : GenericClassifier :=
  match _aspell_lang self with
  | Some lang => {| _aspell_lang := _aspell_lang self;
                    _aspell := Some (aspell_Speller lang) |}
  | None => self
  end.

Record Annotator : Type := {
  _spacy_model : string;
  _annotator_aspell_lang : option string;
  _initialized : bool;
  _nlp : option (string -> Doc);
  _classifier : option GenericClassifier
}.

Definition Annotator_new (spacy_model : string) (aspell_lang : option string)
  : Annotator :=
  {| _spacy_model := spacy_model;
     _annotator_aspell_lang := aspell_lang;
     _initialized := false;
     _nlp := None;
     _classifier := None |}.

Definition initialize (self : Annotator) : Annotator :=
  {| _spacy_model := _spacy_model self;
     _annotator_aspell_lang := _annotator_aspell_lang self;
     _initialized := true;
     _nlp := Some (load_spacy_from_google3 (_spacy_model self));
     _classifier :=
       Some (GenericClassifier_initialize
               (GenericClassifier_new (_annotator_aspell_lang self))) |}.

(** What a caller can pass as [target_sentences]: one string, or a
    sequence of strings. *)
Inductive targets_arg : Type :=
| TargetsStr (s : string)
| TargetsSeq (l : list string).

(** The loop of [annotate] on the state [annotation]. *)
Fixpoint annotate_loop (nlp : string -> Doc) (classifier : GenericClassifier)
         (targets : list string) (annotation : Annotation) : result Annotation :=
  match targets with
  | [] => Ok annotation
  | target_sentence :: rest =>
    let target_doc := nlp target_sentence in
    bind (classify classifier (source_doc annotation) target_doc) (fun spans =>
    annotate_loop nlp classifier rest
      {| source_doc := source_doc annotation;
         target_sentences :=
           target_sentences annotation
           ++ [{| doc := target_doc; edit_spans := spans |}] |})
  end.

Definition not_initialized_error : exn :=
  ValueError "Annotator not initialized.".

Definition string_targets_error : exn :=
  ValueError "target_sentences must be a list, not a string.".

Definition annotate (self : Annotator) (source_sentence : string)
           (target_sentences : targets_arg) : result Annotation :=
  if negb (_initialized self) then Raise not_initialized_error
  else
    match target_sentences with
    | TargetsStr _ => Raise string_targets_error
    | TargetsSeq targets =>
      match _nlp self, _classifier self with
      | Some nlp, Some classifier =>
        let source_doc := nlp source_sentence in
        annotate_loop nlp classifier targets
          {| source_doc := source_doc; target_sentences := [] |}
      | _, _ => Raise (TypeError "'NoneType' object is not callable")
      end
    end.

(* =============================================================== *)
(** ** io.py: the M2 formatters *)

(** spaCy's [Span.text] ([None] when it raises [IndexError]),
    [Span.start_char] and [Span.end_char]. *)
Variable Span_text : Span -> option string.
Variable Span_start_char : Span -> Z.
Variable Span_end_char : Span -> Z.

(** ["%d" % z]. *)
Definition fmt_d (z : Z) : string := NilZero.string_of_int (Z.to_int z).

Definition newline : string := String "010"%char EmptyString.

(** [" " * n]. *)
Definition spaces (n : Z) : string :=
  String.concat "" (repeat " " (Z.to_nat n)).

Definition _M2_LINE (start_ end_ : Z) (label target_text : string)
           (annotator_id : Z) : string :=
  "A " ++ fmt_d start_ ++ " " ++ fmt_d end_ ++ "|||" ++ label ++ "|||"
       ++ target_text ++ "|||REQUIRED|||-NONE-|||" ++ fmt_d annotator_id.

Definition _NOOP_M2_LINE (annotator_id : Z) : string :=
  "A -1 -1|||noop|||-NONE-|||REQUIRED|||-NONE-|||" ++ fmt_d annotator_id.

(** [try: edit_span.target_span.text / except IndexError: ""]. *)
Definition target_text_of (edit_span : EditSpan) : string :=
  match Span_text (target_span edit_span) with
  | Some t => t
  | None => ""
  end.

Definition m2char_span_line (annotator_id : nat) (edit_span : EditSpan) : string :=
  let target_text := target_text_of edit_span in
  let start_char := Span_start_char (source_span edit_span) in
  let end_char := Span_end_char (source_span edit_span) in
  let insert := (span_start (source_span edit_span)
                 =? span_end (source_span edit_span))%Z in
  let target_text :=
    if insert && (end_char <? start_char)%Z
    then (spaces (start_char - end_char) ++ target_text)%string
    else target_text in
  let start_char := if insert then end_char else start_char in
  _M2_LINE start_char end_char (get_label edit_span) target_text
           (Z.of_nat annotator_id).

Definition m2tok_span_line (annotator_id : nat) (edit_span : EditSpan) : string :=
  _M2_LINE (span_start (source_span edit_span)) (span_end (source_span edit_span))
           (get_label edit_span) (target_text_of edit_span)
           (Z.of_nat annotator_id).

(** The body of the loop over [enumerate(annotation.target_sentences)],
    on the state [m2_lines]; [span_line] is the line of one edit span. *)
Definition m2_target_step (span_line : nat -> EditSpan -> string)
           (m2_lines : list string) (it : nat * TargetSentence) : list string :=
  let '(annotator_id, target_sentence) := it in
  let m2_lines :=
    match edit_spans target_sentence with
    | [] => m2_lines ++ [_NOOP_M2_LINE (Z.of_nat annotator_id)]
    | _ => m2_lines
    end in
  fold_left (fun m2_lines edit_span => m2_lines ++ [span_line annotator_id edit_span])
            (edit_spans target_sentence) m2_lines.

Definition m2_lines_of (span_line : nat -> EditSpan -> string)
           (first_line : string) (annotation : Annotation) : list string :=
  let m2_lines := [first_line] in
  let m2_lines := fold_left (m2_target_step span_line)
                            (enumerate (target_sentences annotation)) m2_lines in
  m2_lines ++ [""].

Definition M2Char_lines (annotation : Annotation) : list string :=
  m2_lines_of m2char_span_line ("S " ++ doc_text (source_doc annotation)) annotation.

Definition M2Tok_lines (annotation : Annotation) : list string :=
  m2_lines_of m2tok_span_line
    ("S " ++ String.concat " " (map text (doc_tokens (source_doc annotation))))
    annotation.

(** [M2CharFormatter.format] and [M2TokFormatter.format]: the lines
    joined by newlines (the text whose UTF-8 bytes are returned). *)
Definition M2CharFormatter_format (annotation : Annotation) : string :=
  String.concat newline (M2Char_lines annotation).

Definition M2TokFormatter_format (annotation : Annotation) : string :=
  String.concat newline (M2Tok_lines annotation).

End Merrant.

(* ================================================================= *)
(** ** Concrete instances for the worked cases *)

(** [str.lower()] on ASCII text. *)
Definition lower_char (c : ascii) : ascii :=
  let n := nat_of_ascii c in
  if (65 <=? n)%nat && (n <=? 90)%nat then ascii_of_nat (n + 32) else c.

Fixpoint ascii_lower (s : string) : string :=
  match s with
  | EmptyString => EmptyString
  | String c rest => String (lower_char c) (ascii_lower rest)
  end.

(** A token with its text, lemma id and tag, neither punctuation nor digit. *)
Definition word (t : string) (l : Z) (p : UPOS) : Token :=
  {| text := t; lemma := l; pos := p; morph := [];
     is_punct := false; is_digit := false; idx := 0 |}.

(** A document holding the given tokens. *)
Definition doc_of (tokens : list Token) : Doc :=
  {| doc_text := String.concat " " (map text tokens); doc_tokens := tokens |}.

(** The whole of a document as a span. *)
Definition whole (tokens : list Token) : Span :=
  slice (doc_of tokens) 0 (Z.of_nat (List.length tokens)).

(* ================================================================= *)
(** ** Python string methods the scripts use *)

Definition tab : ascii := "009"%char.
Definition nl : ascii := "010"%char.

(** [s.split(sep)] for a separator of one character. *)
Fixpoint split (sep : ascii) (s : string) : list string :=
  match s with
  | EmptyString => [EmptyString]
  | String c rest =>
    if Ascii.eqb c sep then EmptyString :: split sep rest
    else match split sep rest with
         | head :: tail => String c head :: tail
         | [] => [String c EmptyString]
         end
  end.

(** [s.lstrip(c)], [s.rstrip(c)] and [s.strip(c)] for one character. *)
Fixpoint lstrip (c : ascii) (s : string) : string :=
  match s with
  | EmptyString => EmptyString
  | String d rest => if Ascii.eqb d c then lstrip c rest else s
  end.

Fixpoint rstrip (c : ascii) (s : string) : string :=
  match s with
  | EmptyString => EmptyString
  | String d rest =>
    match rstrip c rest with
    | EmptyString => if Ascii.eqb d c then EmptyString else String d EmptyString
    | kept => String d kept
    end
  end.

Definition strip (c : ascii) (s : string) : string := rstrip c (lstrip c s).

(* ================================================================= *)
(** ** io.py: the tagged-corruption formatter and the factory *)

(** The body of the loop over the target sentences, on [tsv_lines]. *)
Definition tsv_target_step (source_text : string) (tsv_lines : list string)
           (target_sentence : TargetSentence) : list string :=
  let target_text := doc_text (doc target_sentence) in
  fold_left (fun tsv_lines edit_span =>
               tsv_lines ++ [String.concat (String tab EmptyString)
                               [get_label edit_span; target_text; source_text]])
            (edit_spans target_sentence) tsv_lines.

Definition TSV_lines (annotation : Annotation) : list string :=
  let source_text := doc_text (source_doc annotation) in
  fold_left (tsv_target_step source_text) (target_sentences annotation) [].

(** [TSVTaggedCorruptionFormatter.format]. *)
Definition TSVTaggedCorruptionFormatter_format (annotation : Annotation) : string :=
  String.concat (String nl EmptyString) (TSV_lines annotation).

(** The three formatter classes. *)
Inductive AnnotationFormatter : Type :=
| M2CharFormatter
| M2TokFormatter
| TSVTaggedCorruptionFormatter.

Section Cli.

Variable lower : string -> string.
Variable load_spacy_from_google3 : string -> string -> Doc.
Variable aspell_Speller : string -> string -> list string.
Variable Span_text : Span -> option string.
Variable Span_start_char : Span -> Z.
Variable Span_end_char : Span -> Z.

(** [repr(s)] of a string, as [%r] prints it. *)
Variable repr : string -> string.

(** [formatter.format(annotation)], by the class of the formatter. *)
Definition AnnotationFormatter_format (formatter : AnnotationFormatter)
           (annotation : Annotation) : string :=
  match formatter with
  | M2CharFormatter =>
    M2CharFormatter_format Span_text Span_start_char Span_end_char annotation
  | M2TokFormatter => M2TokFormatter_format Span_text annotation
  | TSVTaggedCorruptionFormatter => TSVTaggedCorruptionFormatter_format annotation
  end.

Definition make_formatter (formatter_name : string) : result AnnotationFormatter :=
  if String.eqb formatter_name "M2_CHAR" then Ok M2CharFormatter
  else if String.eqb formatter_name "M2_TOK" then Ok M2TokFormatter
  else if String.eqb formatter_name "TSV_TAGGED_CORRUPTION"
  then Ok TSVTaggedCorruptionFormatter
  else Raise (ValueError ("Unknown formatter name " ++ repr formatter_name)).

(* ================================================================= *)
(** ** annotate.py: the command-line tool *)

(** What can end a run of the tool: an exception of the package, a list
    index out of range, or a usage error. *)
Inductive cli_exn : Type :=
| Package (e : exn)
| IndexError (msg : string)
| UsageError (msg : string).

(** The body of the loop over the lines of the standard input: the text
    that is printed, or the exception that is raised. *)
Definition annotate_line (annotator : Annotator) (formatter : AnnotationFormatter)
           (line : string) : cli_exn + string :=
  let parts := split tab (strip nl line) in
  match parts with
  | [] => inl (IndexError "list index out of range")
  | source_sentence :: targets =>
    match annotate lower annotator source_sentence (TargetsSeq targets) with
    | Raise e => inl (Package e)
    | Ok annotation => inr (AnnotationFormatter_format formatter annotation)
    end
  end.

(** The loop over the lines, on the texts printed so far; it ends with
    the last line or at the first exception. *)
Fixpoint annotate_lines (annotator : Annotator) (formatter : AnnotationFormatter)
         (lines : list string) (printed : list string)
  : list string * option cli_exn :=
  match lines with
  | [] => (printed, None)
  | line :: rest =>
    match annotate_line annotator formatter line with
    | inl e => (printed, Some e)
    | inr text => annotate_lines annotator formatter rest (printed ++ [text])
    end
  end.

(** The values the flag [--output_format] takes ([flags.DEFINE_enum]
    refuses any other one before [main] runs). *)
Definition _OUTPUT_FORMAT_values : list string :=
  ["M2_CHAR"; "M2_TOK"; "TSV_TAGGED_CORRUPTION"].

(** [main(argv)] with the values of the two flags and the lines of the
    standard input: what is printed, and the exception that ends the run
    if there is one.  What [format] returns is the UTF-8 encoding of a
    text, and [main] decodes it before printing: the text itself here. *)
Definition main (argv : list string) (spacy_model output_format : string)
           (stdin : list string) : list string * option cli_exn :=
  if (1 <? List.length argv)%nat
  then ([], Some (UsageError "Too many command-line arguments."))
  else
    let annotator :=
      initialize load_spacy_from_google3 aspell_Speller
                 (Annotator_new spacy_model (Some (substring 0 2 spacy_model))) in
    match make_formatter output_format with
    | Raise e => ([], Some (Package e))
    | Ok formatter => annotate_lines annotator formatter stdin []
    end.

End Cli.

(* ================================================================= *)
(** ** Specification of the aligner *)

Definition s_start (e : EditSpan) : Z := span_start (source_span e).
Definition s_end (e : EditSpan) : Z := span_end (source_span e).
Definition t_start (e : EditSpan) : Z := span_start (target_span e).
Definition t_end (e : EditSpan) : Z := span_end (target_span e).

(** [len(doc)]. *)
Definition doc_len (d : Doc) : Z := Z.of_nat (List.length (doc_tokens d)).

(** The span is a pair of index ranges of the two documents. *)
Definition in_range (src tgt : Doc) (e : EditSpan) : Prop :=
  span_doc (source_span e) = src /\ span_doc (target_span e) = tgt
  /\ (0 <= s_start e <= s_end e)%Z /\ (s_end e <= doc_len src)%Z
  /\ (0 <= t_start e <= t_end e)%Z /\ (t_end e <= doc_len tgt)%Z.

(** The source range and the target range are not both empty. *)
Definition not_both_empty (e : EditSpan) : Prop :=
  (s_start e < s_end e)%Z \/ (t_start e < t_end e)%Z.

(** [e1] lies strictly before [e2] on both sides: the ranges do not
    overlap and do not touch. *)
Definition before (e1 e2 : EditSpan) : Prop :=
  (s_end e1 < s_start e2)%Z /\ (t_end e1 < t_start e2)%Z.

(** [tiles a b spans m n]: from source index [a] and target index [b] on,
    a matched region (as long on one side as on the other) and a span
    alternate, and the last matched region ends at [m] and [n]; the
    ranges of the spans and the matched regions between them cover
    [a..m] and [b..n] exactly. *)
Fixpoint tiles (a b : Z) (spans : list EditSpan) (m n : Z) : Prop :=
  match spans with
  | [] => (a <= m)%Z /\ (m - a = n - b)%Z
  | e :: rest =>
    (a <= s_start e)%Z /\ (s_start e - a = t_start e - b)%Z
    /\ (s_start e <= s_end e)%Z /\ (t_start e <= t_end e)%Z
    /\ tiles (s_end e) (t_end e) rest m n
  end.

(** The aligner output invariant. *)
Definition aligner_invariant (src tgt : Doc) (spans : list EditSpan) : Prop :=
  Forall (in_range src tgt) spans
  /\ Forall not_both_empty spans
  /\ StronglySorted before spans
  /\ tiles 0 0 spans (doc_len src) (doc_len tgt).

(** Both coordinates grow. *)
Definition lt2 (p q : Z * Z) : Prop := (fst p < fst q)%Z /\ (snd p < snd q)%Z.

(** The point [(i, i)] of the diagonal. *)
Definition diag (i : nat) : Z * Z := (Z.of_nat i, Z.of_nat i).

(** The spans the last loop of [get_edit_spans] adds from
    [(prev_source_pos, prev_target_pos)] on. *)
Fixpoint spans_from (src tgt : Doc) (ps pt : Z) (align : list (Z * Z))
  : list EditSpan :=
  match align with
  | [] => []
  | (source_pos, target_pos) :: rest =>
    (if negb (ps + 1 =? source_pos)%Z || negb (pt + 1 =? target_pos)%Z
     then [{| source_span := slice src (ps + 1) source_pos;
              target_span := slice tgt (pt + 1) target_pos;
              tag := UNK_TAG_NAME |}]
     else [])
    ++ spans_from src tgt source_pos target_pos rest
  end.

(** The state of the outer loop of [levenshtein_matrix] after the source
    tokens [xs]. *)
Definition mat_state {T : Type} (compare_func : T -> T -> num)
           (xs ys : list T) : list num * list (list num) :=
  fold_left (mat_step compare_func ys) (enumerate xs)
            (first_row ys, [first_row ys]).

(** The spec floats that are not negative and not NaN, and the zeros. *)
Definition SFnonneg (s : spec_float) : bool :=
  match s with
  | S754_zero _ | S754_infinity false | S754_finite false _ _ => true
  | _ => false
  end.

Definition SFzero (s : spec_float) : bool :=
  match s with
  | S754_zero _ => true
  | _ => false
  end.

(** [0 <= f]: a zero, a positive number or plus infinity. *)
Definition nonneg (f : float) : Prop := (0 <=? f)%float = true.

(** [f == 0]: plus or minus zero. *)
Definition is_zero (f : float) : Prop := (f =? 0)%float = true.

(** A number that is not negative, and a float that is a zero. *)
Definition num_nonneg (x : num) : Prop := nonneg (to_float x).

Definition num_zero (x : num) : Prop := exists f, x = Float f /\ is_zero f.

(* ================================================================= *)
(** ** Specification of the classifier *)

(** What [classify_single_span] does with a span: it returns a tag of
    its own, or calls one of the three later rules. *)
Inductive rule_call : Type :=
| Direct (tg : string)
| OneSided (tokens : list Token)
| One2One (source_token target_token : Token)
| TwoSided (source_tokens target_tokens : list Token).

(** The call [classify_single_span] makes on an edit span. *)
Definition cascade (lower : string -> string) (edit_span : EditSpan) : rule_call :=
  let source := span_tokens (source_span edit_span) in
  let target := span_tokens (target_span edit_span) in
  if _is_orth_error lower source target then Direct "ORTH"
  else if _is_wo_error lower source target then Direct "WO"
  else if _is_punct_error lower source target then Direct "PUNCT"
  else
    let source_regular_tokens := get_regular_tokens source in
    let target_regular_tokens := get_regular_tokens target in
    if _is_orth_error lower source_regular_tokens target_regular_tokens
    then Direct "NUM"
    else
      match source_regular_tokens, target_regular_tokens with
      | [], _ => OneSided target_regular_tokens
      | _, [] => OneSided source_regular_tokens
      | [s], [t] => One2One s t
      | _, _ => TwoSided source_regular_tokens target_regular_tokens
      end.

Definition run_call (lower : string -> string) (self : GenericClassifier)
           (c : rule_call) : result string :=
  match c with
  | Direct tg => Ok tg
  | OneSided tokens => Ok (_get_one_sided_tag tokens)
  | One2One s t => _get_one2one_tag lower self s t
  | TwoSided s t => Ok (_get_two_sided_tag s t)
  end.

Definition all_UPOS : list UPOS :=
  [NO_TAG; ADJ; ADP; ADV; AUX; CONJ; CCONJ; DET; INTJ; NOUN; NUM;
   PART; PRON; PROPN; PUNCT; SCONJ; SYM; VERB; X; EOL; SPACE].

Definition pos_names : list string := map UPOS_name all_UPOS.

(** The tags the one-sided rule, the two-sided rule and the three later
    rules together can return. *)
Definition one_sided_tags : list string :=
  ["VERB:TENSE"; "VERB"; "OTHER"] ++ pos_names.

Definition two_sided_tags : list string :=
  ["VERB:TENSE"; "NOUN:NUM"; "NOUN"; "VERB:SVA"; "VERB"; "OTHER"] ++ pos_names.

Definition later_tags : list string :=
  ["NOUN:INFL"; "VERB:INFL"; "MORPH"; "SPELL"] ++ one_sided_tags ++ two_sided_tags.

(** The conditions of the rules, in the words of the rule table:
    every token is an AUX; *)
Definition all_aux (tokens : list Token) : Prop :=
  Forall (fun t => pos t = AUX) tokens.

(** every token is AUX, PART or VERB, and at least one is a VERB; *)
Definition verbal (tokens : list Token) : Prop :=
  Forall (fun t => pos t = AUX \/ pos t = PART \/ pos t = VERB) tokens
  /\ Exists (fun t => pos t = VERB) tokens.

(** every token is DET or NOUN, and at least one is a NOUN. *)
Definition nominal (tokens : list Token) : Prop :=
  Forall (fun t => pos t = DET \/ pos t = NOUN) tokens
  /\ Exists (fun t => pos t = NOUN) tokens.

(** The pair lets the verb loop go on: it agrees in Tense, and does not
    differ in both Number and Person. *)
Definition verb_pair_passes (p : Token * Token) : bool :=
  _morph_match (fst p) (snd p) "Tense"
  && negb (negb (_morph_match (fst p) (snd p) "Number")
           && negb (_morph_match (fst p) (snd p) "Person")).

(* ================================================================= *)
(** ** Specification of the formatters *)

(** The lines one target sentence adds to an M2 block. *)
Definition target_lines (span_line : nat -> EditSpan -> string)
           (it : nat * TargetSentence) : list string :=
  match edit_spans (snd it) with
  | [] => [_NOOP_M2_LINE (Z.of_nat (fst it))]
  | spans => map (span_line (fst it)) spans
  end.

(* ================================================================= *)
(** ** Worked inputs *)

(** The classifier with no speller, and one whose speller answers every
    word with the same suggestions. *)
Definition no_speller : GenericClassifier :=
  {| _aspell_lang := None; _aspell := None |}.

Definition speller_of (suggestions : list string) : GenericClassifier :=
  {| _aspell_lang := Some "en"; _aspell := Some (fun _ => suggestions) |}.

(** An edit span over two token lists, each taken whole. *)
Definition span_of (source target : list Token) : EditSpan :=
  {| source_span := whole source; target_span := whole target;
     tag := UNK_TAG_NAME |}.

(** A verb with its Number, Person and Tense features. *)
Definition verb (t : string) (l : Z) (number person tense : string) : Token :=
  {| text := t; lemma := l; pos := VERB;
     morph := [("Number", [number]); ("Person", [person]); ("Tense", [tense])];
     is_punct := false; is_digit := false; idx := 0 |}.

(** A token that is a punctuation mark, and one that is a digit. *)
Definition punct_token (t : string) : Token :=
  {| text := t; lemma := 0; pos := PUNCT; morph := [];
     is_punct := true; is_digit := false; idx := 0 |}.

Definition digit_token (t : string) : Token :=
  {| text := t; lemma := 0; pos := NUM; morph := [];
     is_punct := false; is_digit := true; idx := 0 |}.

Definition tok_is : Token := word "is" 10 AUX.
Definition tok_was : Token := word "was" 10 AUX.
Definition tok_go : Token := word "go" 11 VERB.
Definition tok_will : Token := word "will" 12 AUX.

Definition tok_walks : Token := verb "walks" 20 "Sing" "3" "Pres".
Definition tok_walk : Token := verb "walk" 20 "Plur" "1" "Pres".
Definition tok_sings : Token := verb "sings" 21 "Sing" "3" "Pres".
Definition tok_sang : Token := verb "sang" 21 "Sing" "3" "Past".

Definition tok_three : Token := word "three" 30 NUM.

Definition tok_storr : Token := word "storr" 40 NOUN.
Definition tok_store : Token := word "store" 41 NOUN.

(** A pipeline and a speller to run the annotator on: every sentence is
    one token, and the speller has nothing to suggest. *)
Definition one_token_nlp (model sentence : string) : Doc :=
  {| doc_text := sentence; doc_tokens := [word sentence 0 X] |}.

Definition silent_speller (lang source_word : string) : list string := [].

Definition fresh_annotator : Annotator := Annotator_new "en_core_web_sm" (Some "en").

(* ================================================================= *)
(** ** Specification of the rest of the package *)

(** The edit span with another tag. *)
Definition with_tag (e : EditSpan) (tg : string) : EditSpan :=
  {| source_span := source_span e; target_span := target_span e; tag := tg |}.

(** The two spans of the edit are the same. *)
Definition same_spans (e e' : EditSpan) : Prop :=
  source_span e = source_span e' /\ target_span e = target_span e'.

(** Every tag [classify_single_span] can return. *)
Definition all_tags : list string :=
  ["ORTH"; "WO"; "PUNCT"; "NUM"] ++ later_tags.

(** The number of occurrences of a character in a string. *)
Fixpoint count_char (c : ascii) (s : string) : nat :=
  match s with
  | EmptyString => 0
  | String d rest => (if Ascii.eqb d c then 1 else 0) + count_char c rest
  end.

(** The sentence [I goed] with its correction, as a speller and a tagger
    with the lemma [go] for both verbs would hand them over. *)
Definition tok_goed : Token := word "goed" 7 VERB.
Definition tok_went : Token := word "went" 7 VERB.

(** A noun with its Number feature, and an article. *)
Definition noun (t : string) (l : Z) (number : string) : Token :=
  {| text := t; lemma := l; pos := NOUN; morph := [("Number", [number])];
     is_punct := false; is_digit := false; idx := 0 |}.

Definition tok_the : Token := word "the" 50 DET.
Definition tok_cat : Token := noun "cat" 51 "Sing".
Definition tok_cats : Token := noun "cats" 51 "Plur".

(** The tags a classifier with no speller can return. *)
Definition no_speller_tags : list string :=
  ["ORTH"; "WO"; "PUNCT"; "NUM"; "MORPH"] ++ one_sided_tags ++ two_sided_tags.

(** [repr] of a string without quotes or escapes in it. *)
Definition plain_repr (s : string) : string := ("'" ++ s ++ "'")%string.

(** No text for the spans, every offset zero: enough to run the
    formatters on annotations without edit spans. *)
Definition no_span_text (sp : Span) : option string := None.
Definition zero_offset (sp : Span) : Z := 0%Z.

(** The no-op lines of the annotators [base], [base + 1], ... *)
Definition noop_lines (base count : nat) : list string :=
  map (fun annotator_id => _NOOP_M2_LINE (Z.of_nat annotator_id)) (seq base count).

(* ================================================================= *)
(** ** Specification of the character distance *)

(** A number from zero on: an int that is not negative, or a float
    that is not negative (and so not NaN). *)
Definition num_ge0 (x : num) : Prop :=
  match x with
  | Int z => (0 <= z)%Z
  | Float f => nonneg f
  end.

(** The number is the integer [n]: the int [n], or the float of [n]. *)
Definition num_is (x : num) (n : Z) : Prop :=
  match x with
  | Int z => z = n
  | Float f => f = float_of_Z n
  end.

Section EditDistance.

Context {A : Type}.

(** [differ x y] holds when replacing [x] by [y] is an edit. *)
Variable differ : A -> A -> bool.

(** The Levenshtein distance of two sequences, by its recursion: the
    length of the other sequence when one is empty, and otherwise the
    least of one more than the distance after a deletion, one more than
    the distance after an insertion, and the distance of the two tails
    plus one when the two heads differ. *)
Fixpoint lev_dist (xs ys : list A) : nat :=
  match xs with
  | [] => List.length ys
  | x :: xs' =>
    (fix lev_dist_x (ys : list A) : nat :=
       match ys with
       | [] => List.length xs
       | y :: ys' =>
         Nat.min (Nat.min (S (lev_dist xs' ys)) (S (lev_dist_x ys')))
                 (lev_dist xs' ys' + Nat.b2n (differ x y))
       end) ys
  end.

(** [edits xs ys n]: [n] single-element insertions, deletions and
    replacements turn [xs] into [ys]. *)
Inductive edits : list A -> list A -> nat -> Prop :=
| edits_done : edits [] [] 0
| edits_delete x xs ys n : edits xs ys n -> edits (x :: xs) ys (S n)
| edits_insert y xs ys n : edits xs ys n -> edits xs (y :: ys) (S n)
| edits_replace x y xs ys n :
    edits xs ys n -> edits (x :: xs) (y :: ys) (n + Nat.b2n (differ x y)).

End EditDistance.

(** Two characters differ. *)
Definition char_differs (x y : string) : bool := negb (String.eqb x y).

(** The Levenshtein distance of the characters of two strings. *)
Definition char_distance (a b : string) : Z :=
  Z.of_nat (lev_dist char_differs (chars a) (chars b)).

(** One character: a first byte, then continuation bytes only. *)
Definition one_char (c : string) : bool :=
  match c with
  | EmptyString => false
  | String _ rest => forallb is_continuation (list_ascii_of_string rest)
  end.

(** [cs] is the cut of [s] into characters: put together the pieces
    are [s], every piece is one character, and none after the first
    begins with a continuation byte. *)
Definition char_cut (s : string) (cs : list string) : Prop :=
  String.concat "" cs = s
  /\ Forall (fun c => one_char c = true) cs
  /\ Forall (fun c => starts_with_continuation c = false) (tl cs).

(** A word with a character outside ASCII (two bytes in UTF-8), and the
    word with the letter [l] in its place. *)
Definition tok_male_pl : Token := word "małe" 60 ADJ.
Definition tok_male : Token := word "male" 61 ADJ.

(** The binary64 number of a positive integer below [2^53]: the integer
    shifted to 53 bits, with the exponent that undoes the shift. *)
Definition SF_of_pos (p : positive) : spec_float :=
  let k := Zpos (digits2_pos p) in
  S754_finite false (Z.to_pos (Zpos p * 2 ^ (53 - k))) (k - 53).

Definition SF_of_Z (z : Z) : spec_float :=
  match z with
  | Zpos p => SF_of_pos p
  | _ => S754_zero false
  end.

(* ================================================================= *)
(** ** Floats: the facts the aligner rests on *)

Ltac sf_decide :=
  cbv [SFnonneg SFzero SFltb SFeqb SFleb SFcompare SF64add SFadd];
  intros; first [reflexivity | congruence | tauto].

Lemma nonneg_spec f : nonneg f <-> SFnonneg (Prim2SF f) = true.
Proof.
  unfold nonneg. rewrite FloatAxioms.leb_spec.
  change (Prim2SF 0) with (S754_zero false).
  destruct (Prim2SF f) as [s|s| |s m e]; try destruct s; simpl; intuition congruence.
Qed.

Lemma is_zero_spec f : is_zero f <-> SFzero (Prim2SF f) = true.
Proof.
  unfold is_zero. rewrite FloatAxioms.eqb_spec.
  change (Prim2SF 0) with (S754_zero false).
  destruct (Prim2SF f) as [s|s| |s m e]; try destruct s; simpl; intuition congruence.
Qed.

Lemma shr_1_nonneg mrs : (0 <= shr_m mrs -> 0 <= shr_m (shr_1 mrs))%Z.
Proof.
  destruct mrs as [m r s]; simpl.
  destruct m as [|p|p]; simpl; try lia; destruct p; simpl; lia.
Qed.

Lemma iter_shr_1_nonneg p :
  forall mrs, (0 <= shr_m mrs -> 0 <= shr_m (SpecFloat.iter_pos shr_1 p mrs))%Z.
Proof.
  induction p as [p IH|p IH|]; simpl; intros mrs H.
  - apply IH, IH, shr_1_nonneg, H.
  - apply IH, IH, H.
  - apply shr_1_nonneg, H.
Qed.

Lemma shr_fexp_nonneg m e l :
  (0 <= m -> 0 <= shr_m (fst (shr_fexp prec emax m e l)))%Z.
Proof.
  intros H. unfold shr_fexp, shr.
  assert (H0 : (0 <= shr_m (shr_record_of_loc m l))%Z)
    by (destruct l as [|[| |]]; simpl; exact H).
  destruct (fexp prec emax (Zdigits2 m + e) - e)%Z; simpl; auto.
  apply iter_shr_1_nonneg, H0.
Qed.

Lemma round_nearest_even_nonneg m l :
  (0 <= m -> 0 <= round_nearest_even m l)%Z.
Proof.
  intros H. destruct l as [|[| |]]; simpl; try lia.
  destruct (Z.even m); lia.
Qed.

Lemma binary_round_aux_nonneg m e l :
  (0 <= m)%Z -> SFnonneg (binary_round_aux prec emax false m e l) = true.
Proof.
  intros H. unfold binary_round_aux.
  pose proof (shr_fexp_nonneg m e l H) as H1.
  destruct (shr_fexp prec emax m e l) as [mrs' e']; simpl in H1.
  pose proof (shr_fexp_nonneg _ e' loc_Exact
                (round_nearest_even_nonneg _ (loc_of_shr_record mrs') H1)) as H2.
  destruct (shr_fexp prec emax _ e' loc_Exact) as [mrs'' e'']; simpl in H2.
  destruct (shr_m mrs'') as [|p|p]; simpl; try reflexivity; try lia.
  destruct (e'' <=? _)%Z; reflexivity.
Qed.

Lemma binary_round_nonneg p e :
  SFnonneg (binary_round prec emax false p e) = true.
Proof.
  unfold binary_round. destruct (shl_align p e _) as [mz ez].
  apply binary_round_aux_nonneg. lia.
Qed.

Lemma binary_normalize_nonneg m e :
  (0 <= m)%Z -> SFnonneg (binary_normalize prec emax m e false) = true.
Proof.
  intros H. destruct m as [|p|p]; simpl; try reflexivity; try lia.
  apply binary_round_nonneg.
Qed.

Lemma SFadd_nonneg a b :
  SFnonneg a = true -> SFnonneg b = true -> SFnonneg (SF64add a b) = true.
Proof.
  destruct a as [sa|sa| |sa ma ea]; try destruct sa;
    destruct b as [sb|sb| |sb mb eb]; try destruct sb;
      simpl; intros Ha Hb; try reflexivity; try discriminate.
  apply binary_round_nonneg.
Qed.

Lemma add_nonneg x y : nonneg x -> nonneg y -> nonneg (x + y).
Proof.
  rewrite !nonneg_spec, FloatAxioms.add_spec. apply SFadd_nonneg.
Qed.

Lemma of_uint63_nonneg n : nonneg (of_uint63 n).
Proof.
  rewrite nonneg_spec, of_uint63_spec.
  apply binary_normalize_nonneg. apply Uint63.to_Z_bounded.
Qed.

Lemma add_zero_r x : is_zero x -> is_zero (x + 0).
Proof.
  rewrite !is_zero_spec, FloatAxioms.add_spec.
  change (Prim2SF 0) with (S754_zero false).
  destruct (Prim2SF x) as [s|s| |s m e]; try destruct s; simpl; congruence.
Qed.

Lemma is_zero_nonneg x : is_zero x -> nonneg x.
Proof.
  rewrite is_zero_spec, nonneg_spec.
  destruct (Prim2SF x) as [s|s| |s m e]; try destruct s; simpl; congruence.
Qed.

Lemma nonneg_not_lt_zero x y : nonneg x -> is_zero y -> (x <? y)%float = false.
Proof.
  rewrite is_zero_spec, nonneg_spec, FloatAxioms.ltb_spec.
  destruct (Prim2SF x) as [s|s| |s m e]; try destruct s;
    destruct (Prim2SF y) as [s'|s'| |s' m' e']; try destruct s';
      sf_decide.
Qed.

Lemma zero_not_lt_is_zero c r :
  is_zero c -> nonneg r -> (c <? r)%float = false -> is_zero r.
Proof.
  rewrite !is_zero_spec, nonneg_spec, FloatAxioms.ltb_spec.
  destruct (Prim2SF c) as [s|s| |s m e]; try destruct s;
    destruct (Prim2SF r) as [s'|s'| |s' m' e']; try destruct s';
      sf_decide.
Qed.

Lemma zero_eqb x y : is_zero x -> is_zero y -> (x =? y)%float = true.
Proof.
  rewrite !is_zero_spec, FloatAxioms.eqb_spec.
  destruct (Prim2SF x) as [s|s| |s m e]; try destruct s;
    destruct (Prim2SF y) as [s'|s'| |s' m' e']; try destruct s';
      sf_decide.
Qed.

(* ================================================================= *)
(** ** Floats: integers below [2^53] are exact *)

Lemma digits2_size p : digits2_pos p = Pos.size p.
Proof. induction p; simpl; congruence. Qed.

Lemma digits2_bounds p :
  (2 ^ (Zpos (digits2_pos p) - 1) <= Zpos p < 2 ^ Zpos (digits2_pos p))%Z.
Proof.
  rewrite digits2_size. split.
  - pose proof (Pos.size_le p) as H.
    assert (H' : (2 ^ Zpos (Pos.size p) <= 2 * Zpos p)%Z).
    { change (2 * Zpos p)%Z with (Zpos p~0). rewrite <- Pos2Z.inj_pow. exact H. }
    replace (Zpos (Pos.size p)) with (Z.succ (Zpos (Pos.size p) - 1)) in H' by lia.
    rewrite Z.pow_succ_r in H' by lia. lia.
  - pose proof (Pos.size_gt p) as H.
    rewrite <- Pos2Z.inj_pow. exact H.
Qed.

Lemma digits2_unique p k :
  (2 ^ (k - 1) <= Zpos p < 2 ^ k)%Z -> (0 < k)%Z -> Zpos (digits2_pos p) = k.
Proof.
  intros [H1 H2] Hk. pose proof (digits2_bounds p) as [H3 H4].
  destruct (Z.lt_trichotomy (Zpos (digits2_pos p)) k) as [H|[H|H]]; [|exact H|].
  - exfalso.
    assert (2 ^ Zpos (digits2_pos p) <= 2 ^ (k - 1))%Z
      by (apply Z.pow_le_mono_r; lia). lia.
  - exfalso.
    assert (2 ^ k <= 2 ^ (Zpos (digits2_pos p) - 1))%Z
      by (apply Z.pow_le_mono_r; lia). lia.
Qed.

Lemma digits2_shift p d :
  (0 <= d)%Z ->
  Zpos (digits2_pos (Z.to_pos (Zpos p * 2 ^ d))) = (Zpos (digits2_pos p) + d)%Z.
Proof.
  intros Hd. pose proof (digits2_bounds p) as [H1 H2].
  assert (Hp : (0 < 2 ^ d)%Z) by (apply Z.pow_pos_nonneg; lia).
  apply digits2_unique; [|lia].
  rewrite Z2Pos.id by nia.
  replace (Zpos (digits2_pos p) + d - 1)%Z with ((Zpos (digits2_pos p) - 1) + d)%Z by lia.
  rewrite !Z.pow_add_r by lia. nia.
Qed.

Lemma iter_xO_nat n : forall p,
  Zpos (Nat.iter n xO p) = (Zpos p * 2 ^ Z.of_nat n)%Z.
Proof.
  induction n as [|n IH]; intros p.
  - simpl. lia.
  - rewrite Nat2Z.inj_succ, Z.pow_succ_r by lia.
    change (Nat.iter (S n) xO p) with (xO (Nat.iter n xO p)).
    rewrite Pos2Z.inj_xO, IH. lia.
Qed.

Lemma iter_xO p d : Zpos (Pos.iter xO p d) = (Zpos p * 2 ^ Zpos d)%Z.
Proof.
  rewrite Pos2Nat.inj_iter. rewrite <- (positive_nat_Z d). apply iter_xO_nat.
Qed.

Lemma shl_align_value mx ex ex' :
  let '(m, e) := shl_align mx ex ex' in
  e = Z.min ex ex' /\ Zpos m = (Zpos mx * 2 ^ (ex - e))%Z.
Proof.
  unfold shl_align. destruct (ex' - ex)%Z as [|d|d] eqn:E.
  - split; [lia|]. replace (ex - ex)%Z with 0%Z by lia. simpl. lia.
  - pose proof (Pos2Z.is_pos d).
    split; [lia|]. replace (ex - ex)%Z with 0%Z by lia. simpl. lia.
  - pose proof (Pos2Z.neg_is_neg d). pose proof (Pos2Z.opp_pos d).
    split; [lia|]. rewrite iter_xO. f_equal. f_equal. lia.
Qed.

Lemma iter_pos_nat {A} (f : A -> A) p : forall x,
  SpecFloat.iter_pos f p x = Nat.iter (Pos.to_nat p) f x.
Proof.
  induction p as [p IH|p IH|]; intros x; simpl SpecFloat.iter_pos.
  - rewrite !IH. rewrite Pos2Nat.inj_xI, Nat.iter_succ_r.
    replace (2 * Pos.to_nat p)%nat with (Pos.to_nat p + Pos.to_nat p)%nat by lia.
    now rewrite Nat.iter_add.
  - rewrite !IH. rewrite Pos2Nat.inj_xO.
    replace (2 * Pos.to_nat p)%nat with (Pos.to_nat p + Pos.to_nat p)%nat by lia.
    now rewrite Nat.iter_add.
  - reflexivity.
Qed.

Lemma shr_exact_nat n : forall m : positive,
  Nat.iter n shr_1 {| shr_m := Zpos m * 2 ^ Z.of_nat n; shr_r := false; shr_s := false |}
  = {| shr_m := Zpos m; shr_r := false; shr_s := false |}.
Proof.
  induction n as [|n IH]; intros m.
  - simpl. f_equal. lia.
  - rewrite Nat.iter_succ_r.
    replace (Zpos m * 2 ^ Z.of_nat (S n))%Z with (Zpos (xO m) * 2 ^ Z.of_nat n)%Z.
    2:{ rewrite Nat2Z.inj_succ, Z.pow_succ_r by lia. lia. }
    assert (E : shr_1 {| shr_m := Zpos m~0 * 2 ^ Z.of_nat n; shr_r := false; shr_s := false |}
                = {| shr_m := Zpos m * 2 ^ Z.of_nat n; shr_r := false; shr_s := false |}).
    { assert (Hp : (0 < 2 ^ Z.of_nat n)%Z) by (apply Z.pow_pos_nonneg; lia).
      destruct (2 ^ Z.of_nat n)%Z as [|q|q] eqn:Eq; try lia.
      simpl. reflexivity. }
    rewrite E. apply IH.
Qed.

Lemma shr_exact (t : positive) (m : positive) :
  SpecFloat.iter_pos shr_1 t
    {| shr_m := Zpos m * 2 ^ Zpos t; shr_r := false; shr_s := false |}
  = {| shr_m := Zpos m; shr_r := false; shr_s := false |}.
Proof.
  rewrite iter_pos_nat. rewrite <- (positive_nat_Z t). apply shr_exact_nat.
Qed.

(** Rounding leaves a mantissa of 53 bits as it is. *)
Lemma round_aux_canonical (mz : positive) (ez : Z) :
  Zpos (digits2_pos mz) = 53%Z -> (-1074 <= ez <= 971)%Z ->
  binary_round_aux prec emax false (Zpos mz) ez loc_Exact = S754_finite false mz ez.
Proof.
  intros Hd He. unfold binary_round_aux, shr_fexp.
  cbn [Zdigits2 shr_record_of_loc]. rewrite Hd.
  assert (E : (fexp prec emax (53 + ez) - ez = 0)%Z).
  { unfold fexp, emin. change prec with 53%Z. change emax with 1024%Z. lia. }
  rewrite E. cbn [shr shr_m loc_of_shr_record round_nearest_even Zdigits2 shr_record_of_loc].
  rewrite Hd, E. cbn [shr shr_m].
  change (emax - prec)%Z with 971%Z.
  destruct (Z.leb_spec ez 971); [reflexivity | lia].
Qed.

(** Rounding [q * 2^s] with the exponent [-s] gives the binary64 number
    of [q]: nothing is lost below [2^53]. *)
Lemma round_exact (q : positive) (s : Z) :
  (Zpos q < 2 ^ 53)%Z -> (0 <= s <= 52)%Z ->
  binary_round prec emax false (Z.to_pos (Zpos q * 2 ^ s)) (- s) = SF_of_pos q.
Proof.
  intros Hq Hs.
  pose proof (digits2_bounds q) as [Hk1 Hk2].
  set (k := Zpos (digits2_pos q)) in *.
  assert (Hk : (1 <= k <= 53)%Z).
  { split; [unfold k; lia|].
    destruct (Z.le_gt_cases k 53) as [H|H]; [exact H|].
    assert (2 ^ 53 <= 2 ^ (k - 1))%Z by (apply Z.pow_le_mono_r; lia). lia. }
  assert (Hps : (0 < 2 ^ s)%Z) by (apply Z.pow_pos_nonneg; lia).
  set (M := Z.to_pos (Zpos q * 2 ^ s)).
  assert (HM : Zpos M = (Zpos q * 2 ^ s)%Z) by (unfold M; rewrite Z2Pos.id; nia).
  assert (HdM : Zpos (digits2_pos M) = (k + s)%Z)
    by (unfold M; apply digits2_shift; lia).
  unfold binary_round. rewrite HdM.
  assert (Ef : fexp prec emax (k + s + - s) = (k - 53)%Z).
  { unfold fexp, emin. change prec with 53%Z. change emax with 1024%Z. lia. }
  rewrite Ef.
  pose proof (shl_align_value M (- s) (k - 53)) as Hsh.
  destruct (shl_align M (- s) (k - 53)) as [mz ez]. destruct Hsh as [Hez Hmz].
  unfold SF_of_pos. fold k.
  destruct (Z.le_gt_cases (k - 53) (- s)) as [Hc|Hc].
  - (* the mantissa is shifted to the left, or left as it is *)
    assert (Eez : Z.min (- s) (k - 53) = (k - 53)%Z) by lia.
    rewrite Eez in Hez. subst ez.
    assert (Emz : Zpos mz = (Zpos q * 2 ^ (53 - k))%Z).
    { rewrite Hmz, HM. rewrite <- Z.mul_assoc, <- Z.pow_add_r by lia.
      f_equal. f_equal. lia. }
    rewrite round_aux_canonical.
    + f_equal. rewrite <- Emz. now rewrite Pos2Z.id.
    + replace mz with (Z.to_pos (Zpos q * 2 ^ (53 - k)))
        by (rewrite <- Emz; apply Pos2Z.id).
      rewrite digits2_shift by lia. fold k. lia.
    + lia.
  - (* the mantissa is shifted to the right: only zeros fall off *)
    assert (Eez : Z.min (- s) (k - 53) = (- s)%Z) by lia.
    rewrite Eez in Hez. subst ez.
    assert (Emz : mz = M).
    { apply Pos2Z.inj. rewrite Hmz. replace (- s - - s)%Z with 0%Z by lia.
      simpl. lia. }
    subst mz.
    unfold binary_round_aux, shr_fexp. cbn [Zdigits2 shr_record_of_loc].
    rewrite HdM, Ef.
    destruct (k - 53 - - s)%Z as [|t|t] eqn:Et; try lia.
    cbn [shr].
    set (m' := Z.to_pos (Zpos q * 2 ^ (53 - k))).
    assert (Hm' : Zpos m' = (Zpos q * 2 ^ (53 - k))%Z).
    { unfold m'. rewrite Z2Pos.id; [reflexivity|].
      assert (0 < 2 ^ (53 - k))%Z by (apply Z.pow_pos_nonneg; lia). nia. }
    assert (EM : Zpos M = (Zpos m' * 2 ^ Zpos t)%Z).
    { rewrite HM, Hm'. rewrite <- Z.mul_assoc, <- Z.pow_add_r by lia.
      f_equal. f_equal. lia. }
    rewrite EM, shr_exact.
    cbn [shr_m loc_of_shr_record round_nearest_even Zdigits2 shr_record_of_loc].
    assert (Hd' : Zpos (digits2_pos m') = 53%Z).
    { unfold m'. rewrite digits2_shift by lia. fold k. lia. }
    rewrite Hd'.
    assert (E0 : (fexp prec emax (53 + (- s + Zpos t)) - (- s + Zpos t) = 0)%Z).
    { unfold fexp, emin. change prec with 53%Z. change emax with 1024%Z. lia. }
    rewrite E0. cbn [shr shr_m].
    change (emax - prec)%Z with 971%Z.
    destruct (Z.leb_spec (- s + Zpos t) 971); [|lia].
    f_equal. lia.
Qed.

Lemma SF_of_float_of_Z z :
  (0 <= z < 2 ^ 53)%Z -> Prim2SF (float_of_Z z) = SF_of_Z z.
Proof.
  intros Hz. unfold float_of_Z. rewrite of_uint63_spec.
  rewrite Uint63.of_Z_spec.
  rewrite Z.mod_small.
  2:{ split; [lia|]. apply Z.lt_trans with (2 ^ 53)%Z; [lia|]. reflexivity. }
  destruct z as [|p|p]; try lia; [reflexivity|].
  unfold binary_normalize, SF_of_Z.
  pose proof (round_exact p 0 ltac:(lia) ltac:(lia)) as H.
  simpl Z.opp in H. rewrite Z.pow_0_r, Z.mul_1_r, Pos2Z.id in H. exact H.
Qed.

Lemma SF_one : Prim2SF 1 = S754_finite false 4503599627370496 (-52).
Proof. reflexivity. Qed.

Lemma SFadd_one z :
  (0 <= z)%Z -> (z + 1 < 2 ^ 53)%Z ->
  SF64add (SF_of_Z z) (S754_finite false 4503599627370496 (-52)) = SF_of_Z (z + 1).
Proof.
  intros H0 H1. destruct z as [|p|p]; try lia; [reflexivity|].
  replace (Zpos p + 1)%Z with (Zpos (p + 1)) by lia.
  unfold SF_of_Z, SF_of_pos at 1.
  pose proof (digits2_bounds p) as [Hk1 Hk2].
  set (k := Zpos (digits2_pos p)) in *.
  assert (Hk : (1 <= k <= 53)%Z).
  { split; [unfold k; lia|].
    destruct (Z.le_gt_cases k 53) as [H|H]; [exact H|].
    assert (2 ^ 53 <= 2 ^ (k - 1))%Z by (apply Z.pow_le_mono_r; lia). lia. }
  set (ma := Z.to_pos (Zpos p * 2 ^ (53 - k))).
  assert (Hma : Zpos ma = (Zpos p * 2 ^ (53 - k))%Z).
  { unfold ma. rewrite Z2Pos.id; [reflexivity|].
    assert (0 < 2 ^ (53 - k))%Z by (apply Z.pow_pos_nonneg; lia). nia. }
  unfold SF64add, SFadd.
  assert (Emin : Z.min (k - 53) (-52) = (-52)%Z) by lia.
  rewrite Emin.
  pose proof (shl_align_value ma (k - 53) (-52)) as Ha.
  destruct (shl_align ma (k - 53) (-52)) as [xa ea]. destruct Ha as [Hea Ha].
  rewrite Emin in Hea. subst ea.
  change (shl_align 4503599627370496 (-52) (-52)) with (4503599627370496%positive, (-52)%Z).
  cbn [fst cond_Zopp].
  assert (Esum : (Zpos xa + 4503599627370496 = Zpos (p + 1) * 2 ^ 52)%Z).
  { rewrite Ha, Hma. rewrite <- Z.mul_assoc, <- Z.pow_add_r by lia.
    replace (53 - k + (k - 53 - -52))%Z with 52%Z by lia.
    change (2 ^ 52)%Z with 4503599627370496%Z. lia. }
  rewrite Esum. unfold binary_normalize.
  destruct (Zpos (p + 1) * 2 ^ 52)%Z as [|M|M] eqn:EM; try lia.
  replace M with (Z.to_pos (Zpos (p + 1) * 2 ^ 52)) by (rewrite EM; reflexivity).
  apply (round_exact (p + 1) 52); lia.
Qed.

(** Below [2^53] adding [1.0] to the float of an integer is exact. *)
Lemma float_of_Z_succ z :
  (0 <= z)%Z -> (z + 1 < 2 ^ 53)%Z -> (float_of_Z z + 1)%float = float_of_Z (z + 1).
Proof.
  intros H0 H1. apply Prim2SF_inj.
  rewrite FloatAxioms.add_spec, !SF_of_float_of_Z, SF_one by lia.
  now apply SFadd_one.
Qed.

(** Adding the float of [0] changes nothing. *)
Lemma float_of_Z_add_0 z :
  (0 <= z < 2 ^ 53)%Z -> (float_of_Z z + float_of_Z 0)%float = float_of_Z z.
Proof.
  intros H. apply Prim2SF_inj.
  rewrite FloatAxioms.add_spec, !SF_of_float_of_Z by lia.
  destruct z as [|p|p]; try lia; reflexivity.
Qed.

(** Floats of integers below [2^53] compare as the integers do. *)
Lemma SFltb_of_Z a b :
  (0 <= a < 2 ^ 53)%Z -> (0 <= b < 2 ^ 53)%Z ->
  SFltb (SF_of_Z a) (SF_of_Z b) = (a <? b)%Z.
Proof.
  intros Ha Hb.
  destruct a as [|p|p], b as [|q|q]; try lia; try reflexivity.
  unfold SF_of_Z, SF_of_pos, SFltb, SFcompare.
  pose proof (digits2_bounds p) as [Hp1 Hp2].
  pose proof (digits2_bounds q) as [Hq1 Hq2].
  set (kp := Zpos (digits2_pos p)) in *.
  set (kq := Zpos (digits2_pos q)) in *.
  assert (Hkp : (1 <= kp <= 53)%Z).
  { split; [unfold kp; lia|].
    destruct (Z.le_gt_cases kp 53) as [H|H]; [exact H|].
    assert (2 ^ 53 <= 2 ^ (kp - 1))%Z by (apply Z.pow_le_mono_r; lia). lia. }
  assert (Hkq : (1 <= kq <= 53)%Z).
  { split; [unfold kq; lia|].
    destruct (Z.le_gt_cases kq 53) as [H|H]; [exact H|].
    assert (2 ^ 53 <= 2 ^ (kq - 1))%Z by (apply Z.pow_le_mono_r; lia). lia. }
  assert (H2p : (0 < 2 ^ (53 - kp))%Z) by (apply Z.pow_pos_nonneg; lia).
  assert (H2q : (0 < 2 ^ (53 - kq))%Z) by (apply Z.pow_pos_nonneg; lia).
  set (mp := Z.to_pos (Zpos p * 2 ^ (53 - kp))).
  set (mq := Z.to_pos (Zpos q * 2 ^ (53 - kq))).
  assert (Hmp : Zpos mp = (Zpos p * 2 ^ (53 - kp))%Z) by (unfold mp; rewrite Z2Pos.id; nia).
  assert (Hmq : Zpos mq = (Zpos q * 2 ^ (53 - kq))%Z) by (unfold mq; rewrite Z2Pos.id; nia).
  destruct (Z.compare_spec (kp - 53) (kq - 53)) as [E|E|E].
  - assert (Ek : kp = kq) by lia.
    rewrite Pos.compare_cont_spec.
    replace (Pos.switch_Eq Eq (mp ?= mq)%positive) with (Zpos mp ?= Zpos mq)%Z
      by (simpl; now destruct (mp ?= mq)%positive).
    rewrite Hmp, Hmq, Ek.
    unfold Z.ltb.
    destruct (Z.compare_spec (Zpos p * 2 ^ (53 - kq)) (Zpos q * 2 ^ (53 - kq)));
      destruct (Z.compare_spec (Zpos p) (Zpos q)); try reflexivity; nia.
  - assert (Zpos p < Zpos q)%Z.
    { assert (2 ^ kp <= 2 ^ (kq - 1))%Z by (apply Z.pow_le_mono_r; lia). lia. }
    symmetry. apply Z.ltb_lt. assumption.
  - assert (Zpos q < Zpos p)%Z.
    { assert (2 ^ kq <= 2 ^ (kp - 1))%Z by (apply Z.pow_le_mono_r; lia). lia. }
    symmetry. apply Z.ltb_ge. lia.
Qed.

Lemma float_of_Z_ltb a b :
  (0 <= a < 2 ^ 53)%Z -> (0 <= b < 2 ^ 53)%Z ->
  (float_of_Z a <? float_of_Z b)%float = (a <? b)%Z.
Proof.
  intros Ha Hb. rewrite FloatAxioms.ltb_spec, !SF_of_float_of_Z by assumption.
  now apply SFltb_of_Z.
Qed.

(* ================================================================= *)
(** ** The substitution cost *)

Lemma UPOS_eqb_eq (a b : UPOS) : UPOS_eqb a b = true <-> a = b.
Proof.
  destruct a, b; simpl; split; intros H; try reflexivity; discriminate.
Qed.

Lemma UPOS_eqb_neq (a b : UPOS) : UPOS_eqb a b = false <-> a <> b.
Proof.
  rewrite <- UPOS_eqb_eq. destruct (UPOS_eqb a b); split; congruence.
Qed.

(** The cost is always a float. *)
Lemma token_sub_cost_float lower (a b : Token) :
  exists c, _token_sub_cost lower a b = Float c /\ nonneg c.
Proof.
  unfold _token_sub_cost.
  destruct (String.eqb (text a) (text b)); [eexists; split; reflexivity|].
  destruct (String.eqb (lower (text a)) (lower (text b)));
    [eexists; split; reflexivity|].
  destruct (lemma a =? lemma b)%Z, (UPOS_eqb (pos a) (pos b));
    eexists; split; reflexivity.
Qed.

(** C2: the substitution cost of two tokens is 0.0 when their texts are
    identical; 0.1 when the texts are identical after lower-casing but not
    identical; otherwise it is 0.2, plus 0.3 when the lemmas differ, plus
    0.5 when the part-of-speech tags differ, a value between 0.2 and 1.0.
    The sums are the rounded float sums the code computes. *)
Theorem token_sub_cost_cases lower (a b : Token) :
  (text a = text b -> _token_sub_cost lower a b = Float 0.0)
  /\ (text a <> text b -> lower (text a) = lower (text b) ->
      _token_sub_cost lower a b = Float 0.1)
  /\ (lower (text a) <> lower (text b) ->
      (lemma a = lemma b -> pos a = pos b ->
       _token_sub_cost lower a b = Float 0.2)
      /\ (lemma a <> lemma b -> pos a = pos b ->
          _token_sub_cost lower a b = Float (0.2 + 0.3))
      /\ (lemma a = lemma b -> pos a <> pos b ->
          _token_sub_cost lower a b = Float (0.2 + 0.5))
      /\ (lemma a <> lemma b -> pos a <> pos b ->
          _token_sub_cost lower a b = Float (0.2 + 0.3 + 0.5))
      /\ exists c, _token_sub_cost lower a b = Float c
                   /\ (0.2 <=? c)%float = true /\ (c <=? 1.0)%float = true).
Proof.
  unfold _token_sub_cost.
  split; [|split].
  - intros H. apply String.eqb_eq in H. now rewrite H.
  - intros H1 H2. apply String.eqb_neq in H1. apply String.eqb_eq in H2.
    now rewrite H1, H2.
  - intros H.
    assert (H1 : String.eqb (text a) (text b) = false).
    { apply String.eqb_neq. intros E. apply H. now rewrite E. }
    apply String.eqb_neq in H. rewrite H1, H.
    repeat split.
    + intros Hl Hp. apply Z.eqb_eq in Hl. apply UPOS_eqb_eq in Hp.
      rewrite Hl, Hp. reflexivity.
    + intros Hl Hp. apply Z.eqb_neq in Hl. apply UPOS_eqb_eq in Hp.
      rewrite Hl, Hp. reflexivity.
    + intros Hl Hp. apply Z.eqb_eq in Hl. apply UPOS_eqb_neq in Hp.
      rewrite Hl, Hp. reflexivity.
    + intros Hl Hp. apply Z.eqb_neq in Hl. apply UPOS_eqb_neq in Hp.
      rewrite Hl, Hp. reflexivity.
    + destruct (lemma a =? lemma b)%Z, (UPOS_eqb (pos a) (pos b));
        eexists; repeat split; reflexivity.
Qed.

(** The four sums of the last case, as decimal literals. *)
Example token_sub_cost_sums :
  ((0.2 + 0.3 =? 0.5) && (0.2 + 0.5 =? 0.7) && (0.2 + 0.3 + 0.5 =? 1.0))%float = true.
Proof. reflexivity. Qed.

Lemma token_sub_cost_cases_witness :
  _token_sub_cost ascii_lower (word "goed" 2 VERB) (word "went" 7 VERB) = Float 0.5
  /\ _token_sub_cost ascii_lower (word "Hello" 1 INTJ) (word "hello" 1 INTJ) = Float 0.1
  /\ _token_sub_cost ascii_lower (word "the" 4 DET) (word "the" 4 DET) = Float 0.
Proof.
  split; [|split].
  - apply (proj1 (proj2 (proj2 (proj2
             (token_sub_cost_cases ascii_lower (word "goed" 2 VERB) (word "went" 7 VERB)))
             ltac:(discriminate)))); [discriminate | reflexivity].
  - apply (proj1 (proj2
             (token_sub_cost_cases ascii_lower (word "Hello" 1 INTJ) (word "hello" 1 INTJ))));
      [discriminate | reflexivity].
  - apply (proj1
             (token_sub_cost_cases ascii_lower (word "the" 4 DET) (word "the" 4 DET))).
    reflexivity.
Defined.

Example token_sub_cost_run_dog :
  _token_sub_cost ascii_lower (word "run" 3 VERB) (word "dog" 4 NOUN) = Float 1.0.
Proof. reflexivity. Qed.

(* ================================================================= *)
(** ** The aligner output invariant *)

(** Arithmetic on the bounds of spans. *)
Ltac span_arith :=
  unfold in_range, not_both_empty, before, s_start, s_end, t_start, t_end in *;
  simpl in *; repeat split; try reflexivity; lia.

Section AlignerInvariant.

Variables src tgt : Doc.

Lemma fold_span_step align : forall ps pt acc,
  snd (fold_left (span_step src tgt) align (ps, pt, acc))
  = acc ++ spans_from src tgt ps pt align.
Proof.
  induction align as [|[sp tp] rest IH]; intros ps pt acc; simpl.
  - now rewrite app_nil_r.
  - destruct (negb (ps + 1 =? sp)%Z || negb (pt + 1 =? tp)%Z).
    + rewrite IH. now rewrite <- app_assoc.
    + rewrite IH. reflexivity.
Qed.

Lemma StronglySorted_snoc {A} (R : A -> A -> Prop) (l : list A) (x : A) :
  StronglySorted R l -> Forall (fun y => R y x) l -> StronglySorted R (l ++ [x]).
Proof.
  induction 1 as [|y l Hl IH Hy]; intros Hx; simpl.
  - repeat constructor.
  - inversion Hx; subst. constructor.
    + now apply IH.
    + apply Forall_app. split; [assumption | now constructor].
Qed.

(** The backtrace appends points that go down on both coordinates. *)
Lemma backtrace_sorted lev_mat (M N : Z) fuel : forall row col align,
  (Z.of_nat row <= M)%Z -> (Z.of_nat col <= N)%Z ->
  StronglySorted lt2 (rev align) ->
  Forall (fun p => (Z.of_nat row <= fst p < M)%Z /\ (Z.of_nat col <= snd p < N)%Z) align ->
  let out := backtrace lev_mat fuel row col align in
  StronglySorted lt2 (rev out)
  /\ Forall (fun p => (0 <= fst p < M)%Z /\ (0 <= snd p < N)%Z) out.
Proof.
  induction fuel as [|fuel IH]; intros row col align Hr Hc Hs Hb; simpl.
  - split; [assumption|]. eapply Forall_impl; [|exact Hb]. simpl. intros p; lia.
  - destruct (row * col =? 0)%nat eqn:E0.
    { split; [assumption|]. eapply Forall_impl; [|exact Hb]. simpl. intros p; lia. }
    apply Nat.eqb_neq in E0.
    assert (1 <= row /\ 1 <= col)%nat as [Hr1 Hc1] by nia.
    destruct (ltb _ _).
    { apply IH; try lia; try assumption.
      eapply Forall_impl; [|exact Hb]. simpl. intros p; lia. }
    destruct (ltb _ _).
    { apply IH; try lia; try assumption.
      eapply Forall_impl; [|exact Hb]. simpl. intros p; lia. }
    destruct (eqb _ _).
    + apply IH; try lia.
      * rewrite rev_unit. constructor; [assumption|].
        apply Forall_rev. eapply Forall_impl; [|exact Hb].
        unfold lt2; simpl. intros p; lia.
      * apply Forall_app. split.
        -- eapply Forall_impl; [|exact Hb]. simpl. intros p; lia.
        -- constructor; [simpl; lia | constructor].
    + apply IH; try lia; try assumption.
      eapply Forall_impl; [|exact Hb]. simpl. intros p; lia.
Qed.

(** [row + col] turns are enough: more fuel changes nothing. *)
Lemma backtrace_fuel_enough lev_mat fuel1 : forall fuel2 row col align,
  (row + col <= fuel1)%nat -> (row + col <= fuel2)%nat ->
  backtrace lev_mat fuel1 row col align = backtrace lev_mat fuel2 row col align.
Proof.
  induction fuel1 as [|fuel1 IH]; intros fuel2 row col align H1 H2.
  - assert (row = 0 /\ col = 0)%nat as [-> ->] by lia.
    destruct fuel2; reflexivity.
  - destruct fuel2 as [|fuel2].
    + assert (row = 0 /\ col = 0)%nat as [-> ->] by lia. reflexivity.
    + simpl. destruct (row * col =? 0)%nat eqn:E0; [reflexivity|].
      apply Nat.eqb_neq in E0.
      assert (1 <= row /\ 1 <= col)%nat as [Hr1 Hc1] by nia.
      destruct (ltb _ _); [apply IH; lia|].
      destruct (ltb _ _); [apply IH; lia|].
      apply IH; lia.
Qed.

Lemma alignment_sorted lower :
  let M := doc_len src in
  let N := doc_len tgt in
  exists l, alignment lower src tgt = l ++ [(M, N)]
            /\ StronglySorted lt2 (l ++ [(M, N)])
            /\ Forall (fun p => (0 <= fst p < M)%Z /\ (0 <= snd p < N)%Z) l.
Proof.
  intros M N. unfold alignment.
  set (mat := levenshtein_matrix _ _ _).
  set (row := List.length (doc_tokens src)).
  set (col := List.length (doc_tokens tgt)).
  destruct (backtrace_sorted mat M N (row + col) row col [])
    as [Hs Hb]; try (unfold M, N, doc_len; fold row; fold col; lia);
    try constructor.
  exists (rev (backtrace mat (row + col) row col [])).
  split; [reflexivity|]. split.
  - apply StronglySorted_snoc; [assumption|].
    apply Forall_rev. eapply Forall_impl; [|exact Hb].
    unfold lt2; simpl. intros p; lia.
  - now apply Forall_rev.
Qed.

(** The spans read off an increasing list of points that ends at [(M, N)]. *)
Lemma spans_from_ok (M N : Z) :
  doc_len src = M -> doc_len tgt = N ->
  forall l ps pt a b,
  StronglySorted lt2 ((ps, pt) :: l ++ [(M, N)]) ->
  (0 <= a <= ps + 1)%Z -> (0 <= b)%Z -> (ps + 1 - a = pt + 1 - b)%Z ->
  let new := spans_from src tgt ps pt (l ++ [(M, N)]) in
  tiles a b new M N
  /\ Forall (in_range src tgt) new
  /\ Forall not_both_empty new
  /\ Forall (fun e => (ps + 1 <= s_start e)%Z /\ (pt + 1 <= t_start e)%Z) new
  /\ StronglySorted before new.
Proof.
  intros HM HN. subst M N.
  induction l as [|[sp tp] l IH]; intros ps pt a b Hs Ha Hb Hab; simpl.
  - inversion Hs as [|? ? _ Hlt]; subst. inversion Hlt as [|? ? [H1 H2] _]; subst.
    simpl in H1, H2.
    destruct (negb (ps + 1 =? doc_len src)%Z || negb (pt + 1 =? doc_len tgt)%Z) eqn:E; simpl.
    + apply orb_true_iff in E.
      rewrite !negb_true_iff, !Z.eqb_neq in E.
      split; [|split; [|split; [|split]]].
      * span_arith.
      * constructor; [span_arith | constructor].
      * constructor; [span_arith | constructor].
      * constructor; [span_arith | constructor].
      * constructor; constructor.
    + apply orb_false_iff in E.
      rewrite !negb_false_iff, !Z.eqb_eq in E.
      split; [|split; [|split; [|split]]]; try constructor; lia.
  - inversion Hs as [|? ? Hs' Hlt]; subst.
    inversion Hlt as [|? ? [H1 H2] Hlt']; subst. simpl in H1, H2.
    assert (Hle : (sp < doc_len src)%Z /\ (tp < doc_len tgt)%Z).
    { inversion Hs' as [|? ? _ Hl2]; subst.
      apply Forall_app in Hl2. destruct Hl2 as [_ Hl2].
      inversion Hl2 as [|? ? [H3 H4] _]; subst. simpl in H3, H4. lia. }
    destruct (negb (ps + 1 =? sp)%Z || negb (pt + 1 =? tp)%Z) eqn:E; simpl.
    + apply orb_true_iff in E.
      rewrite !negb_true_iff, !Z.eqb_neq in E.
      destruct (IH sp tp sp tp Hs') as (Ht & Hr & Hn & Hf & Hso); try lia.
      split; [|split; [|split; [|split]]].
      * repeat split; try assumption; span_arith.
      * constructor; [span_arith | assumption].
      * constructor; [span_arith | assumption].
      * constructor; [span_arith|].
        eapply Forall_impl; [|exact Hf]. simpl. intros e; lia.
      * constructor; [assumption|].
        eapply Forall_impl; [|exact Hf]. intros e. span_arith.
    + apply orb_false_iff in E.
      rewrite !negb_false_iff, !Z.eqb_eq in E.
      destruct (IH sp tp a b Hs') as (Ht & Hr & Hn & Hf & Hso); try lia.
      split; [|split; [|split; [|split]]]; try assumption.
      eapply Forall_impl; [|exact Hf]. simpl. intros e; lia.
Qed.

End AlignerInvariant.

(** C1: for every pair of token sequences, the spans [get_edit_spans]
    returns are index ranges of the two documents, none with both ranges
    empty; they are strictly increasing and non-overlapping on both sides;
    and the spans together with the matched regions between them cover
    [0..len(S)] and [0..len(T)] exactly. *)
Theorem get_edit_spans_invariant lower (src tgt : Doc) :
  aligner_invariant src tgt (get_edit_spans lower src tgt).
Proof.
  unfold get_edit_spans. rewrite fold_span_step. simpl.
  destruct (alignment_sorted src tgt lower) as (l & -> & Hs & Hb).
  destruct (spans_from_ok src tgt (doc_len src) (doc_len tgt) eq_refl eq_refl
              l (-1)%Z (-1)%Z 0%Z 0%Z) as (Ht & Hr & Hn & _ & Hso); try lia.
  - constructor; [assumption|].
    apply Forall_app. split.
    + eapply Forall_impl; [|exact Hb]. unfold lt2; simpl. intros p; lia.
    + constructor; [|constructor]. unfold lt2, doc_len; simpl. lia.
  - unfold aligner_invariant. auto.
Qed.

(* ================================================================= *)
(** ** The Levenshtein matrix: its rows and its recurrence *)

Section MatrixFacts.

Context {T : Type}.
Variable compare_func : T -> T -> num.

Lemma combine_seq_snoc (xs : list T) (x : T) : forall base,
  combine (seq base (List.length (xs ++ [x]))) (xs ++ [x])
  = combine (seq base (List.length xs)) xs ++ [((base + List.length xs)%nat, x)].
Proof.
  induction xs as [|y xs IH]; intros base; simpl.
  - now rewrite Nat.add_0_r.
  - rewrite IH. now rewrite Nat.add_succ_r.
Qed.

Lemma enumerate_snoc (xs : list T) (x : T) :
  enumerate (xs ++ [x]) = enumerate xs ++ [(List.length xs, x)].
Proof. unfold enumerate. now rewrite combine_seq_snoc. Qed.

Lemma next_row_snoc ys y i c1 previous_row :
  next_row compare_func (ys ++ [y]) i c1 previous_row
  = row_step compare_func c1 previous_row
             (next_row compare_func ys i c1 previous_row) (List.length ys, y).
Proof.
  unfold next_row. now rewrite enumerate_snoc, fold_left_app.
Qed.

Lemma next_row_length ys i c1 previous_row :
  List.length (next_row compare_func ys i c1 previous_row) = S (List.length ys).
Proof.
  induction ys as [|y ys IH] using rev_ind; [reflexivity|].
  rewrite next_row_snoc. unfold row_step.
  rewrite !length_app, IH. simpl. lia.
Qed.

Lemma next_row_prefix ys zs i c1 previous_row :
  exists tail,
    next_row compare_func (ys ++ zs) i c1 previous_row
    = next_row compare_func ys i c1 previous_row ++ tail.
Proof.
  induction zs as [|z zs [tail IH]] using rev_ind.
  - exists []. now rewrite !app_nil_r.
  - rewrite app_assoc, next_row_snoc. unfold row_step. rewrite IH.
    eexists. now rewrite <- app_assoc.
Qed.

Lemma next_row_cell_0 ys i c1 previous_row :
  cell (next_row compare_func ys i c1 previous_row) 0 = Int (Z.of_nat i + 1).
Proof.
  destruct (next_row_prefix [] ys i c1 previous_row) as [tail E].
  simpl in E. now rewrite E.
Qed.

(** The recurrence of a cell past the first column. *)
Lemma next_row_cell_S ys i c1 previous_row j y :
  nth_error ys j = Some y ->
  cell (next_row compare_func ys i c1 previous_row) (S j)
  = min3 (add (cell previous_row (j + 1)) (Float 1.0))
         (add (cell (next_row compare_func ys i c1 previous_row) j) (Float 1.0))
         (add (cell previous_row j) (compare_func c1 y)).
Proof.
  intros H. apply nth_error_split in H. destruct H as (l1 & l2 & -> & Hl).
  change (l1 ++ y :: l2) with (l1 ++ [y] ++ l2). rewrite app_assoc.
  destruct (next_row_prefix (l1 ++ [y]) l2 i c1 previous_row) as [tail ->].
  rewrite next_row_snoc. unfold row_step, cell. rewrite Hl.
  pose proof (next_row_length l1 i c1 previous_row) as HL. rewrite Hl in HL.
  rewrite <- app_assoc.
  rewrite (app_nth2 _ _ _ (n := S j)) by lia.
  rewrite HL, Nat.sub_diag. simpl.
  rewrite (app_nth1 _ _ _ (n := j)) by lia. reflexivity.
Qed.

Lemma mat_state_snoc xs x ys :
  mat_state compare_func (xs ++ [x]) ys
  = mat_step compare_func ys (mat_state compare_func xs ys) (List.length xs, x).
Proof.
  unfold mat_state. now rewrite enumerate_snoc, fold_left_app.
Qed.

Lemma mat_state_inv xs ys :
  List.length (snd (mat_state compare_func xs ys)) = S (List.length xs)
  /\ fst (mat_state compare_func xs ys) = nth (List.length xs) (snd (mat_state compare_func xs ys)) [].
Proof.
  induction xs as [|x xs [IH1 IH2]] using rev_ind; [split; reflexivity|].
  rewrite mat_state_snoc. destruct (mat_state compare_func xs ys) as [prev mat].
  simpl in *. rewrite !length_app. simpl. split; [lia|].
  rewrite app_nth2 by lia. replace (_ - _)%nat with 0%nat by lia. reflexivity.
Qed.

Lemma mat_state_prefix xs zs ys :
  exists tail, snd (mat_state compare_func (xs ++ zs) ys) = snd (mat_state compare_func xs ys) ++ tail.
Proof.
  induction zs as [|z zs [tail IH]] using rev_ind.
  - exists []. now rewrite !app_nil_r.
  - rewrite app_assoc, mat_state_snoc.
    destruct (mat_state compare_func (xs ++ zs) ys) as [prev mat]. simpl in *.
    rewrite IH. eexists. now rewrite <- app_assoc.
Qed.

Lemma matrix_length xs ys :
  List.length (levenshtein_matrix compare_func xs ys) = S (List.length xs).
Proof. apply mat_state_inv. Qed.

Lemma matrix_row_0 xs ys :
  nth 0 (levenshtein_matrix compare_func xs ys) [] = first_row ys.
Proof.
  destruct (mat_state_prefix [] xs ys) as [tail E].
  unfold levenshtein_matrix. fold (mat_state compare_func xs ys).
  simpl in E. now rewrite E.
Qed.

Lemma matrix_row_S xs ys i x :
  nth_error xs i = Some x ->
  nth (S i) (levenshtein_matrix compare_func xs ys) []
  = next_row compare_func ys i x
             (nth i (levenshtein_matrix compare_func xs ys) []).
Proof.
  intros H. apply nth_error_split in H. destruct H as (l1 & l2 & -> & Hl).
  unfold levenshtein_matrix. fold (mat_state compare_func (l1 ++ x :: l2) ys).
  change (l1 ++ x :: l2) with (l1 ++ [x] ++ l2). rewrite app_assoc.
  destruct (mat_state_prefix (l1 ++ [x]) l2 ys) as [tail ->].
  rewrite mat_state_snoc.
  destruct (mat_state_inv l1 ys) as [HL Hp].
  destruct (mat_state compare_func l1 ys) as [prev mat]. simpl in *.
  rewrite Hl in *. rewrite <- app_assoc.
  rewrite (app_nth2 _ _ _ (n := S i)) by lia.
  rewrite HL, Nat.sub_diag. simpl.
  rewrite (app_nth1 _ _ _ (n := i)) by lia. now rewrite Hp.
Qed.

(** The matrix is the one of the recurrence:
    [D[0][j] = j], [D[i][0] = i] and
    [D[i][j] = min(D[i-1][j] + 1, D[i][j-1] + 1, D[i-1][j-1] + cost)]. *)
Lemma matrix_cell_0_j xs ys j :
  (j <= List.length ys)%nat ->
  at_ (levenshtein_matrix compare_func xs ys) 0 j
  = Float (float_of_Z (Z.of_nat j)).
Proof.
  intros H. unfold at_, cell. rewrite matrix_row_0. unfold first_row.
  rewrite (nth_indep _ _ (Float (float_of_Z (Z.of_nat 0))))
    by (rewrite length_map, length_seq; lia).
  rewrite (map_nth (fun c => Float (float_of_Z (Z.of_nat c)))).
  rewrite seq_nth by lia. reflexivity.
Qed.

Lemma matrix_cell_i_0 xs ys i x :
  nth_error xs i = Some x ->
  at_ (levenshtein_matrix compare_func xs ys) (S i) 0 = Int (Z.of_nat i + 1).
Proof.
  intros H. unfold at_. rewrite (matrix_row_S xs ys i x H).
  apply next_row_cell_0.
Qed.

Lemma matrix_cell_S_S xs ys i j x y :
  nth_error xs i = Some x -> nth_error ys j = Some y ->
  let D := at_ (levenshtein_matrix compare_func xs ys) in
  D (S i) (S j)
  = min3 (add (D i (j + 1)%nat) (Float 1.0))
         (add (D (S i) j) (Float 1.0))
         (add (D i j) (compare_func x y)).
Proof.
  intros Hx Hy D. unfold D, at_. rewrite (matrix_row_S xs ys i x Hx).
  now apply next_row_cell_S.
Qed.

End MatrixFacts.

(* ================================================================= *)
(** ** Aligning a sequence with itself *)

Lemma add_float_r (x : num) (f : float) :
  add x (Float f) = Float (to_float x + f).
Proof. destruct x; reflexivity. Qed.

Lemma ltb_float_r (x : num) (f : float) :
  ltb x (Float f) = PrimFloat.ltb (to_float x) f.
Proof. destruct x; reflexivity. Qed.

Lemma eqb_float_r (x : num) (f : float) :
  eqb x (Float f) = PrimFloat.eqb (to_float x) f.
Proof. destruct x; reflexivity. Qed.

Lemma num_zero_nonneg x : num_zero x -> num_nonneg x.
Proof. intros (f & -> & H). now apply is_zero_nonneg. Qed.

Lemma add_float_nonneg (x : num) (f : float) :
  num_nonneg x -> nonneg f -> num_nonneg (add x (Float f)).
Proof. intros Hx Hf. rewrite add_float_r. now apply add_nonneg. Qed.

Lemma min3_nonneg a b c :
  num_nonneg a -> num_nonneg b -> num_nonneg c -> num_nonneg (min3 a b c).
Proof.
  intros Ha Hb Hc. unfold min3.
  destruct (ltb b a); destruct (ltb c _); assumption.
Qed.

(** The smallest of two non-negative floats and a zero is a zero. *)
Lemma min3_zero a b c :
  nonneg a -> nonneg b -> is_zero c ->
  num_zero (min3 (Float a) (Float b) (Float c)).
Proof.
  intros Ha Hb Hc. unfold min3.
  assert (Hr : exists r, (if ltb (Float b) (Float a) then Float b else Float a)
                         = Float r /\ nonneg r).
  { destruct (ltb (Float b) (Float a)); eexists; split; eauto. }
  destruct Hr as (r & -> & Hr). rewrite ltb_float_r. simpl.
  destruct (PrimFloat.ltb c r) eqn:E.
  - now exists c.
  - exists r. split; [reflexivity|]. now apply (zero_not_lt_is_zero c r).
Qed.

Lemma float_of_Z_nonneg z : nonneg (float_of_Z z).
Proof. apply of_uint63_nonneg. Qed.

Section SelfAlignment.

Variable lower : string -> string.
Variables ss ts : list Token.

(** The two sequences have the same texts, position by position. *)
Hypothesis same_texts : map text ss = map text ts.

Let D := at_ (levenshtein_matrix (_token_sub_cost lower) ss ts).
Let m := List.length ss.

Lemma same_length : List.length ts = m.
Proof.
  unfold m. rewrite <- (length_map text ts), <- same_texts. apply length_map.
Qed.

Lemma same_text_at i s t :
  nth_error ss i = Some s -> nth_error ts i = Some t -> text s = text t.
Proof.
  intros Hs Ht.
  pose proof (map_nth_error text i ss Hs) as H1.
  pose proof (map_nth_error text i ts Ht) as H2.
  rewrite same_texts in H1. congruence.
Qed.

Lemma token_at (l : list Token) i :
  (i < List.length l)%nat -> exists t, nth_error l i = Some t.
Proof.
  intros H. destruct (nth_error l i) eqn:E; [eauto|].
  apply nth_error_None in E. lia.
Qed.

(** Every cell of the matrix is a non-negative number. *)
Lemma cells_nonneg i : (i <= m)%nat ->
  forall j, (j <= m)%nat -> num_nonneg (D i j).
Proof.
  induction i as [|i IHi]; intros Hi j Hj.
  - unfold D. rewrite matrix_cell_0_j by (rewrite same_length; lia).
    apply float_of_Z_nonneg.
  - destruct (token_at ss i ltac:(fold m; lia)) as [s Hs].
    induction j as [|j IHj].
    + unfold D. rewrite (matrix_cell_i_0 _ ss ts i s Hs). apply float_of_Z_nonneg.
    + destruct (token_at ts j ltac:(rewrite same_length; lia)) as [t Ht].
      unfold D. rewrite (matrix_cell_S_S _ ss ts i j s t Hs Ht). fold D.
      destruct (token_sub_cost_float lower s t) as (c & -> & Hc).
      apply min3_nonneg.
      * apply add_float_nonneg; [apply IHi; lia | reflexivity].
      * apply add_float_nonneg; [apply IHj; lia | reflexivity].
      * apply add_float_nonneg; [apply IHi; lia | exact Hc].
Qed.

(** Every cell of the diagonal is a zero. *)
Lemma diagonal_zero i : (i <= m)%nat -> num_zero (D i i).
Proof.
  induction i as [|i IH]; intros Hi.
  - unfold D. rewrite matrix_cell_0_j by lia. exists 0%float. split; reflexivity.
  - destruct (token_at ss i ltac:(fold m; lia)) as [s Hs].
    destruct (token_at ts i ltac:(rewrite same_length; lia)) as [t Ht].
    unfold D. rewrite (matrix_cell_S_S _ ss ts i i s t Hs Ht). fold D.
    assert (Hcost : _token_sub_cost lower s t = Float 0).
    { unfold _token_sub_cost. rewrite (same_text_at i s t Hs Ht).
      now rewrite String.eqb_refl. }
    rewrite Hcost, !add_float_r.
    apply min3_zero.
    + apply add_nonneg; [apply cells_nonneg; lia | reflexivity].
    + apply add_nonneg; [apply cells_nonneg; lia | reflexivity].
    + destruct (IH ltac:(lia)) as (z & -> & Hz). now apply add_zero_r.
Qed.

(** From a cell of the diagonal the backtrace goes down the diagonal and
    records every point of it. *)
Lemma backtrace_diagonal k : forall fuel align,
  (k <= m)%nat -> (k <= fuel)%nat ->
  backtrace (levenshtein_matrix (_token_sub_cost lower) ss ts) fuel k k align
  = align ++ rev (map diag (seq 0 k)).
Proof.
  induction k as [|k IH]; intros fuel align Hk Hf.
  - destruct fuel; simpl; now rewrite app_nil_r.
  - destruct fuel as [|fuel]; [lia|].
    cbn [backtrace]. fold D.
    replace (S k * S k =? 0)%nat with false by (symmetry; apply Nat.eqb_neq; lia).
    replace (S k - 1)%nat with k by lia.
    replace (k + 1)%nat with (S k) by lia.
    destruct (diagonal_zero (S k) Hk) as (z & Ez & Hz).
    destruct (diagonal_zero k ltac:(lia)) as (z' & Ez' & Hz').
    rewrite Ez, !ltb_float_r, eqb_float_r.
    rewrite (nonneg_not_lt_zero _ z (cells_nonneg k ltac:(lia) (S k) Hk) Hz).
    rewrite (nonneg_not_lt_zero _ z (cells_nonneg (S k) Hk k ltac:(lia)) Hz).
    rewrite Ez'. simpl to_float. rewrite (zero_eqb z' z Hz' Hz).
    rewrite IH by lia.
    rewrite seq_S, map_app, rev_app_distr. simpl.
    now rewrite <- app_assoc.
Qed.

End SelfAlignment.

(** Along the diagonal no position is skipped, so no span is made. *)
Lemma spans_from_diagonal (src tgt : Doc) n : forall k,
  spans_from src tgt (Z.of_nat k - 1) (Z.of_nat k - 1) (map diag (seq k n)) = [].
Proof.
  induction n as [|n IH]; intros k; simpl; [reflexivity|].
  replace (Z.of_nat k - 1 + 1 =? Z.of_nat k)%Z with true
    by (symmetry; apply Z.eqb_eq; lia).
  simpl. replace (Z.of_nat k) with (Z.of_nat (S k) - 1)%Z at 1 2 by lia.
  apply IH.
Qed.

(** Two documents with the same texts, position by position, have no
    edit span between them. *)
Lemma get_edit_spans_same_texts lower (src tgt : Doc) :
  map text (doc_tokens src) = map text (doc_tokens tgt) ->
  get_edit_spans lower src tgt = [].
Proof.
  intros H. unfold get_edit_spans. rewrite fold_span_step. simpl.
  unfold alignment.
  rewrite (same_length (doc_tokens src) (doc_tokens tgt) H).
  rewrite (backtrace_diagonal lower _ _ H) by lia.
  simpl. rewrite rev_involutive.
  change (Z.of_nat (List.length (doc_tokens src)), Z.of_nat (List.length (doc_tokens src)))
    with (diag (List.length (doc_tokens src))).
  change [diag (List.length (doc_tokens src))]
    with (map diag [List.length (doc_tokens src)]).
  rewrite <- map_app, <- seq_S.
  apply (spans_from_diagonal src tgt _ 0).
Qed.

(** C7: aligning a token sequence with itself gives no edit span. *)
Theorem get_edit_spans_self lower (source_tokens : Doc) :
  get_edit_spans lower source_tokens source_tokens = [].
Proof.
  now apply get_edit_spans_same_texts.
Qed.

Example get_edit_spans_self_sentence :
  get_edit_spans ascii_lower
    (doc_of [word "I" 1 PRON; word "went" 7 VERB; word "went" 7 VERB])
    (doc_of [word "I" 1 PRON; word "went" 7 VERB; word "went" 7 VERB]) = [].
Proof. reflexivity. Qed.


(* ================================================================= *)
(** ** The rule cascade: what the rules return *)

Lemma classify_single_span_cascade lower self edit_span :
  classify_single_span lower self edit_span
  = run_call lower self (cascade lower edit_span).
Proof.
  unfold classify_single_span, cascade.
  destruct (_is_orth_error _ _ _); [reflexivity|].
  destruct (_is_wo_error _ _ _); [reflexivity|].
  destruct (_is_punct_error _ _ _); [reflexivity|].
  destruct (_is_orth_error _ _ _); [reflexivity|].
  destruct (get_regular_tokens _) as [|s [|s' ss]];
    destruct (get_regular_tokens _) as [|t [|t' ts]]; reflexivity.
Qed.

Lemma whole_tokens tokens : span_tokens (whole tokens) = tokens.
Proof.
  unfold span_tokens, whole; simpl.
  rewrite Z.sub_0_r, Nat2Z.id. apply firstn_all.
Qed.

Lemma pos_name_in (p : UPOS) : In (UPOS_name p) pos_names.
Proof. destruct p; simpl; tauto. Qed.

Lemma pos_set_hd tokens :
  In (hd "" (pos_set_of tokens)) pos_names.
Proof.
  unfold pos_set_of.
  destruct (nodup string_dec (map pos_ tokens)) as [|x l] eqn:E; simpl.
  - apply (pos_name_in NO_TAG).
  - assert (H : In x (map pos_ tokens)).
    { apply (nodup_In string_dec). rewrite E. now left. }
    apply in_map_iff in H. destruct H as (t & <- & _). apply pos_name_in.
Qed.

Lemma one_sided_tag_in tokens : In (_get_one_sided_tag tokens) one_sided_tags.
Proof.
  unfold _get_one_sided_tag, one_sided_tags.
  destruct (_is_aux_span tokens); [simpl; tauto|].
  destruct (List.length _ =? 1)%nat.
  - apply in_or_app. right. apply pos_set_hd.
  - destruct (_is_verbal_span tokens); simpl; tauto.
Qed.

Lemma noun_loop_in pairs : noun_loop pairs = "NOUN:NUM" \/ noun_loop pairs = "NOUN".
Proof.
  induction pairs as [|[s t] rest IH]; simpl; [tauto|].
  destruct (negb _); tauto.
Qed.

Lemma verb_loop_in pairs :
  verb_loop pairs = "VERB:TENSE" \/ verb_loop pairs = "VERB:SVA"
  \/ verb_loop pairs = "VERB".
Proof.
  induction pairs as [|[s t] rest IH]; simpl; [tauto|].
  destruct (negb _); [tauto|]. destruct (negb _ && negb _); tauto.
Qed.

Lemma two_sided_tag_in source target :
  In (_get_two_sided_tag source target) two_sided_tags.
Proof.
  unfold _get_two_sided_tag, two_sided_tags.
  destruct (_is_aux_span source && _is_aux_span target); [simpl; tauto|].
  destruct (_is_noun_span source && _is_noun_span target).
  { destruct (noun_loop_in (_match_up_pos_tokens source target "NOUN")) as [-> | ->];
      simpl; tauto. }
  destruct (_is_verbal_span source && _is_verbal_span target).
  { destruct (verb_loop_in (_match_up_pos_tokens source target "VERB"))
      as [-> | [-> | ->]]; simpl; tauto. }
  destruct (List.length _ =? 1)%nat; [|simpl; tauto].
  destruct (String.eqb _ "AUX"); [simpl; tauto|].
  apply in_or_app. right. apply pos_set_hd.
Qed.

(** In a list of tags written out, membership is decided by comparing. *)
Ltac not_a_tag H :=
  simpl in H; repeat (destruct H as [H|H]; [discriminate H|]); exact H.

Lemma two_sided_not_spell source target :
  _get_two_sided_tag source target <> "SPELL".
Proof.
  intros E. pose proof (two_sided_tag_in source target) as H.
  rewrite E in H. not_a_tag H.
Qed.

(* ================================================================= *)
(** ** The two-sided rule *)

Lemma pos_eqb_name (t : Token) (p : UPOS) :
  String.eqb (pos_ t) (UPOS_name p) = UPOS_eqb (pos t) p.
Proof. unfold pos_. destruct (pos t), p; reflexivity. Qed.

(** Settles a comparison of [pos_ t] with a tag name by the cases of [pos t]. *)
Ltac by_pos t :=
  unfold pos_ in *; destruct (pos t); simpl in *;
  try discriminate; try reflexivity; auto; intuition discriminate.

Lemma is_aux_span_spec tokens : _is_aux_span tokens = true <-> all_aux tokens.
Proof.
  unfold _is_aux_span, _pos_is_subset, all_aux.
  rewrite forallb_forall, Forall_forall.
  split; intros H t Ht; specialize (H t Ht); by_pos t.
Qed.

Lemma is_verbal_span_spec tokens : _is_verbal_span tokens = true <-> verbal tokens.
Proof.
  unfold _is_verbal_span, _pos_is_subset, verbal.
  rewrite andb_true_iff, forallb_forall, Forall_forall, existsb_exists, Exists_exists.
  split; intros [H1 H2]; split.
  - intros t Ht. specialize (H1 t Ht). by_pos t.
  - destruct H2 as (t & Ht & E). exists t. split; [assumption|]. by_pos t.
  - intros t Ht. specialize (H1 t Ht). by_pos t.
  - destruct H2 as (t & Ht & E). exists t. split; [assumption|]. by_pos t.
Qed.

Lemma is_noun_span_spec tokens : _is_noun_span tokens = true <-> nominal tokens.
Proof.
  unfold _is_noun_span, _pos_is_subset, nominal.
  rewrite andb_true_iff, forallb_forall, Forall_forall, existsb_exists, Exists_exists.
  split; intros [H1 H2]; split.
  - intros t Ht. specialize (H1 t Ht). by_pos t.
  - destruct H2 as (t & Ht & E). exists t. split; [assumption|]. by_pos t.
  - intros t Ht. specialize (H1 t Ht). by_pos t.
  - destruct H2 as (t & Ht & E). exists t. split; [assumption|]. by_pos t.
Qed.

(** A verbal span is neither an all-AUX span nor a nominal one. *)
Lemma verbal_not_aux tokens : verbal tokens -> _is_aux_span tokens = false.
Proof.
  intros [_ H]. apply not_true_is_false. rewrite is_aux_span_spec.
  intros Ha. apply Exists_exists in H. destruct H as (t & Ht & E).
  unfold all_aux in Ha. rewrite Forall_forall in Ha.
  specialize (Ha t Ht). congruence.
Qed.

Lemma verbal_not_nominal tokens : verbal tokens -> _is_noun_span tokens = false.
Proof.
  intros [_ H]. apply not_true_is_false. rewrite is_noun_span_spec.
  intros [Hn _]. apply Exists_exists in H. destruct H as (t & Ht & E).
  rewrite Forall_forall in Hn. specialize (Hn t Ht). destruct Hn; congruence.
Qed.

Lemma nodup_const (x : string) (l : list string) :
  l <> [] -> Forall (eq x) l -> nodup string_dec l = [x].
Proof.
  induction l as [|y l IH]; [congruence|]. intros _ H.
  inversion H as [|? ? Hy H']; subst.
  destruct l as [|z l]; [reflexivity|].
  change (nodup string_dec (y :: z :: l))
    with (if in_dec string_dec y (z :: l)
          then nodup string_dec (z :: l)
          else y :: nodup string_dec (z :: l)).
  destruct (in_dec string_dec y (z :: l)) as [i|n].
  - apply IH; [discriminate | assumption].
  - exfalso. apply n. inversion H'; subst. now left.
Qed.

(** The part-of-speech set of a non-empty span with one tag. *)
Lemma pos_set_of_shared tokens (p : UPOS) :
  tokens <> [] -> Forall (fun t => pos t = p) tokens ->
  pos_set_of tokens = [UPOS_name p].
Proof.
  unfold pos_set_of. intros Hne H. apply nodup_const.
  - destruct tokens; [congruence | discriminate].
  - apply Forall_map. eapply Forall_impl; [|exact H].
    intros t Ht. unfold pos_. now rewrite Ht.
Qed.

(** C3, as the code has it: when neither both spans are verbal nor both
    are nominal and all target tokens share one part-of-speech tag, two
    spans made of AUX tokens only get VERB:TENSE; in every other case the
    tag is the shared tag of the target, with AUX mapped to VERB. *)
Theorem two_sided_shared_pos (source target : list Token) (p : UPOS) :
  source <> [] -> target <> [] ->
  ~ (verbal source /\ verbal target) ->
  ~ (nominal source /\ nominal target) ->
  Forall (fun t => pos t = p) target ->
  (all_aux source /\ all_aux target ->
   _get_two_sided_tag source target = "VERB:TENSE")
  /\ (~ (all_aux source /\ all_aux target) ->
      _get_two_sided_tag source target
      = if UPOS_eqb p AUX then "VERB" else UPOS_name p).
Proof.
  intros Hs Ht Hv Hn Hp. unfold _get_two_sided_tag. split.
  - intros [H1 H2]. apply is_aux_span_spec in H1. apply is_aux_span_spec in H2.
    now rewrite H1, H2.
  - intros Ha.
    assert (E1 : _is_aux_span source && _is_aux_span target = false).
    { apply not_true_is_false. rewrite andb_true_iff, !is_aux_span_spec. exact Ha. }
    assert (E2 : _is_noun_span source && _is_noun_span target = false).
    { apply not_true_is_false. rewrite andb_true_iff, !is_noun_span_spec. exact Hn. }
    assert (E3 : _is_verbal_span source && _is_verbal_span target = false).
    { apply not_true_is_false. rewrite andb_true_iff, !is_verbal_span_spec. exact Hv. }
    rewrite E1, E2, E3, (pos_set_of_shared target p Ht Hp). simpl.
    destruct p; reflexivity.
Qed.

(** C3 as stated fails: two spans of one AUX token each are neither both
    verbal nor both nominal, the target has the one tag AUX, and the tag
    is VERB:TENSE, not VERB. *)
Lemma two_sided_aux_counterexample :
  [tok_is] <> [] /\ [tok_was] <> []
  /\ _is_verbal_span [tok_is] && _is_verbal_span [tok_was] = false
  /\ _is_noun_span [tok_is] && _is_noun_span [tok_was] = false
  /\ Forall (fun t => pos t = AUX) [tok_was]
  /\ _get_two_sided_tag [tok_is] [tok_was] = "VERB:TENSE"
  /\ _get_two_sided_tag [tok_is] [tok_was] <> "VERB".
Proof.
  repeat split; try discriminate. repeat constructor.
Qed.

Lemma two_sided_shared_pos_witness :
  _get_two_sided_tag [tok_go] [tok_will] = "VERB"
  /\ _get_two_sided_tag [tok_is] [tok_was] = "VERB:TENSE".
Proof.
  split.
  - refine (proj2 (two_sided_shared_pos [tok_go] [tok_will] AUX _ _ _ _ _) _).
    + discriminate.
    + discriminate.
    + intros [_ H]. apply is_verbal_span_spec in H. discriminate H.
    + intros [_ H]. apply is_noun_span_spec in H. discriminate H.
    + repeat constructor.
    + intros [H _]. apply is_aux_span_spec in H. discriminate H.
  - refine (proj1 (two_sided_shared_pos [tok_is] [tok_was] AUX _ _ _ _ _) _).
    + discriminate.
    + discriminate.
    + intros [_ H]. apply is_verbal_span_spec in H. discriminate H.
    + intros [_ H]. apply is_noun_span_spec in H. discriminate H.
    + repeat constructor.
    + split; repeat constructor.
Defined.

Lemma verb_loop_app pre rest :
  forallb verb_pair_passes pre = true -> verb_loop (pre ++ rest) = verb_loop rest.
Proof.
  induction pre as [|[s t] pre IH]; simpl; [reflexivity|].
  unfold verb_pair_passes at 1; simpl. intros H.
  apply andb_true_iff in H. destruct H as [H Hp].
  apply andb_true_iff in H. destruct H as [H1 H2].
  rewrite H1. simpl. apply negb_true_iff in H2. rewrite H2. now apply IH.
Qed.

Lemma verb_loop_passes pairs :
  forallb verb_pair_passes pairs = true -> verb_loop pairs = "VERB".
Proof.
  intros H. rewrite <- (app_nil_r pairs). now rewrite verb_loop_app.
Qed.

Lemma verb_loop_tense pairs :
  verb_loop pairs = "VERB:TENSE" ->
  Exists (fun p => _morph_match (fst p) (snd p) "Tense" = false) pairs.
Proof.
  induction pairs as [|[s t] rest IH]; simpl; [discriminate|].
  destruct (_morph_match s t "Tense") eqn:E; simpl.
  - destruct (negb _ && negb _); [discriminate|].
    intros H. right. now apply IH.
  - intros _. now left.
Qed.

Lemma verb_loop_sva pairs :
  verb_loop pairs = "VERB:SVA" ->
  Exists (fun p => _morph_match (fst p) (snd p) "Number" = false
                   /\ _morph_match (fst p) (snd p) "Person" = false) pairs.
Proof.
  induction pairs as [|[s t] rest IH]; simpl; [discriminate|].
  destruct (_morph_match s t "Tense") eqn:E; simpl; [|discriminate].
  destruct (negb _ && negb _) eqn:E2.
  - intros _. left. simpl. apply andb_true_iff in E2.
    now rewrite !negb_true_iff in E2.
  - intros H. right. now apply IH.
Qed.

(** C4, as the code has it: when both spans are verbal the matched VERB
    pairs are read in order, and the first pair that differs in Tense, or
    in both Number and Person, decides: VERB:TENSE when it differs in
    Tense, VERB:SVA otherwise; VERB when no pair differs in either way.
    A Tense mismatch comes first within one pair, not across pairs. *)
Theorem two_sided_verbal (source target : list Token) :
  verbal source -> verbal target ->
  let pairs := _match_up_pos_tokens source target "VERB" in
  let tg := _get_two_sided_tag source target in
  (forall pre p post,
      pairs = pre ++ p :: post ->
      forallb verb_pair_passes pre = true ->
      verb_pair_passes p = false ->
      tg = if _morph_match (fst p) (snd p) "Tense" then "VERB:SVA" else "VERB:TENSE")
  /\ (forallb verb_pair_passes pairs = true -> tg = "VERB")
  /\ (tg = "VERB:TENSE" ->
      Exists (fun p => _morph_match (fst p) (snd p) "Tense" = false) pairs)
  /\ (tg = "VERB:SVA" ->
      Exists (fun p => _morph_match (fst p) (snd p) "Number" = false
                       /\ _morph_match (fst p) (snd p) "Person" = false) pairs)
  /\ (tg = "VERB:TENSE" \/ tg = "VERB:SVA" \/ tg = "VERB").
Proof.
  intros Hs Ht pairs tg.
  assert (E : tg = verb_loop pairs).
  { unfold tg, _get_two_sided_tag.
    rewrite (verbal_not_aux source Hs), (verbal_not_nominal source Hs). simpl.
    apply is_verbal_span_spec in Hs. apply is_verbal_span_spec in Ht.
    now rewrite Hs, Ht. }
  rewrite E. repeat split.
  - intros pre [s t] post Hp Hpre Hfail. rewrite Hp, verb_loop_app by assumption.
    simpl. unfold verb_pair_passes in Hfail; simpl in Hfail.
    destruct (_morph_match s t "Tense"); simpl in *; [|reflexivity].
    apply negb_false_iff in Hfail. now rewrite Hfail.
  - apply verb_loop_passes.
  - apply verb_loop_tense.
  - apply verb_loop_sva.
  - apply verb_loop_in.
Qed.

(** C4 as stated fails: both spans are verbal and the second matched pair
    differs in Tense, yet the first pair, which differs in Number and
    Person only, decides, and the tag is VERB:SVA. *)
Lemma verb_tense_priority_counterexample :
  _is_verbal_span [tok_walks; tok_sings] = true
  /\ _is_verbal_span [tok_walk; tok_sang] = true
  /\ _match_up_pos_tokens [tok_walks; tok_sings] [tok_walk; tok_sang] "VERB"
     = [(tok_walks, tok_walk); (tok_sings, tok_sang)]
  /\ _morph_match tok_sings tok_sang "Tense" = false
  /\ _get_two_sided_tag [tok_walks; tok_sings] [tok_walk; tok_sang] = "VERB:SVA"
  /\ _get_two_sided_tag [tok_walks; tok_sings] [tok_walk; tok_sang] <> "VERB:TENSE".
Proof.
  repeat split; discriminate.
Qed.

Lemma two_sided_verbal_witness :
  _get_two_sided_tag [tok_walks; tok_sings] [tok_walk; tok_sang] = "VERB:SVA"
  /\ _get_two_sided_tag [tok_sings; tok_walks] [tok_sang; tok_walk] = "VERB:TENSE".
Proof.
  split.
  - refine (proj1 (two_sided_verbal [tok_walks; tok_sings] [tok_walk; tok_sang] _ _)
              [] (tok_walks, tok_walk) [(tok_sings, tok_sang)] _ _ _);
      try reflexivity; apply is_verbal_span_spec; reflexivity.
  - refine (proj1 (two_sided_verbal [tok_sings; tok_walks] [tok_sang; tok_walk] _ _)
              [] (tok_sings, tok_sang) [(tok_walks, tok_walk)] _ _ _);
      try reflexivity; apply is_verbal_span_spec; reflexivity.
Defined.

(* ================================================================= *)
(** ** The first four rules of the cascade *)

Lemma set_eqb_spec xs ys :
  set_eqb xs ys = true <-> (forall x, In x xs <-> In x ys).
Proof.
  unfold set_eqb. rewrite andb_true_iff, !forallb_forall. split.
  - intros [H1 H2] x. split; intros Hx.
    + apply H1 in Hx. apply existsb_exists in Hx.
      destruct Hx as (y & Hy & E). apply String.eqb_eq in E. now subst.
    + apply H2 in Hx. apply existsb_exists in Hx.
      destruct Hx as (y & Hy & E). apply String.eqb_eq in E. now subst.
  - intros H. split; intros x Hx; apply existsb_exists; exists x;
      (split; [now apply H | apply String.eqb_refl]).
Qed.

Lemma one2one_tag_in lower self s t tg :
  _get_one2one_tag lower self s t = Ok tg -> In tg later_tags.
Proof.
  unfold _get_one2one_tag, later_tags.
  assert (H2 : In (_get_two_sided_tag [s] [t])
                  (["NOUN:INFL"; "VERB:INFL"; "MORPH"; "SPELL"]
                     ++ one_sided_tags ++ two_sided_tags)).
  { apply in_or_app. right. apply in_or_app. right. apply two_sided_tag_in. }
  destruct (top_differs _ _ _).
  - destruct (lemma s =? lemma t)%Z.
    + destruct (String.eqb (pos_ s) (pos_ t) && _) eqn:E.
      * intros [= <-]. apply andb_true_iff in E. destruct E as [_ E].
        by_pos s.
      * intros [= <-]. simpl; tauto.
    + destruct (existsb _ _).
      * intros [= <-]. simpl; tauto.
      * destruct (relative_lev s t) as [r|e]; simpl; [|discriminate].
        destruct (PrimFloat.ltb r 0.3); intros [= <-]; [simpl; tauto | exact H2].
  - destruct (_ && _); intros [= <-]; [simpl; tauto | exact H2].
Qed.

Lemma later_rule_tag_in lower self c tg :
  (forall d, c <> Direct d) -> run_call lower self c = Ok tg -> In tg later_tags.
Proof.
  intros Hc. destruct c as [d|tokens|s t|s t]; cbn [run_call]; unfold later_tags.
  - now destruct (Hc d).
  - intros [= <-]. apply in_or_app. right. apply in_or_app. left.
    apply one_sided_tag_in.
  - apply one2one_tag_in.
  - intros [= <-]. apply in_or_app. right. apply in_or_app. right.
    apply two_sided_tag_in.
Qed.

Lemma orth_not_later : ~ In "ORTH" later_tags.
Proof. intros H. not_a_tag H. Qed.

Lemma wo_not_later : ~ In "WO" later_tags.
Proof. intros H. not_a_tag H. Qed.

(** When none of the first four rules matches, a later rule is called. *)
Lemma cascade_later lower edit_span :
  let source := span_tokens (source_span edit_span) in
  let target := span_tokens (target_span edit_span) in
  _is_orth_error lower source target = false ->
  _is_wo_error lower source target = false ->
  _is_punct_error lower source target = false ->
  _is_orth_error lower (get_regular_tokens source) (get_regular_tokens target) = false ->
  forall d, cascade lower edit_span <> Direct d.
Proof.
  intros source target H1 H2 H3 H4 d. unfold cascade.
  fold source target. rewrite H1, H2, H3, H4.
  destruct (get_regular_tokens source) as [|s [|s' ss]];
    destruct (get_regular_tokens target) as [|t [|t' ts]]; discriminate.
Qed.

Lemma classify_cases lower self edit_span :
  let source := span_tokens (source_span edit_span) in
  let target := span_tokens (target_span edit_span) in
  classify_single_span lower self edit_span
  = if _is_orth_error lower source target then Ok "ORTH"
    else if _is_wo_error lower source target then Ok "WO"
    else if _is_punct_error lower source target then Ok "PUNCT"
    else if _is_orth_error lower (get_regular_tokens source)
                           (get_regular_tokens target) then Ok "NUM"
    else run_call lower self (cascade lower edit_span).
Proof.
  rewrite classify_single_span_cascade. unfold cascade. cbv zeta.
  destruct (_is_orth_error _ _ _); [reflexivity|].
  destruct (_is_wo_error _ _ _); [reflexivity|].
  destruct (_is_punct_error _ _ _); [reflexivity|].
  destruct (_is_orth_error _ _ _); reflexivity.
Qed.

Lemma cascade_cases lower edit_span :
  let source := span_tokens (source_span edit_span) in
  let target := span_tokens (target_span edit_span) in
  cascade lower edit_span
  = if _is_orth_error lower source target then Direct "ORTH"
    else if _is_wo_error lower source target then Direct "WO"
    else if _is_punct_error lower source target then Direct "PUNCT"
    else if _is_orth_error lower (get_regular_tokens source)
                           (get_regular_tokens target) then Direct "NUM"
    else cascade lower edit_span.
Proof.
  unfold cascade. cbv zeta.
  destruct (_is_orth_error _ _ _); [reflexivity|].
  destruct (_is_wo_error _ _ _); [reflexivity|].
  destruct (_is_punct_error _ _ _); [reflexivity|].
  destruct (_is_orth_error _ _ _); reflexivity.
Qed.

(** C5, as the code has it: the first four rules are tried in the order
    ORTH, WO, PUNCT, NUM and the first that matches wins.  ORTH is
    returned exactly when the joined lower-cased texts are equal;
    otherwise WO exactly when the two sets of lower-cased texts are equal;
    otherwise PUNCT whenever the texts are equal without the punctuation
    tokens; otherwise NUM whenever they are equal without the punctuation
    and digit tokens; the PUNCT rule and the NUM rule are the ones that
    return exactly under these conditions.  When none of the four matches
    the tag is that of a later rule, which is never ORTH or WO (but can be
    the part-of-speech name PUNCT or NUM). *)
Theorem cascade_first_four lower self edit_span :
  let source := span_tokens (source_span edit_span) in
  let target := span_tokens (target_span edit_span) in
  let orth := _is_orth_error lower source target in
  let wo := _is_wo_error lower source target in
  let punct := _is_punct_error lower source target in
  let num := _is_orth_error lower (get_regular_tokens source)
                            (get_regular_tokens target) in
  let r := classify_single_span lower self edit_span in
  (r = Ok "ORTH" <->
   join (map (lower_ lower) source) = join (map (lower_ lower) target))
  /\ (orth = false ->
      (r = Ok "WO" <->
       forall x, In x (map (lower_ lower) source) <-> In x (map (lower_ lower) target)))
  /\ (orth = false -> wo = false -> punct = true -> r = Ok "PUNCT")
  /\ (orth = false -> wo = false -> punct = false -> num = true -> r = Ok "NUM")
  /\ (cascade lower edit_span = Direct "PUNCT"
      <-> orth = false /\ wo = false /\ punct = true)
  /\ (cascade lower edit_span = Direct "NUM"
      <-> orth = false /\ wo = false /\ punct = false /\ num = true)
  /\ (orth = false -> wo = false -> punct = false -> num = false ->
      (forall d, cascade lower edit_span <> Direct d)
      /\ r = run_call lower self (cascade lower edit_span)
      /\ r <> Ok "ORTH" /\ r <> Ok "WO").
Proof.
  intros source target orth wo punct num r.
  assert (Hr : r = run_call lower self (cascade lower edit_span))
    by apply classify_single_span_cascade.
  assert (Hlater : orth = false -> wo = false -> punct = false -> num = false ->
                   (forall d, cascade lower edit_span <> Direct d)
                   /\ r <> Ok "ORTH" /\ r <> Ok "WO").
  { intros H1 H2 H3 H4.
    pose proof (cascade_later lower edit_span H1 H2 H3 H4) as Hc.
    split; [exact Hc|]. split; intros E; rewrite Hr in E;
      apply (later_rule_tag_in _ _ _ _ Hc) in E;
      [now apply orth_not_later | now apply wo_not_later]. }
  assert (Hcases : r = (if orth then Ok "ORTH" else if wo then Ok "WO"
                        else if punct then Ok "PUNCT" else if num then Ok "NUM"
                        else run_call lower self (cascade lower edit_span)))
    by apply classify_cases.
  assert (Horth : orth = true <->
                  join (map (lower_ lower) source) = join (map (lower_ lower) target))
    by apply String.eqb_eq.
  assert (Hwo : wo = true <->
                forall x, In x (map (lower_ lower) source)
                          <-> In x (map (lower_ lower) target))
    by apply set_eqb_spec.
  assert (Hdirect : cascade lower edit_span
                    = (if orth then Direct "ORTH" else if wo then Direct "WO"
                       else if punct then Direct "PUNCT"
                       else if num then Direct "NUM"
                       else cascade lower edit_span))
    by apply cascade_cases.
  rewrite <- Horth.
  split; [|split; [|split; [|split; [|split; [|split]]]]].
  - split.
    + intros E. destruct orth eqn:E1; [reflexivity|].
      destruct wo eqn:E2; [rewrite Hcases in E; discriminate|].
      destruct punct eqn:E3; [rewrite Hcases in E; discriminate|].
      destruct num eqn:E4; [rewrite Hcases in E; discriminate|].
      destruct Hlater as (_ & H & _); auto; try contradiction.
    + intros E. rewrite Hcases, E. reflexivity.
  - intros E1. rewrite <- Hwo. split.
    + intros E. destruct wo eqn:E2; [reflexivity|].
      rewrite E1 in Hcases.
      destruct punct eqn:E3; [rewrite Hcases in E; discriminate|].
      destruct num eqn:E4; [rewrite Hcases in E; discriminate|].
      destruct Hlater as (_ & _ & H); auto; try contradiction.
    + intros E. rewrite Hcases, E1, E. reflexivity.
  - intros E1 E2 E3. now rewrite Hcases, E1, E2, E3.
  - intros E1 E2 E3 E4. now rewrite Hcases, E1, E2, E3, E4.
  - rewrite Hdirect.
    destruct orth, wo, punct, num; split; try discriminate; try tauto;
      try (intros (? & ? & ?); discriminate).
    intros E. destruct Hlater as (H & _); auto. now destruct (H "PUNCT").
  - rewrite Hdirect.
    destruct orth, wo, punct, num; split; try discriminate; try tauto;
      try (intros (? & ? & ? & ?); discriminate).
    intros E. destruct Hlater as (H & _); auto. now destruct (H "NUM").
  - intros E1 E2 E3 E4. destruct Hlater as (H1 & H2 & H3); auto.
Qed.

(** C5 as stated fails for NUM: the insertion of the number word
    [three], tagged NUM by the tagger and not a digit token, matches none
    of the four rules, and the one-sided rule returns its tag NUM. *)
Lemma cascade_num_counterexample :
  classify_single_span ascii_lower no_speller (span_of [] [tok_three]) = Ok "NUM"
  /\ _is_orth_error ascii_lower [] [tok_three] = false
  /\ _is_wo_error ascii_lower [] [tok_three] = false
  /\ _is_punct_error ascii_lower [] [tok_three] = false
  /\ _is_orth_error ascii_lower (get_regular_tokens [])
                    (get_regular_tokens [tok_three]) = false
  /\ cascade ascii_lower (span_of [] [tok_three]) = OneSided [tok_three].
Proof.
  repeat split; reflexivity.
Qed.

Lemma cascade_first_four_witness :
  classify_single_span ascii_lower no_speller
    (span_of [word "Hello" 1 INTJ] [word "hello" 1 INTJ]) = Ok "ORTH"
  /\ classify_single_span ascii_lower no_speller
       (span_of [word "a" 1 DET; word "b" 2 NOUN] [word "b" 2 NOUN; word "a" 1 DET])
     = Ok "WO".
Proof.
  split.
  - apply (proj1 (cascade_first_four ascii_lower no_speller
                    (span_of [word "Hello" 1 INTJ] [word "hello" 1 INTJ]))).
    reflexivity.
  - apply (proj1 (proj2 (cascade_first_four ascii_lower no_speller
             (span_of [word "a" 1 DET; word "b" 2 NOUN]
                      [word "b" 2 NOUN; word "a" 1 DET])))).
    + reflexivity.
    + apply set_eqb_spec. reflexivity.
Defined.

(* ================================================================= *)
(** ** Spans of punctuation and digits *)

Lemma regular_tokens_nil tokens :
  Forall (fun t => is_punct t = true \/ is_digit t = true) tokens ->
  get_regular_tokens tokens = [].
Proof.
  induction 1 as [|t rest [H|H] _ IH]; simpl; [reflexivity| |];
    rewrite H, ?andb_false_r; simpl; exact IH.
Qed.

Lemma orth_error_nil lower : _is_orth_error lower [] [] = true.
Proof. reflexivity. Qed.

(** C10: an edit span whose tokens are all punctuation or digit tokens
    gets one of the tags ORTH, WO, PUNCT, NUM from the first four rules;
    so a later rule is never called when both regular-token lists are
    empty, the one-sided rule always receives a non-empty list, and the
    two-sided rule two non-empty lists. *)
Theorem punct_digit_spans lower self edit_span :
  let source := span_tokens (source_span edit_span) in
  let target := span_tokens (target_span edit_span) in
  (Forall (fun t => is_punct t = true \/ is_digit t = true) (source ++ target) ->
   In (classify_single_span lower self edit_span)
      [Ok "ORTH"; Ok "WO"; Ok "PUNCT"; Ok "NUM"])
  /\ (get_regular_tokens source = [] -> get_regular_tokens target = [] ->
      In (cascade lower edit_span)
         [Direct "ORTH"; Direct "WO"; Direct "PUNCT"; Direct "NUM"])
  /\ (forall tokens, cascade lower edit_span = OneSided tokens ->
      tokens <> []
      /\ (tokens = get_regular_tokens source \/ tokens = get_regular_tokens target))
  /\ (forall s t, cascade lower edit_span = TwoSided s t -> s <> [] /\ t <> []).
Proof.
  intros source target.
  assert (Hnil : get_regular_tokens source = [] -> get_regular_tokens target = [] ->
                 In (cascade lower edit_span)
                    [Direct "ORTH"; Direct "WO"; Direct "PUNCT"; Direct "NUM"]).
  { intros Hs Ht. unfold cascade. fold source target. rewrite Hs, Ht.
    destruct (_is_orth_error lower source target); [simpl; tauto|].
    destruct (_is_wo_error lower source target); [simpl; tauto|].
    destruct (_is_punct_error lower source target); [simpl; tauto|].
    rewrite orth_error_nil. simpl; tauto. }
  split; [|split; [exact Hnil|split]].
  - intros H. apply Forall_app in H. destruct H as [Hs Ht].
    specialize (Hnil (regular_tokens_nil _ Hs) (regular_tokens_nil _ Ht)).
    rewrite classify_single_span_cascade.
    simpl in Hnil. destruct Hnil as [<- | [<- | [<- | [<- | []]]]]; simpl; tauto.
  - intros tokens. unfold cascade. fold source target.
    destruct (_is_orth_error lower source target); [discriminate|].
    destruct (_is_wo_error lower source target); [discriminate|].
    destruct (_is_punct_error lower source target); [discriminate|].
    destruct (_is_orth_error lower (get_regular_tokens source)
                              (get_regular_tokens target)) eqn:En; [discriminate|].
    destruct (get_regular_tokens source) as [|s [|s' ss]];
      destruct (get_regular_tokens target) as [|t [|t' ts]];
      try discriminate; intros [= <-]; split; try discriminate; auto.
  - intros s t. unfold cascade. fold source target.
    destruct (_is_orth_error lower source target); [discriminate|].
    destruct (_is_wo_error lower source target); [discriminate|].
    destruct (_is_punct_error lower source target); [discriminate|].
    destruct (_is_orth_error lower (get_regular_tokens source)
                              (get_regular_tokens target)); [discriminate|].
    destruct (get_regular_tokens source) as [|s0 [|s' ss]];
      destruct (get_regular_tokens target) as [|t0 [|t' ts]];
      try discriminate; intros [= <- <-]; split; discriminate.
Qed.

Lemma punct_digit_spans_witness :
  In (classify_single_span ascii_lower no_speller
        (span_of [digit_token "3"; punct_token ","] [digit_token "4"]))
     [Ok "ORTH"; Ok "WO"; Ok "PUNCT"; Ok "NUM"]
  /\ classify_single_span ascii_lower no_speller
       (span_of [digit_token "3"; punct_token ","] [digit_token "4"]) = Ok "NUM".
Proof.
  split; [|reflexivity].
  apply (proj1 (punct_digit_spans ascii_lower no_speller
                  (span_of [digit_token "3"; punct_token ","] [digit_token "4"]))).
  unfold span_of. cbn [source_span target_span]. rewrite !whole_tokens.
  simpl. repeat (apply Forall_cons; [simpl; auto|]). apply Forall_nil.
Defined.

(* ================================================================= *)
(** ** The annotator *)

Lemma join_single (x : string) : join [x] = x.
Proof. reflexivity. Qed.

(** Only the empty string has no character. *)
Lemma chars_nil s : chars s = [] -> s = "".
Proof.
  destruct s as [|c rest]; [reflexivity|]. simpl.
  destruct (starts_with_continuation rest); [|discriminate].
  destruct (chars rest); discriminate.
Qed.

Lemma one2one_total lower self s t :
  lower (text s) <> lower (text t) ->
  exists tg, _get_one2one_tag lower self s t = Ok tg.
Proof.
  intros H. unfold _get_one2one_tag.
  destruct (top_differs _ _ _).
  - destruct (lemma s =? lemma t)%Z.
    + destruct (_ && _); eexists; reflexivity.
    + destruct (existsb _ _); [eexists; reflexivity|].
      unfold relative_lev, fdiv.
      destruct (Z.eqb_spec (len (text s) + len (text t)) 0) as [E|E].
      * exfalso. apply H. unfold len in E.
        assert (Es : List.length (chars (text s)) = 0%nat) by lia.
        assert (Et : List.length (chars (text t)) = 0%nat) by lia.
        apply length_zero_iff_nil, chars_nil in Es.
        apply length_zero_iff_nil, chars_nil in Et. now rewrite Es, Et.
      * simpl. destruct (PrimFloat.ltb _ 0.3); eexists; reflexivity.
  - destruct (_ && _); eexists; reflexivity.
Qed.

(** Classification never fails. *)
Lemma classify_single_span_total lower self edit_span :
  exists tg, classify_single_span lower self edit_span = Ok tg.
Proof.
  unfold classify_single_span.
  destruct (_is_orth_error _ _ _); [eexists; reflexivity|].
  destruct (_is_wo_error _ _ _); [eexists; reflexivity|].
  destruct (_is_punct_error _ _ _); [eexists; reflexivity|].
  destruct (_is_orth_error lower (get_regular_tokens _) (get_regular_tokens _)) eqn:En;
    [eexists; reflexivity|].
  destruct (get_regular_tokens _) as [|s [|s' ss]];
    destruct (get_regular_tokens _) as [|t [|t' ts]];
    try (eexists; reflexivity).
  apply one2one_total.
  unfold _is_orth_error in En. simpl map in En. rewrite !join_single in En.
  now apply String.eqb_neq.
Qed.

Lemma tag_spans_total lower self spans :
  exists tagged, tag_spans lower self spans = Ok tagged
                 /\ List.length tagged = List.length spans.
Proof.
  induction spans as [|e rest [tagged [IH Hl]]]; simpl.
  - now exists [].
  - destruct (classify_single_span_total lower self e) as [tg ->]. simpl.
    rewrite IH. simpl. eexists. split; [reflexivity|]. simpl. now rewrite Hl.
Qed.

Lemma annotate_loop_total lower nlp classifier targets : forall annotation,
  exists result_annotation,
    annotate_loop lower nlp classifier targets annotation = Ok result_annotation
    /\ source_doc result_annotation = source_doc annotation
    /\ List.length (target_sentences result_annotation)
       = (List.length (target_sentences annotation) + List.length targets)%nat.
Proof.
  induction targets as [|t rest IH]; intros annotation; simpl.
  - exists annotation. repeat split. lia.
  - unfold classify.
    destruct (tag_spans_total lower classifier
                (get_edit_spans lower (source_doc annotation) (nlp t)))
      as [tagged [-> _]]. simpl.
    destruct (IH {| source_doc := source_doc annotation;
                    target_sentences :=
                      target_sentences annotation
                      ++ [{| doc := nlp t; edit_spans := tagged |}] |})
      as (res & -> & Hs & Hl).
    exists res. split; [reflexivity|]. split; [exact Hs|].
    rewrite Hl. simpl. rewrite length_app. simpl. lia.
Qed.

(** C8, as the code has it: [annotate] raises the invalid-state error
    whenever the annotator is not initialized, whatever the targets are;
    on an initialized annotator it raises the invalid-argument error
    whenever [target_sentences] is a single string; and after
    [initialize], on a sequence of strings, it returns an annotation of
    the source with one target sentence per string. *)
Theorem annotate_outcomes lower load_spacy aspell_Speller
        (self : Annotator) (source_sentence : string) :
  (_initialized self = false ->
   forall targets, annotate lower self source_sentence targets
                   = Raise not_initialized_error)
  /\ (_initialized self = true ->
      forall s, annotate lower self source_sentence (TargetsStr s)
                = Raise string_targets_error)
  /\ (forall targets,
      exists annotation,
        annotate lower (initialize load_spacy aspell_Speller self)
                 source_sentence (TargetsSeq targets) = Ok annotation
        /\ source_doc annotation = load_spacy (_spacy_model self) source_sentence
        /\ List.length (target_sentences annotation) = List.length targets).
Proof.
  split; [|split].
  - intros H targets. unfold annotate. now rewrite H.
  - intros H s. unfold annotate. now rewrite H.
  - intros targets. unfold annotate, initialize. simpl.
    destruct (annotate_loop_total lower (load_spacy (_spacy_model self))
                (GenericClassifier_initialize aspell_Speller
                   (GenericClassifier_new (_annotator_aspell_lang self)))
                targets
                {| source_doc := load_spacy (_spacy_model self) source_sentence;
                   target_sentences := [] |})
      as (res & -> & Hs & Hl).
    exists res. auto.
Qed.

(** C8 as stated fails: called with a single string before [initialize],
    [annotate] raises the invalid-state error, not the invalid-argument
    one. *)
Lemma annotate_string_uninitialized_counterexample :
  _initialized fresh_annotator = false
  /\ annotate ascii_lower fresh_annotator "I goed to the storr."
              (TargetsStr "I went to the store.")
     = Raise not_initialized_error
  /\ not_initialized_error <> string_targets_error.
Proof.
  repeat split; discriminate.
Qed.

Lemma annotate_outcomes_witness :
  annotate ascii_lower fresh_annotator "I goed" (TargetsSeq ["I went"])
  = Raise not_initialized_error
  /\ annotate ascii_lower (initialize one_token_nlp silent_speller fresh_annotator)
              "I goed" (TargetsStr "I went")
     = Raise string_targets_error.
Proof.
  split.
  - apply (proj1 (annotate_outcomes ascii_lower one_token_nlp silent_speller
                    fresh_annotator "I goed")). reflexivity.
  - apply (proj1 (proj2 (annotate_outcomes ascii_lower one_token_nlp silent_speller
                    (initialize one_token_nlp silent_speller fresh_annotator)
                    "I goed"))). reflexivity.
Defined.

(** A run of the initialized annotator: one tagged span for the changed
    word, none for the unchanged one. *)
Example annotate_initialized_runs :
  annotate ascii_lower (initialize one_token_nlp silent_speller fresh_annotator)
           "goed" (TargetsSeq ["went"; "goed"])
  = Ok {| source_doc := one_token_nlp "en_core_web_sm" "goed";
          target_sentences :=
            [{| doc := one_token_nlp "en_core_web_sm" "went";
                edit_spans :=
                  [{| source_span := slice (one_token_nlp "en_core_web_sm" "goed") 0 1;
                      target_span := slice (one_token_nlp "en_core_web_sm" "went") 0 1;
                      tag := "X" |}] |};
             {| doc := one_token_nlp "en_core_web_sm" "goed"; edit_spans := [] |}] |}.
Proof. reflexivity. Qed.

(* ================================================================= *)
(** ** The M2 formatters *)

Lemma fold_append_lines {A} (f : A -> string) (l : list A) : forall acc,
  fold_left (fun m2_lines x => m2_lines ++ [f x]) l acc = acc ++ map f l.
Proof.
  induction l as [|x l IH]; intros acc; simpl.
  - now rewrite app_nil_r.
  - rewrite IH. now rewrite <- app_assoc.
Qed.

Lemma m2_target_step_lines span_line m2_lines it :
  m2_target_step span_line m2_lines it = m2_lines ++ target_lines span_line it.
Proof.
  destruct it as [annotator_id target_sentence].
  unfold m2_target_step, target_lines; simpl.
  destruct (edit_spans target_sentence) as [|e rest].
  - reflexivity.
  - now rewrite fold_append_lines.
Qed.

Lemma m2_fold_lines span_line its : forall m2_lines,
  fold_left (m2_target_step span_line) its m2_lines
  = m2_lines ++ flat_map (target_lines span_line) its.
Proof.
  induction its as [|it its IH]; intros m2_lines; simpl.
  - now rewrite app_nil_r.
  - rewrite IH, m2_target_step_lines. now rewrite <- app_assoc.
Qed.

Lemma m2_lines_of_spec span_line first_line annotation :
  m2_lines_of span_line first_line annotation
  = first_line
    :: flat_map (target_lines span_line) (enumerate (target_sentences annotation))
    ++ [""].
Proof.
  unfold m2_lines_of. now rewrite m2_fold_lines.
Qed.

Lemma combine_seq_fst_snd {A} (xs : list A) : forall base,
  map fst (combine (seq base (List.length xs)) xs) = seq base (List.length xs)
  /\ map snd (combine (seq base (List.length xs)) xs) = xs.
Proof.
  induction xs as [|x xs IH]; intros base; simpl; [split; reflexivity|].
  destruct (IH (S base)) as [-> ->]. split; reflexivity.
Qed.

Lemma enumerate_fst_snd {A} (xs : list A) :
  map fst (enumerate xs) = seq 0 (List.length xs)
  /\ map snd (enumerate xs) = xs.
Proof. apply combine_seq_fst_snd. Qed.

Lemma append_assoc_string (a b c : string) : ((a ++ b) ++ c = a ++ b ++ c)%string.
Proof. induction a as [|x a IH]; simpl; [reflexivity | now rewrite IH]. Qed.

(** Lines joined by newlines, the last of them empty: every line before
    it ends with a newline. *)
Lemma join_closed_lines (lines : list string) : forall first,
  String.concat newline (first :: lines ++ [""])
  = String.concat "" (map (fun line => line ++ newline)%string (first :: lines)).
Proof.
  induction lines as [|l ls IH]; intros first.
  - simpl. reflexivity.
  - change (String.concat newline (first :: (l :: ls) ++ [""]))
      with (first ++ newline ++ String.concat newline (l :: ls ++ [""]))%string.
    rewrite IH.
    change (String.concat "" (map (fun line => line ++ newline)%string (first :: l :: ls)))
      with ((first ++ newline) ++ ""
            ++ String.concat "" (map (fun line => line ++ newline)%string (l :: ls)))%string.
    now rewrite append_assoc_string.
Qed.

(** C9: what the two M2 formatters return, for every annotation: the
    sentence line, then the lines of the targets in order, numbered from
    zero, then an empty last line, joined by newlines, so that every line
    of the block ends with a newline.  A target with no edit span
    contributes exactly the no-op line with its own number.  An
    annotation with one target and no edit span is the sentence line, the
    no-op line of annotator 0 and the closing newline. *)
Theorem m2_noop_line Span_text Span_start_char Span_end_char :
  (forall annotation,
      let lines :=
        ("S " ++ doc_text (source_doc annotation))%string
        :: flat_map (target_lines (m2char_span_line Span_text Span_start_char Span_end_char))
                    (enumerate (target_sentences annotation)) in
      M2CharFormatter_format Span_text Span_start_char Span_end_char annotation
      = String.concat newline (lines ++ [""])
      /\ M2CharFormatter_format Span_text Span_start_char Span_end_char annotation
         = String.concat "" (map (fun line => line ++ newline)%string lines))
  /\ (forall annotation,
      let lines :=
        ("S " ++ String.concat " " (map text (doc_tokens (source_doc annotation))))%string
        :: flat_map (target_lines (m2tok_span_line Span_text))
                    (enumerate (target_sentences annotation)) in
      M2TokFormatter_format Span_text annotation
      = String.concat newline (lines ++ [""])
      /\ M2TokFormatter_format Span_text annotation
         = String.concat "" (map (fun line => line ++ newline)%string lines))
  /\ (forall annotation,
      map fst (enumerate (target_sentences annotation))
      = seq 0 (List.length (target_sentences annotation))
      /\ map snd (enumerate (target_sentences annotation))
         = target_sentences annotation)
  /\ (forall span_line annotator_id target_doc,
      target_lines span_line
                   (annotator_id, {| doc := target_doc; edit_spans := [] |})
      = [("A -1 -1|||noop|||-NONE-|||REQUIRED|||-NONE-|||"
            ++ fmt_d (Z.of_nat annotator_id))%string])
  /\ (forall source target_doc,
      M2CharFormatter_format Span_text Span_start_char Span_end_char
        {| source_doc := source;
           target_sentences := [{| doc := target_doc; edit_spans := [] |}] |}
      = ("S " ++ doc_text source ++ newline
           ++ "A -1 -1|||noop|||-NONE-|||REQUIRED|||-NONE-|||0" ++ newline)%string)
  /\ (forall source target_doc,
      M2TokFormatter_format Span_text
        {| source_doc := source;
           target_sentences := [{| doc := target_doc; edit_spans := [] |}] |}
      = ("S " ++ String.concat " " (map text (doc_tokens source)) ++ newline
           ++ "A -1 -1|||noop|||-NONE-|||REQUIRED|||-NONE-|||0" ++ newline)%string).
Proof.
  split; [|split; [|split; [|split; [|split]]]].
  - intros annotation lines.
    assert (E : M2CharFormatter_format Span_text Span_start_char Span_end_char annotation
                = String.concat newline (lines ++ [""])).
    { unfold M2CharFormatter_format, M2Char_lines. now rewrite m2_lines_of_spec. }
    split; [exact E|]. rewrite E. apply join_closed_lines.
  - intros annotation lines.
    assert (E : M2TokFormatter_format Span_text annotation
                = String.concat newline (lines ++ [""])).
    { unfold M2TokFormatter_format, M2Tok_lines. now rewrite m2_lines_of_spec. }
    split; [exact E|]. rewrite E. apply join_closed_lines.
  - intros annotation. apply enumerate_fst_snd.
  - reflexivity.
  - intros source target_doc.
    unfold M2CharFormatter_format, M2Char_lines. rewrite m2_lines_of_spec.
    reflexivity.
  - intros source target_doc.
    unfold M2TokFormatter_format, M2Tok_lines. rewrite m2_lines_of_spec.
    reflexivity.
Qed.

(** Two targets, the second one without an edit span: its no-op line
    carries the number 1, after the line of the first target's span. *)
Example m2_tok_two_targets :
  M2TokFormatter_format (fun _ => Some "went")
    {| source_doc := doc_of [tok_goed];
       target_sentences :=
         [{| doc := doc_of [tok_went];
             edit_spans := [{| source_span := slice (doc_of [tok_goed]) 0 1;
                               target_span := slice (doc_of [tok_went]) 0 1;
                               tag := "VERB:INFL" |}] |};
          {| doc := doc_of [tok_goed]; edit_spans := [] |}] |}
  = ("S goed" ++ newline
       ++ "A 0 1|||R:VERB:INFL|||went|||REQUIRED|||-NONE-|||0" ++ newline
       ++ "A -1 -1|||noop|||-NONE-|||REQUIRED|||-NONE-|||1" ++ newline)%string.
Proof. reflexivity. Qed.

(* ================================================================= *)
(** ** More on the aligner: empty sequences, the shape of the matrix *)

(** The invariant of the aligner, for the proofs below. *)
Lemma edit_spans_aligned lower (src tgt : Doc) :
  aligner_invariant src tgt (get_edit_spans lower src tgt).
Proof.
  unfold get_edit_spans. rewrite fold_span_step. simpl.
  destruct (alignment_sorted src tgt lower) as (l & -> & Hs & Hb).
  destruct (spans_from_ok src tgt (doc_len src) (doc_len tgt) eq_refl eq_refl
              l (-1)%Z (-1)%Z 0%Z 0%Z) as (Ht & Hr & Hn & _ & Hso); try lia.
  - constructor; [assumption|].
    apply Forall_app. split.
    + eapply Forall_impl; [|exact Hb]. unfold lt2; simpl. intros p; lia.
    + constructor; [|constructor]. unfold lt2, doc_len; simpl. lia.
  - unfold aligner_invariant. auto.
Qed.

Lemma backtrace_row_0 lev_mat fuel col align :
  backtrace lev_mat fuel 0 col align = align.
Proof. destruct fuel; reflexivity. Qed.

Lemma backtrace_col_0 lev_mat fuel row align :
  backtrace lev_mat fuel row 0 align = align.
Proof. destruct fuel; simpl; [reflexivity|]. now rewrite Nat.mul_0_r. Qed.

(** X1: with an empty source the aligner returns one insertion span
    that covers the whole target, with an empty target one deletion span
    that covers the whole source, and no span when both are empty. *)
Theorem get_edit_spans_empty lower (src tgt : Doc) :
  (doc_tokens src = [] ->
   get_edit_spans lower src tgt
   = match doc_tokens tgt with
     | [] => []
     | _ :: _ => [{| source_span := slice src 0 0;
                     target_span := slice tgt 0 (doc_len tgt);
                     tag := UNK_TAG_NAME |}]
     end)
  /\ (doc_tokens tgt = [] ->
      get_edit_spans lower src tgt
      = match doc_tokens src with
        | [] => []
        | _ :: _ => [{| source_span := slice src 0 (doc_len src);
                        target_span := slice tgt 0 0;
                        tag := UNK_TAG_NAME |}]
        end).
Proof.
  split; intros H; unfold get_edit_spans, alignment, doc_len; rewrite H.
  - cbn [List.length]. rewrite backtrace_row_0. cbn [rev app fold_left span_step].
    destruct (doc_tokens tgt) as [|t ts]; [reflexivity|].
    replace (-1 + 1 =? Z.of_nat (List.length (t :: ts)))%Z with false
      by (symmetry; apply Z.eqb_neq; simpl List.length; lia).
    reflexivity.
  - cbn [List.length]. rewrite backtrace_col_0. cbn [rev app fold_left span_step].
    destruct (doc_tokens src) as [|s ss]; [reflexivity|].
    replace (-1 + 1 =? Z.of_nat (List.length (s :: ss)))%Z with false
      by (symmetry; apply Z.eqb_neq; simpl List.length; lia).
    reflexivity.
Qed.

Lemma get_edit_spans_empty_witness :
  get_edit_spans ascii_lower (doc_of []) (doc_of [tok_go; tok_will])
  = [{| source_span := slice (doc_of []) 0 0;
        target_span := slice (doc_of [tok_go; tok_will]) 0 2;
        tag := UNK_TAG_NAME |}]
  /\ get_edit_spans ascii_lower (doc_of [tok_go]) (doc_of [])
     = [{| source_span := slice (doc_of [tok_go]) 0 1;
           target_span := slice (doc_of []) 0 0;
           tag := UNK_TAG_NAME |}].
Proof.
  split.
  - apply (proj1 (get_edit_spans_empty ascii_lower (doc_of [])
                    (doc_of [tok_go; tok_will]))). reflexivity.
  - apply (proj2 (get_edit_spans_empty ascii_lower (doc_of [tok_go]) (doc_of []))).
    reflexivity.
Defined.

Section MatrixShape.

Context {T : Type}.
Variable compare_func : T -> T -> num.

Lemma first_row_length (ys : list T) :
  List.length (first_row ys) = S (List.length ys).
Proof. unfold first_row. rewrite length_map, length_seq. lia. Qed.

Lemma mat_state_rows xs ys :
  List.length (fst (mat_state compare_func xs ys)) = S (List.length ys)
  /\ Forall (fun row => List.length row = S (List.length ys))
            (snd (mat_state compare_func xs ys)).
Proof.
  induction xs as [|x xs [IH1 IH2]] using rev_ind.
  - simpl. split; [apply first_row_length|].
    constructor; [apply first_row_length | constructor].
  - rewrite mat_state_snoc. destruct (mat_state compare_func xs ys) as [prev mat].
    simpl in *. split; [apply next_row_length|].
    apply Forall_app. split; [assumption|].
    constructor; [apply next_row_length | constructor].
Qed.

Lemma last_nth {A} (l : list A) (d : A) :
  last l d = nth (List.length l - 1) l d.
Proof.
  induction l as [|x [|y l] IH]; try reflexivity.
  change (last (x :: y :: l) d) with (last (y :: l) d). rewrite IH.
  simpl. now rewrite Nat.sub_0_r.
Qed.

(** The distance is the last cell of the last row. *)
Lemma distance_is_corner xs ys :
  levenshtein_distance compare_func xs ys
  = at_ (levenshtein_matrix compare_func xs ys) (List.length xs) (List.length ys).
Proof.
  unfold levenshtein_distance, at_, cell.
  rewrite (last_nth (levenshtein_matrix compare_func xs ys)), matrix_length.
  simpl. rewrite Nat.sub_0_r.
  assert (H : List.length (nth (List.length xs)
                              (levenshtein_matrix compare_func xs ys) [])
              = S (List.length ys)).
  { destruct (mat_state_rows xs ys) as [_ H].
    change (snd (mat_state compare_func xs ys))
      with (levenshtein_matrix compare_func xs ys) in H.
    rewrite Forall_forall in H.
    apply H. apply nth_In. rewrite matrix_length. lia. }
  rewrite last_nth, H. simpl. now rewrite Nat.sub_0_r.
Qed.

End MatrixShape.

(** X2: the matrix has one row more than the source has tokens and
    every row has one cell more than the target has tokens, so every cell
    the backtrace reads, [lev_mat[row][col]] with [row <= len(source)]
    and [col <= len(target)], is there. *)
Theorem levenshtein_matrix_shape {T : Type} (compare_func : T -> T -> num)
        (xs ys : list T) :
  List.length (levenshtein_matrix compare_func xs ys) = S (List.length xs)
  /\ Forall (fun row => List.length row = S (List.length ys))
            (levenshtein_matrix compare_func xs ys).
Proof.
  split; [apply matrix_length | apply mat_state_rows].
Qed.

(** X3: the matrix the loops build is the one of the recurrence: the
    first row counts the target tokens, the first column the source
    tokens, and every other cell is the least of the cell above plus one,
    the cell to the left plus one and the cell above to the left plus the
    substitution cost, in this order on ties. *)
Theorem levenshtein_matrix_recurrence {T : Type} (compare_func : T -> T -> num)
        (xs ys : list T) :
  let D := at_ (levenshtein_matrix compare_func xs ys) in
  (forall j, (j <= List.length ys)%nat -> D 0%nat j = Float (float_of_Z (Z.of_nat j)))
  /\ (forall i, (i < List.length xs)%nat -> D (S i) 0%nat = Int (Z.of_nat i + 1))
  /\ (forall i j x y,
         nth_error xs i = Some x -> nth_error ys j = Some y ->
         D (S i) (S j)
         = min3 (add (D i (S j)) (Float 1.0))
                (add (D (S i) j) (Float 1.0))
                (add (D i j) (compare_func x y))).
Proof.
  intros D. split; [|split].
  - intros j Hj. now apply matrix_cell_0_j.
  - intros i Hi. destruct (nth_error xs i) as [x|] eqn:E.
    + now apply (matrix_cell_i_0 compare_func xs ys i x).
    + apply nth_error_None in E. lia.
  - intros i j x y Hx Hy. unfold D.
    rewrite (matrix_cell_S_S compare_func xs ys i j x y Hx Hy).
    now replace (j + 1)%nat with (S j) by lia.
Qed.

Lemma levenshtein_matrix_recurrence_witness :
  at_ (levenshtein_matrix char_neq ["a"; "b"] ["b"]) 2 1
  = min3 (add (at_ (levenshtein_matrix char_neq ["a"; "b"] ["b"]) 1 1)
              (Float 1.0))
         (add (at_ (levenshtein_matrix char_neq ["a"; "b"] ["b"]) 2 0)
              (Float 1.0))
         (add (at_ (levenshtein_matrix char_neq ["a"; "b"] ["b"]) 1 0)
              (char_neq "b" "b"))
  /\ at_ (levenshtein_matrix char_neq ["a"; "b"] ["b"]) 2 1 = Int 1.
Proof.
  split; [|reflexivity].
  apply (proj2 (proj2 (levenshtein_matrix_recurrence char_neq
                         ["a"; "b"] ["b"])) 1%nat 0%nat); reflexivity.
Defined.

(** X4: the distance from the empty sequence is the float [len(target)];
    the distance from a non-empty sequence to the empty one is the int
    [len(source)], not a float; and in every case the distance is the
    corner cell [D[len(source)][len(target)]]. *)
Theorem levenshtein_distance_edges {T : Type} (compare_func : T -> T -> num) :
  (forall ys, levenshtein_distance compare_func [] ys
              = Float (float_of_Z (Z.of_nat (List.length ys))))
  /\ (forall x xs, levenshtein_distance compare_func (x :: xs) []
                   = Int (Z.of_nat (List.length (x :: xs))))
  /\ (forall xs ys,
         levenshtein_distance compare_func xs ys
         = at_ (levenshtein_matrix compare_func xs ys)
               (List.length xs) (List.length ys)).
Proof.
  split; [|split].
  - intros ys. rewrite distance_is_corner. now apply matrix_cell_0_j.
  - intros x xs. rewrite distance_is_corner.
    destruct (nth_error (x :: xs) (List.length xs)) as [y|] eqn:E.
    + change (List.length (x :: xs)) with (S (List.length xs)).
      change (List.length (@nil T)) with 0%nat.
      rewrite (matrix_cell_i_0 compare_func (x :: xs) [] (List.length xs) y E).
      f_equal. lia.
    + apply nth_error_None in E. simpl in E. lia.
  - apply distance_is_corner.
Qed.

(* ================================================================= *)
(** ** The Levenshtein distance: the least number of edits *)

Section EditDistanceFacts.

Context {A : Type}.
Variable differ : A -> A -> bool.

Lemma lev_dist_nil_r (xs : list A) : lev_dist differ xs [] = List.length xs.
Proof. destruct xs; reflexivity. Qed.

Lemma lev_dist_cons x xs y ys :
  lev_dist differ (x :: xs) (y :: ys)
  = Nat.min (Nat.min (S (lev_dist differ xs (y :: ys)))
                     (S (lev_dist differ (x :: xs) ys)))
            (lev_dist differ xs ys + Nat.b2n (differ x y)).
Proof. reflexivity. Qed.

Lemma lev_dist_bound (xs : list A) : forall ys,
  (lev_dist differ xs ys <= List.length xs + List.length ys)%nat.
Proof.
  induction xs as [|x xs IH]; intros ys; [simpl; lia|].
  destruct ys as [|y ys]; [rewrite lev_dist_nil_r; lia|].
  rewrite lev_dist_cons. specialize (IH (y :: ys)). cbn [List.length] in *. lia.
Qed.

(** Some sequence of edits has the cost [lev_dist]. *)
Lemma lev_dist_edits (xs : list A) : forall ys,
  edits differ xs ys (lev_dist differ xs ys).
Proof.
  induction xs as [|x xs IHx]; intros ys.
  - induction ys as [|y ys IHy]; [constructor|]. simpl in *. now constructor.
  - induction ys as [|y ys IHy].
    + rewrite lev_dist_nil_r. specialize (IHx []). rewrite lev_dist_nil_r in IHx.
      simpl. now constructor.
    + rewrite lev_dist_cons.
      destruct (Nat.min_spec (S (lev_dist differ xs (y :: ys)))
                             (S (lev_dist differ (x :: xs) ys))) as [[_ ->]|[_ ->]];
        match goal with
        | |- edits _ _ _ (Nat.min ?a ?b) =>
          destruct (Nat.min_spec a b) as [[_ ->]|[_ ->]]
        end;
        try (now constructor).
Qed.

(** No sequence of edits is cheaper. *)
Lemma lev_dist_least xs ys n :
  edits differ xs ys n -> (lev_dist differ xs ys <= n)%nat.
Proof.
  induction 1 as [|x xs ys n _ IH|y xs ys n _ IH|x y xs ys n _ IH].
  - simpl. lia.
  - destruct ys as [|y ys].
    + rewrite lev_dist_nil_r in *. simpl. lia.
    + rewrite lev_dist_cons. lia.
  - destruct xs as [|x xs].
    + simpl in *. lia.
    + rewrite lev_dist_cons. lia.
  - rewrite lev_dist_cons. lia.
Qed.

(** Edits at the end of the sequences. *)
Lemma edits_delete_last x xs ys n :
  edits differ xs ys n -> edits differ (xs ++ [x]) ys (S n).
Proof.
  induction 1 as [|x' xs ys n _ IH|y xs ys n _ IH|x' y xs ys n _ IH]; simpl.
  - repeat constructor.
  - now constructor.
  - now constructor.
  - change (S (n + Nat.b2n (differ x' y))) with (S n + Nat.b2n (differ x' y))%nat.
    now constructor.
Qed.

Lemma edits_insert_last y xs ys n :
  edits differ xs ys n -> edits differ xs (ys ++ [y]) (S n).
Proof.
  induction 1 as [|x xs ys n _ IH|y' xs ys n _ IH|x y' xs ys n _ IH]; simpl.
  - repeat constructor.
  - now constructor.
  - now constructor.
  - change (S (n + Nat.b2n (differ x y'))) with (S n + Nat.b2n (differ x y'))%nat.
    now constructor.
Qed.

Lemma edits_replace_last x y xs ys n :
  edits differ xs ys n ->
  edits differ (xs ++ [x]) (ys ++ [y]) (n + Nat.b2n (differ x y)).
Proof.
  induction 1 as [|x' xs ys n _ IH|y' xs ys n _ IH|x' y' xs ys n _ IH]; simpl.
  - apply (edits_replace differ x y [] [] 0). constructor.
  - now constructor.
  - now constructor.
  - replace (n + Nat.b2n (differ x' y') + Nat.b2n (differ x y))%nat
      with (n + Nat.b2n (differ x y) + Nat.b2n (differ x' y'))%nat by lia.
    now constructor.
Qed.

Lemma edits_rev xs ys n :
  edits differ xs ys n -> edits differ (rev xs) (rev ys) n.
Proof.
  induction 1 as [|x xs ys n _ IH|y xs ys n _ IH|x y xs ys n _ IH]; simpl.
  - constructor.
  - now apply edits_delete_last.
  - now apply edits_insert_last.
  - now apply edits_replace_last.
Qed.

(** The distance is the same read from the end. *)
Lemma lev_dist_rev xs ys :
  lev_dist differ (rev xs) (rev ys) = lev_dist differ xs ys.
Proof.
  apply Nat.le_antisymm.
  - apply lev_dist_least, edits_rev, lev_dist_edits.
  - rewrite <- (rev_involutive xs), <- (rev_involutive ys) at 1.
    apply lev_dist_least, edits_rev, lev_dist_edits.
Qed.

End EditDistanceFacts.

(* ================================================================= *)
(** ** The matrix routine computes the Levenshtein distance *)

Lemma num_is_to_float x n : num_is x n -> to_float x = float_of_Z n.
Proof. destruct x; simpl; congruence. Qed.

Lemma add_one_is x n :
  num_is x n -> (0 <= n)%Z -> (n + 1 < 2 ^ 53)%Z ->
  num_is (add x (Float 1.0)) (n + 1).
Proof.
  intros H H0 H1. rewrite add_float_r, (num_is_to_float x n H). simpl.
  now apply float_of_Z_succ.
Qed.

Lemma add_cost_is x n (b : bool) :
  num_is x n -> (0 <= n)%Z -> (n + 1 < 2 ^ 53)%Z ->
  num_is (add x (of_bool b)) (n + Z.b2z b).
Proof.
  intros H H0 H1. destruct x as [z|f]; simpl in *.
  - now subst.
  - subst f. destruct b; simpl Z.b2z.
    + change (float_of_Z 1) with 1%float. now apply float_of_Z_succ.
    + rewrite Z.add_0_r. apply float_of_Z_add_0. lia.
Qed.

Lemma ltb_is x y a b :
  num_is x a -> num_is y b -> (0 <= a < 2 ^ 53)%Z -> (0 <= b < 2 ^ 53)%Z ->
  ltb x y = (a <? b)%Z.
Proof.
  intros Hx Hy Ha Hb. destruct x as [z|f], y as [z'|f']; simpl in *; subst;
    try reflexivity; now apply float_of_Z_ltb.
Qed.

Lemma min3_is x y z a b c :
  num_is x a -> num_is y b -> num_is z c ->
  (0 <= a < 2 ^ 53)%Z -> (0 <= b < 2 ^ 53)%Z -> (0 <= c < 2 ^ 53)%Z ->
  num_is (min3 x y z) (Z.min (Z.min a b) c).
Proof.
  intros Hx Hy Hz Ha Hb Hc. unfold min3.
  rewrite (ltb_is y x b a Hy Hx Hb Ha).
  destruct (Z.ltb_spec b a) as [E|E].
  - rewrite (ltb_is z y c b Hz Hy Hc Hb).
    destruct (Z.ltb_spec c b); [replace (Z.min (Z.min a b) c) with c by lia
                               |replace (Z.min (Z.min a b) c) with b by lia];
      assumption.
  - rewrite (ltb_is z x c a Hz Hx Hc Ha).
    destruct (Z.ltb_spec c a); [replace (Z.min (Z.min a b) c) with c by lia
                               |replace (Z.min (Z.min a b) c) with a by lia];
      assumption.
Qed.

Lemma firstn_snoc {A} (l : list A) i x :
  nth_error l i = Some x -> firstn (S i) l = firstn i l ++ [x].
Proof.
  revert i. induction l as [|y l IH]; intros [|i] H; simpl in *;
    try discriminate.
  - now injection H as ->.
  - f_equal. now apply IH.
Qed.

Section DistanceExact.

Context {T : Type}.
Variable compare_func : T -> T -> num.
Variable differ : T -> T -> bool.

(** The cost is the bool [differ]: the int 1 or 0. *)
Hypothesis cost_differ : forall x y, compare_func x y = of_bool (differ x y).

Variables xs ys : list T.

(** The two lengths together stay below [2^53]: the floats are exact. *)
Hypothesis small : (Z.of_nat (List.length xs + List.length ys) < 2 ^ 53)%Z.

Let D := at_ (levenshtein_matrix compare_func xs ys).
Let L (i j : nat) : nat := lev_dist differ (rev (firstn i xs)) (rev (firstn j ys)).

Lemma prefix_distance_bound i j :
  (i <= List.length xs)%nat -> (j <= List.length ys)%nat -> (L i j <= i + j)%nat.
Proof.
  intros Hi Hj. unfold L.
  pose proof (lev_dist_bound differ (rev (firstn i xs)) (rev (firstn j ys))) as H.
  rewrite !length_rev, !length_firstn in H. lia.
Qed.

(** Every cell is the distance of the two prefixes. *)
Lemma cells_exact i : (i <= List.length xs)%nat ->
  forall j, (j <= List.length ys)%nat -> num_is (D i j) (Z.of_nat (L i j)).
Proof.
  induction i as [|i IHi]; intros Hi j Hj.
  - unfold D. rewrite matrix_cell_0_j by assumption. unfold L. simpl.
    rewrite length_rev, length_firstn. f_equal. f_equal. lia.
  - destruct (nth_error xs i) as [x|] eqn:Hx;
      [|apply nth_error_None in Hx; lia].
    induction j as [|j IHj].
    + unfold D. rewrite (matrix_cell_i_0 compare_func xs ys i x Hx).
      unfold L. simpl firstn at 2. simpl rev at 2. rewrite lev_dist_nil_r.
      rewrite length_rev, length_firstn. cbn [num_is]. lia.
    + destruct (nth_error ys j) as [y|] eqn:Hy;
        [|apply nth_error_None in Hy; lia].
      unfold D. rewrite (matrix_cell_S_S compare_func xs ys i j x y Hx Hy).
      fold D. replace (j + 1)%nat with (S j) by lia.
      assert (EL : Z.of_nat (L (S i) (S j))
                   = Z.min (Z.min (Z.of_nat (L i (S j)) + 1)
                                  (Z.of_nat (L (S i) j) + 1))
                           (Z.of_nat (L i j) + Z.b2z (differ x y))).
      { unfold L. rewrite (firstn_snoc xs i x Hx), (firstn_snoc ys j y Hy).
        rewrite !rev_unit, lev_dist_cons.
        rewrite <- (rev_unit (firstn i xs) x), <- (rev_unit (firstn j ys) y).
        rewrite <- (firstn_snoc xs i x Hx), <- (firstn_snoc ys j y Hy).
        rewrite !Nat2Z.inj_min, Nat2Z.inj_add, !Nat2Z.inj_succ.
        destruct (differ x y); reflexivity. }
      rewrite EL, cost_differ.
      pose proof (prefix_distance_bound i (S j) ltac:(lia) Hj).
      pose proof (prefix_distance_bound (S i) j Hi ltac:(lia)).
      pose proof (prefix_distance_bound i j ltac:(lia) ltac:(lia)).
      assert (Hb : (0 <= Z.b2z (differ x y) <= 1)%Z) by (destruct (differ x y); simpl; lia).
      apply min3_is.
      * apply add_one_is; [apply IHi; lia | lia | lia].
      * apply add_one_is; [apply IHj; lia | lia | lia].
      * apply add_cost_is; [apply IHi; lia | lia | lia].
      * lia.
      * lia.
      * lia.
Qed.

(** The distance the routine returns is the Levenshtein distance. *)
Lemma distance_exact :
  num_is (levenshtein_distance compare_func xs ys)
         (Z.of_nat (lev_dist differ xs ys)).
Proof.
  rewrite distance_is_corner.
  pose proof (cells_exact (List.length xs) (le_n _) (List.length ys) (le_n _)) as H.
  unfold D, L in H. rewrite !firstn_all, lev_dist_rev in H. exact H.
Qed.

End DistanceExact.

(* ================================================================= *)
(** ** The characters of a string *)

Lemma chars_cons c rest :
  chars (String c rest)
  = if starts_with_continuation rest then
      match chars rest with
      | head :: tail => String c head :: tail
      | [] => [String c EmptyString]
      end
    else String c EmptyString :: chars rest.
Proof. reflexivity. Qed.

(** The characters, put together again, are the string. *)
Lemma chars_join s : join (chars s) = s.
Proof.
  induction s as [|c rest IH]; [reflexivity|]. rewrite chars_cons.
  destruct (starts_with_continuation rest) eqn:E.
  - destruct (chars rest) as [|head tail] eqn:Ec.
    + apply chars_nil in Ec. now subst.
    + rewrite <- IH. unfold join. destruct tail; reflexivity.
  - rewrite <- IH at 2. unfold join.
    destruct (chars rest) as [|head tail] eqn:Ec; [reflexivity|].
    destruct tail; reflexivity.
Qed.

(** Every character is one first byte with continuation bytes after it,
    and a new character begins at every byte that is no continuation
    byte. *)
Lemma chars_one_char s :
  Forall (fun c => one_char c = true) (chars s)
  /\ Forall (fun c => starts_with_continuation c = false) (tl (chars s))
  /\ (starts_with_continuation s = false ->
      Forall (fun c => starts_with_continuation c = false) (chars s)).
Proof.
  induction s as [|c rest (IH1 & IH2 & IH3)]; [repeat split; constructor|].
  rewrite chars_cons.
  destruct (starts_with_continuation rest) eqn:E.
  - destruct (chars rest) as [|head tail] eqn:Ec.
    + apply chars_nil in Ec. subst. discriminate.
    + assert (Eh : starts_with_continuation head = true).
      { pose proof (chars_join rest) as Hj. rewrite Ec in Hj.
        unfold join in Hj.
        destruct head as [|h hs].
        - inversion IH1; discriminate.
        - destruct tail; simpl in Hj; subst rest; exact E. }
      inversion IH1 as [|? ? Hh Ht]; subst. simpl in IH2.
      repeat split.
      * constructor; [|exact Ht]. simpl.
        destruct head as [|h hs]; [discriminate|].
        simpl in *. now rewrite Eh.
      * exact IH2.
      * intros Hc. constructor; [exact Hc | exact IH2].
  - specialize (IH3 eq_refl). repeat split.
    + constructor; [reflexivity | exact IH1].
    + exact IH3.
    + intros Hc. constructor; [exact Hc | exact IH3].
Qed.

(** A text of ASCII bytes has one character for every byte. *)
Lemma chars_ascii s :
  forallb (fun c => (N_of_ascii c <? 128)%N) (list_ascii_of_string s) = true ->
  chars s = map (fun c => String c EmptyString) (list_ascii_of_string s).
Proof.
  induction s as [|c rest IH]; [reflexivity|]. simpl list_ascii_of_string.
  simpl forallb. intros H. apply andb_true_iff in H. destruct H as [_ H].
  rewrite chars_cons, (IH H).
  assert (E : starts_with_continuation rest = false).
  { destruct rest as [|d rest']; [reflexivity|]. simpl in *.
    apply andb_true_iff in H. destruct H as [H _].
    unfold is_continuation. apply N.ltb_lt in H.
    destruct (N.leb_spec 128 (N_of_ascii d)); [lia | reflexivity]. }
  now rewrite E.
Qed.

Lemma chars_cut s : char_cut s (chars s).
Proof.
  destruct (chars_one_char s) as (H1 & H2 & _).
  split; [apply chars_join | split; assumption].
Qed.

(* ================================================================= *)
(** ** The one-to-one rule: the Levenshtein test *)

(** The distance the rule computes over the characters of two texts is
    their Levenshtein distance. *)
Lemma char_lev_exact a b :
  (Z.of_nat (List.length (chars a) + List.length (chars b)) < 2 ^ 53)%Z ->
  num_is (char_lev a b) (char_distance a b).
Proof.
  intros H. unfold char_lev, char_distance.
  now apply (distance_exact char_neq char_differs).
Qed.

(** C6: when the speller returns suggestions whose first one differs from
    the source text up to case, the lemmas differ and no suggestion equals
    the target text up to case, the one-to-one rule returns SPELL exactly
    when [2.0 * d / (len(source_text) + len(target_text)) < 0.3] in
    binary64 arithmetic.  Here [len] counts the characters (code points)
    of a text, and [d], the number the matrix routine returns for the
    characters of the two texts with the cost [x != y], is their
    Levenshtein distance, the least number of insertions, deletions and
    replacements of one character that turn the source text into the
    target text: the floats of the routine are exact as long as the two
    lengths together stay below [2^53]. *)
Theorem one2one_spell_by_distance lower self speller top rest
        (source_token target_token : Token) :
  _aspell self = Some speller ->
  speller (text source_token) = top :: rest ->
  lower top <> lower (text source_token) ->
  lemma source_token <> lemma target_token ->
  (forall suggestion, In suggestion (top :: rest) ->
                      lower suggestion <> lower (text target_token)) ->
  let source_chars := chars (text source_token) in
  let target_chars := chars (text target_token) in
  let total := Z.of_nat (List.length source_chars + List.length target_chars) in
  (total < 2 ^ 53)%Z ->
  let d := Z.of_nat (lev_dist char_differs source_chars target_chars) in
  (char_cut (text source_token) source_chars
   /\ char_cut (text target_token) target_chars)
  /\ (edits char_differs source_chars target_chars (Z.to_nat d)
      /\ forall n, edits char_differs source_chars target_chars n ->
                   (d <= Z.of_nat n)%Z)
  /\ num_is (levenshtein_distance char_neq source_chars target_chars) d
  /\ (_get_one2one_tag lower self source_token target_token = Ok "SPELL"
      <-> exists r, fdiv (fmul 2.0 (Int d)) total = Ok r
                    /\ PrimFloat.ltb r 0.3 = true).
Proof.
  intros Hsp Hsug Htop Hlemma Hnone source_chars target_chars total Hsmall d.
  pose proof (char_lev_exact (text source_token) (text target_token) Hsmall) as Hd.
  split; [split; apply chars_cut|].
  split.
  { unfold d. rewrite Nat2Z.id. split; [apply lev_dist_edits|].
    intros n Hn. apply inj_le. now apply lev_dist_least. }
  split; [exact Hd|].
  unfold _get_one2one_tag. rewrite Hsp, Hsug.
  assert (E1 : top_differs lower (top :: rest) source_token = true).
  { simpl. apply negb_true_iff, String.eqb_neq, Htop. }
  assert (E2 : (lemma source_token =? lemma target_token)%Z = false)
    by now apply Z.eqb_neq.
  assert (E3 : existsb (fun aspell_suggestion =>
                          String.eqb (lower aspell_suggestion)
                                     (lower (text target_token)))
                       (top :: rest) = false).
  { apply not_true_is_false. intros H. apply existsb_exists in H.
    destruct H as (x & Hx & E). apply String.eqb_eq in E.
    now apply (Hnone x Hx). }
  rewrite E1, E2, E3.
  assert (E4 : relative_lev source_token target_token = fdiv (fmul 2.0 (Int d)) total).
  { unfold relative_lev, fmul, len. rewrite (num_is_to_float _ _ Hd).
    unfold total, source_chars, target_chars. now rewrite Nat2Z.inj_add. }
  rewrite E4.
  destruct (fdiv (fmul 2.0 (Int d)) total) as [r|e]; simpl.
  - destruct (PrimFloat.ltb r 0.3) eqn:Er.
    + split; [intros _; now exists r | reflexivity].
    + split.
      * intros [= E]. now apply two_sided_not_spell in E.
      * intros (r' & [= <-] & Hr). congruence.
  - split; [discriminate | intros (r & [=] & _)].
Qed.

Lemma one2one_spell_by_distance_witness :
  chars "małe" = ["m"; "a"; "ł"; "e"]
  /\ num_is (levenshtein_distance char_neq (chars "małe") (chars "male")) 1
  /\ (_get_one2one_tag ascii_lower (speller_of ["mole"; "mile"]) tok_male_pl tok_male
      = Ok "SPELL"
      <-> exists r, fdiv (fmul 2.0 (Int 1)) 8 = Ok r /\ PrimFloat.ltb r 0.3 = true)
  /\ _get_one2one_tag ascii_lower (speller_of ["mole"; "mile"]) tok_male_pl tok_male
     = Ok "SPELL".
Proof.
  split; [reflexivity|].
  assert (H : (Z.of_nat (List.length (chars (text tok_male_pl))
                         + List.length (chars (text tok_male))) < 2 ^ 53)%Z)
    by (vm_compute; reflexivity).
  pose proof (one2one_spell_by_distance ascii_lower (speller_of ["mole"; "mile"])
                (fun _ => ["mole"; "mile"]) "mole" ["mile"] tok_male_pl tok_male
                eq_refl eq_refl ltac:(discriminate) ltac:(discriminate)
                ltac:(intros s [<- | [<- | []]]; discriminate) H)
    as (_ & _ & Hd & Hiff).
  split; [exact Hd|]. split; [exact Hiff|]. reflexivity.
Defined.

(** The two sides of the test on concrete words: one edit in ten
    characters passes, three edits in eight do not; and the distance of
    two words counts characters, not bytes. *)
Example one2one_storr_store :
  _get_one2one_tag ascii_lower (speller_of ["stork"; "story"]) tok_storr tok_store
  = Ok "SPELL"
  /\ _get_one2one_tag ascii_lower (speller_of ["stork"]) tok_storr (word "drop" 42 NOUN)
     = Ok "NOUN"
  /\ char_lev "storr" "store" = Float 1
  /\ char_lev "małe" "male" = Float 1
  /\ (len "małe", String.length "małe") = (4%Z, 5%nat).
Proof. repeat split; reflexivity. Qed.

(* ================================================================= *)
(** ** The distance is never negative, and zero from a sequence to itself *)

Lemma add_num_nonneg (x c : num) :
  num_nonneg x -> num_nonneg c -> num_nonneg (add x c).
Proof.
  intros Hx Hc. destruct x as [a|f], c as [b|g]; simpl;
    try (apply float_of_Z_nonneg); now apply add_nonneg.
Qed.

Lemma add_zeros (x y : float) : is_zero x -> is_zero y -> is_zero (x + y).
Proof.
  rewrite !is_zero_spec, FloatAxioms.add_spec.
  destruct (Prim2SF x) as [s|s| |s m e]; try destruct s;
    destruct (Prim2SF y) as [s'|s'| |s' m' e']; try destruct s'; sf_decide.
Qed.

Section DistanceFacts.

Context {T : Type}.
Variable compare_func : T -> T -> num.

(** A cost is never negative, and comparing a token with itself costs zero. *)
Hypothesis cost_nonneg : forall x y, num_nonneg (compare_func x y).
Hypothesis cost_refl : forall x, is_zero (to_float (compare_func x x)).

Lemma matrix_nonneg xs ys i : (i <= List.length xs)%nat ->
  forall j, (j <= List.length ys)%nat ->
  num_nonneg (at_ (levenshtein_matrix compare_func xs ys) i j).
Proof.
  induction i as [|i IHi]; intros Hi j Hj.
  - rewrite matrix_cell_0_j by assumption. apply float_of_Z_nonneg.
  - destruct (nth_error xs i) as [x|] eqn:Hx;
      [|apply nth_error_None in Hx; lia].
    induction j as [|j IHj].
    + rewrite (matrix_cell_i_0 compare_func xs ys i x Hx). apply float_of_Z_nonneg.
    + destruct (nth_error ys j) as [y|] eqn:Hy;
        [|apply nth_error_None in Hy; lia].
      rewrite (matrix_cell_S_S compare_func xs ys i j x y Hx Hy).
      apply min3_nonneg.
      * apply add_float_nonneg; [apply IHi; lia | reflexivity].
      * apply add_float_nonneg; [apply IHj; lia | reflexivity].
      * apply add_num_nonneg; [apply IHi; lia | apply cost_nonneg].
Qed.

Lemma matrix_diagonal_zero xs i : (i <= List.length xs)%nat ->
  num_zero (at_ (levenshtein_matrix compare_func xs xs) i i).
Proof.
  induction i as [|i IH]; intros Hi.
  - rewrite matrix_cell_0_j by lia. exists 0%float. split; reflexivity.
  - destruct (nth_error xs i) as [x|] eqn:Hx;
      [|apply nth_error_None in Hx; lia].
    rewrite (matrix_cell_S_S compare_func xs xs i i x x Hx Hx).
    destruct (IH ltac:(lia)) as (z & -> & Hz).
    rewrite !add_float_r.
    assert (E : add (Float z) (compare_func x x)
                = Float (z + to_float (compare_func x x)))
      by (destruct (compare_func x x); reflexivity).
    rewrite E. apply min3_zero.
    + apply add_nonneg; [apply matrix_nonneg; lia | reflexivity].
    + apply add_nonneg; [apply matrix_nonneg; lia | reflexivity].
    + apply add_zeros; [exact Hz | apply cost_refl].
Qed.

End DistanceFacts.

Lemma char_neq_nonneg x y : num_nonneg (char_neq x y).
Proof. apply float_of_Z_nonneg. Qed.

Lemma char_neq_refl x : is_zero (to_float (char_neq x x)).
Proof. unfold char_neq. rewrite String.eqb_refl. reflexivity. Qed.

Lemma add_ge0 (x c : num) : num_ge0 x -> num_ge0 c -> num_ge0 (add x c).
Proof.
  intros Hx Hc. destruct x as [a|f], c as [b|g]; simpl in *; try lia;
    apply add_nonneg; auto using float_of_Z_nonneg.
Qed.

Lemma min3_ge0 a b c : num_ge0 a -> num_ge0 b -> num_ge0 c -> num_ge0 (min3 a b c).
Proof.
  intros Ha Hb Hc. unfold min3.
  destruct (ltb b a); destruct (ltb c _); assumption.
Qed.

(** With costs from zero on, every cell of the matrix is from zero on. *)
Lemma matrix_ge0 {T : Type} (compare_func : T -> T -> num) xs ys :
  (forall x y, num_ge0 (compare_func x y)) ->
  forall i, (i <= List.length xs)%nat ->
  forall j, (j <= List.length ys)%nat ->
  num_ge0 (at_ (levenshtein_matrix compare_func xs ys) i j).
Proof.
  intros Hcost. induction i as [|i IHi]; intros Hi j Hj.
  - rewrite matrix_cell_0_j by assumption. apply float_of_Z_nonneg.
  - destruct (nth_error xs i) as [x|] eqn:Hx;
      [|apply nth_error_None in Hx; lia].
    induction j as [|j IHj].
    + rewrite (matrix_cell_i_0 compare_func xs ys i x Hx). simpl. lia.
    + destruct (nth_error ys j) as [y|] eqn:Hy;
        [|apply nth_error_None in Hy; lia].
      rewrite (matrix_cell_S_S compare_func xs ys i j x y Hx Hy).
      apply min3_ge0.
      * apply add_ge0; [apply IHi; lia | reflexivity].
      * apply add_ge0; [apply IHj; lia | reflexivity].
      * apply add_ge0; [apply IHi; lia | apply Hcost].
Qed.

Lemma char_neq_ge0 x y : num_ge0 (char_neq x y).
Proof. unfold char_neq. destruct (negb (String.eqb x y)); simpl; lia. Qed.

(** X5: the character distance the one-to-one rule computes is never
    negative, whatever the lengths of the two texts: it is an int from
    zero on or a float from zero on (so never NaN); and the distance from
    a text to itself is the float zero. *)
Theorem char_lev_nonneg_zero :
  (forall a b, num_ge0 (char_lev a b))
  /\ (forall a, num_zero (char_lev a a)).
Proof.
  split.
  - intros a b. unfold char_lev. rewrite distance_is_corner.
    apply matrix_ge0; try lia.
    intros x y. apply char_neq_ge0.
  - intros a. unfold char_lev. rewrite distance_is_corner.
    apply matrix_diagonal_zero; try lia.
    + intros x y. apply char_neq_nonneg.
    + apply char_neq_refl.
Qed.

(** The distance of [ab] from the empty text and from [b]: two ints. *)
Example char_lev_ints :
  char_lev "ab" "" = Int 2 /\ char_lev "ab" "b" = Int 1.
Proof. split; reflexivity. Qed.

(* ================================================================= *)
(** ** Labels, and what classification changes *)

Lemma span_len_range (sp : Span) :
  (0 <= span_start sp <= span_end sp)%Z ->
  (span_end sp <= doc_len (span_doc sp))%Z ->
  span_len sp = Z.to_nat (span_end sp - span_start sp).
Proof.
  intros H1 H2. unfold span_len, span_tokens, doc_len in *.
  rewrite length_firstn, length_skipn. lia.
Qed.

Lemma deletion_insertion_range (src tgt : Doc) (e : EditSpan) :
  in_range src tgt e ->
  is_deletion e = (t_start e =? t_end e)%Z
  /\ is_insertion e = (s_start e =? s_end e)%Z.
Proof.
  intros (Hs & Ht & H1 & H2 & H3 & H4).
  unfold is_deletion, is_insertion, s_start, s_end, t_start, t_end in *.
  rewrite !span_len_range by (rewrite ?Hs, ?Ht; assumption).
  split.
  - destruct (Z.eqb_spec (span_start (target_span e)) (span_end (target_span e)));
      [apply Nat.eqb_eq | apply Nat.eqb_neq]; lia.
  - destruct (Z.eqb_spec (span_start (source_span e)) (span_end (source_span e)));
      [apply Nat.eqb_eq | apply Nat.eqb_neq]; lia.
Qed.

(** X6: whatever tag it is given, a span the aligner returns is labelled
    by its index ranges, and the three cases exclude each other: [U:]
    when the target range is empty (the source range is then not), [M:]
    when the source range is empty (the target range is then not), [R:]
    when neither is. *)
Theorem aligner_span_labels lower (src tgt : Doc) :
  Forall (fun e => forall tg,
    (t_start e = t_end e ->
     (s_start e < s_end e)%Z /\ get_label (with_tag e tg) = ("U:" ++ tg)%string)
    /\ (s_start e = s_end e ->
        (t_start e < t_end e)%Z /\ get_label (with_tag e tg) = ("M:" ++ tg)%string)
    /\ ((s_start e < s_end e)%Z -> (t_start e < t_end e)%Z ->
        get_label (with_tag e tg) = ("R:" ++ tg)%string))
    (get_edit_spans lower src tgt).
Proof.
  destruct (edit_spans_aligned lower src tgt) as (Hr & Hn & _ & _).
  rewrite Forall_forall in *. intros e He tg.
  specialize (Hr e He). specialize (Hn e He).
  assert (Hr' : in_range src tgt (with_tag e tg)) by exact Hr.
  destruct (deletion_insertion_range src tgt (with_tag e tg) Hr') as [Hd Hi].
  unfold get_label. rewrite Hd, Hi.
  change (t_start (with_tag e tg)) with (t_start e).
  change (t_end (with_tag e tg)) with (t_end e).
  change (s_start (with_tag e tg)) with (s_start e).
  change (s_end (with_tag e tg)) with (s_end e).
  unfold not_both_empty in Hn.
  split; [|split].
  - intros E. split; [lia|]. apply Z.eqb_eq in E. now rewrite E.
  - intros E. split; [lia|].
    replace (t_start e =? t_end e)%Z with false by (symmetry; apply Z.eqb_neq; lia).
    apply Z.eqb_eq in E. now rewrite E.
  - intros H1 H2.
    replace (t_start e =? t_end e)%Z with false by (symmetry; apply Z.eqb_neq; lia).
    replace (s_start e =? s_end e)%Z with false by (symmetry; apply Z.eqb_neq; lia).
    reflexivity.
Qed.

Lemma aligner_span_labels_witness :
  get_label (with_tag {| source_span := slice (doc_of []) 0 0;
                         target_span := slice (doc_of [tok_go; tok_will]) 0 2;
                         tag := UNK_TAG_NAME |} "VERB") = "M:VERB".
Proof.
  pose proof (aligner_span_labels ascii_lower (doc_of []) (doc_of [tok_go; tok_will]))
    as H.
  change (get_edit_spans ascii_lower (doc_of []) (doc_of [tok_go; tok_will]))
    with [{| source_span := slice (doc_of []) 0 0;
             target_span := slice (doc_of [tok_go; tok_will]) 0 2;
             tag := UNK_TAG_NAME |}] in H.
  apply Forall_inv in H.
  apply (proj1 (proj2 (H "VERB"))). reflexivity.
Defined.

Lemma classify_tag_in lower self e tg :
  classify_single_span lower self e = Ok tg -> In tg all_tags.
Proof.
  rewrite classify_cases. unfold all_tags.
  destruct (_is_orth_error _ _ _) eqn:E1; [intros [= <-]; simpl; tauto|].
  destruct (_is_wo_error _ _ _) eqn:E2; [intros [= <-]; simpl; tauto|].
  destruct (_is_punct_error _ _ _) eqn:E3; [intros [= <-]; simpl; tauto|].
  destruct (_is_orth_error lower (get_regular_tokens _) _) eqn:E4;
    [intros [= <-]; simpl; tauto|].
  intros H. apply in_or_app. right.
  apply (later_rule_tag_in lower self (cascade lower e) tg); [|exact H].
  now apply cascade_later.
Qed.

Lemma unk_not_a_tag : ~ In UNK_TAG_NAME all_tags.
Proof. intros H. not_a_tag H. Qed.

Lemma tag_spans_spec lower self spans : forall tagged,
  tag_spans lower self spans = Ok tagged ->
  Forall2 (fun e e' => e' = with_tag e (tag e')
                       /\ classify_single_span lower self e = Ok (tag e'))
          spans tagged.
Proof.
  induction spans as [|e rest IH]; simpl; intros tagged H.
  - injection H as <-. constructor.
  - destruct (classify_single_span lower self e) as [tg|err] eqn:E;
      simpl in H; [|discriminate].
    destruct (tag_spans lower self rest) as [rest'|err] eqn:E';
      simpl in H; [|discriminate].
    injection H as <-. constructor; [|now apply IH].
    split; [reflexivity | exact E].
Qed.

(** The invariant of the aligner reads the spans only, not the tags. *)
Lemma tiles_same_spans spans : forall spans' a b m n,
  Forall2 same_spans spans spans' ->
  tiles a b spans m n -> tiles a b spans' m n.
Proof.
  induction spans as [|e rest IH]; intros spans' a b m n H;
    inversion H as [|? e' ? rest' [Hs Ht] Hrest]; subst; simpl; [tauto|].
  unfold s_start, s_end, t_start, t_end in *. rewrite <- Hs, <- Ht.
  intros (H1 & H2 & H3 & H4 & H5). repeat split; try assumption.
  now apply (IH rest').
Qed.

Lemma sorted_same_spans spans : forall spans',
  Forall2 same_spans spans spans' ->
  StronglySorted before spans -> StronglySorted before spans'.
Proof.
  induction spans as [|e rest IH]; intros spans' H Hs;
    inversion H as [|? e' ? rest' [Hs1 Ht1] Hrest]; subst; [constructor|].
  inversion Hs as [|? ? Hs' Hall]; subst. constructor; [now apply IH|].
  clear IH H Hs Hs'. induction Hrest as [|x x' l l' [Hx1 Hx2] _ IH'];
    [constructor|].
  inversion Hall; subst. constructor; [|now apply IH'].
  unfold before, s_start, s_end, t_start, t_end in *.
  now rewrite <- Hs1, <- Ht1, <- Hx1, <- Hx2.
Qed.

Lemma forall_same_spans (P : EditSpan -> Prop) spans spans' :
  (forall e e', same_spans e e' -> P e -> P e') ->
  Forall2 same_spans spans spans' -> Forall P spans -> Forall P spans'.
Proof.
  intros HP H. induction H as [|e e' l l' He _ IH]; intros HF; [constructor|].
  inversion HF; subst. constructor; [now apply (HP e) | now apply IH].
Qed.

Lemma invariant_same_spans src tgt spans spans' :
  Forall2 same_spans spans spans' ->
  aligner_invariant src tgt spans -> aligner_invariant src tgt spans'.
Proof.
  intros H (H1 & H2 & H3 & H4). repeat split.
  - apply (forall_same_spans _ spans); try assumption.
    intros e e' [Hs Ht]. unfold in_range, s_start, s_end, t_start, t_end.
    now rewrite <- Hs, <- Ht.
  - apply (forall_same_spans _ spans); try assumption.
    intros e e' [Hs Ht]. unfold not_both_empty, s_start, s_end, t_start, t_end.
    now rewrite <- Hs, <- Ht.
  - now apply (sorted_same_spans spans).
  - now apply (tiles_same_spans spans).
Qed.

(** X7: [classify] never fails and changes nothing but the tags: it
    returns the spans of the aligner, in the same order, each with the tag
    [classify_single_span] gives it; every tag is one of the tags of the
    cascade, so none is left at the default UNK; and the spans still
    satisfy the invariant of the aligner. *)
Theorem classify_tags_only lower self (src tgt : Doc) :
  exists tagged,
    classify lower self src tgt = Ok tagged
    /\ Forall2 (fun e e' => e' = with_tag e (tag e')
                            /\ classify_single_span lower self e = Ok (tag e')
                            /\ In (tag e') all_tags
                            /\ tag e' <> UNK_TAG_NAME)
               (get_edit_spans lower src tgt) tagged
    /\ aligner_invariant src tgt tagged.
Proof.
  unfold classify.
  destruct (tag_spans_total lower self (get_edit_spans lower src tgt))
    as (tagged & E & _).
  exists tagged. split; [exact E|].
  pose proof (tag_spans_spec lower self _ tagged E) as H.
  split.
  - eapply Forall2_impl; [|exact H]. intros e e' [H1 H2].
    pose proof (classify_tag_in lower self e (tag e') H2) as Hin.
    repeat split; try assumption.
    intros Hu. rewrite Hu in Hin. now apply unk_not_a_tag.
  - apply (invariant_same_spans src tgt (get_edit_spans lower src tgt));
      [|apply edit_spans_aligned].
    eapply Forall2_impl; [|exact H]. intros e e' [-> _]. split; reflexivity.
Qed.

(* ================================================================= *)
(** ** The one-sided rule, the nominal rule and the speller *)

Lemma UPOS_name_inj (a b : UPOS) : UPOS_name a = UPOS_name b -> a = b.
Proof. destruct a, b; intros H; try reflexivity; discriminate H. Qed.

Lemma nodup_single (l : list string) (x : string) :
  nodup string_dec l = [x] -> forall y, In y l -> y = x.
Proof.
  intros H y Hy. apply (nodup_In string_dec) in Hy. rewrite H in Hy.
  destruct Hy as [<- | []]. reflexivity.
Qed.

(** The set of tags has one element exactly when the span is not empty
    and its tokens share one tag. *)
Lemma pos_set_single tokens :
  List.length (pos_set_of tokens) = 1%nat
  <-> tokens <> [] /\ exists p, Forall (fun t => pos t = p) tokens.
Proof.
  split.
  - intros H. destruct tokens as [|t0 rest]; [discriminate H|].
    split; [discriminate|]. exists (pos t0).
    unfold pos_set_of in H.
    destruct (nodup string_dec (map pos_ (t0 :: rest))) as [|x [|y l]] eqn:E;
      try discriminate H.
    pose proof (nodup_single _ x E) as Hall.
    assert (Hx : pos_ t0 = x) by (apply Hall; now left).
    apply Forall_forall. intros t Ht. apply UPOS_name_inj.
    change (pos_ t = pos_ t0). rewrite Hx. apply Hall.
    now apply in_map.
  - intros (Hne & p & Hp). now rewrite (pos_set_of_shared tokens p Hne Hp).
Qed.

(** X8: the one-sided rule.  A span of AUX tokens only (the empty span
    among them) gets VERB:TENSE; a non-empty span whose tokens share a
    tag other than AUX gets this tag; a span with more than one tag gets
    VERB when it is verbal and OTHER when it is not. *)
Theorem one_sided_tag_cases (tokens : list Token) :
  (all_aux tokens -> _get_one_sided_tag tokens = "VERB:TENSE")
  /\ (forall p, p <> AUX -> tokens <> [] ->
                Forall (fun t => pos t = p) tokens ->
                _get_one_sided_tag tokens = UPOS_name p)
  /\ (~ (exists p, Forall (fun t => pos t = p) tokens) ->
      (verbal tokens -> _get_one_sided_tag tokens = "VERB")
      /\ (~ verbal tokens -> _get_one_sided_tag tokens = "OTHER")).
Proof.
  unfold _get_one_sided_tag. split; [|split].
  - intros H. apply is_aux_span_spec in H. now rewrite H.
  - intros p Hp Hne Hall.
    assert (E : _is_aux_span tokens = false).
    { apply not_true_is_false. rewrite is_aux_span_spec. intros Ha.
      destruct tokens as [|t rest]; [congruence|].
      inversion Ha; inversion Hall; subst. congruence. }
    rewrite E, (pos_set_of_shared tokens p Hne Hall). reflexivity.
  - intros Hno.
    assert (E : _is_aux_span tokens = false).
    { apply not_true_is_false. rewrite is_aux_span_spec. intros Ha.
      apply Hno. now exists AUX. }
    assert (E1 : (List.length (pos_set_of tokens) =? 1)%nat = false).
    { apply Nat.eqb_neq. intros H. apply pos_set_single in H.
      destruct H as [_ H]. now apply Hno. }
    rewrite E, E1. split; intros Hv.
    + apply is_verbal_span_spec in Hv. now rewrite Hv.
    + destruct (_is_verbal_span tokens) eqn:E2; [|reflexivity].
      apply is_verbal_span_spec in E2. contradiction.
Qed.

Lemma one_sided_tag_cases_witness :
  _get_one_sided_tag [tok_is; tok_was] = "VERB:TENSE"
  /\ _get_one_sided_tag [tok_three] = "NUM"
  /\ _get_one_sided_tag [tok_will; tok_go] = "VERB"
  /\ _get_one_sided_tag [tok_three; tok_go] = "OTHER".
Proof.
  assert (Hno : forall a b, pos a <> pos b ->
                  ~ (exists p, Forall (fun t => pos t = p) [a; b])).
  { intros a b Hab (p & Hp). inversion Hp as [|? ? Ha Hp']; subst.
    inversion Hp' as [|? ? Hb _]; subst. congruence. }
  split; [|split; [|split]].
  - apply (proj1 (one_sided_tag_cases [tok_is; tok_was])). repeat constructor.
  - apply (proj1 (proj2 (one_sided_tag_cases [tok_three])) NUM);
      [discriminate | discriminate | repeat constructor].
  - apply (proj1 (proj2 (proj2 (one_sided_tag_cases [tok_will; tok_go]))
                    (Hno tok_will tok_go ltac:(discriminate)))).
    apply is_verbal_span_spec. reflexivity.
  - apply (proj2 (proj2 (proj2 (one_sided_tag_cases [tok_three; tok_go]))
                    (Hno tok_three tok_go ltac:(discriminate)))).
    intros H. apply is_verbal_span_spec in H. discriminate H.
Defined.

Lemma nominal_not_aux tokens : nominal tokens -> _is_aux_span tokens = false.
Proof.
  intros [_ H]. apply not_true_is_false. rewrite is_aux_span_spec.
  intros Ha. apply Exists_exists in H. destruct H as (t & Ht & E).
  unfold all_aux in Ha. rewrite Forall_forall in Ha.
  specialize (Ha t Ht). congruence.
Qed.

Lemma noun_loop_num pairs :
  noun_loop pairs = "NOUN:NUM"
  <-> Exists (fun p => _morph_match (fst p) (snd p) "Number" = false) pairs.
Proof.
  induction pairs as [|[s t] rest IH]; simpl.
  - split; [discriminate | intros H; inversion H].
  - destruct (_morph_match s t "Number") eqn:E; simpl.
    + rewrite IH. split; [now right|].
      intros H. inversion H as [? ? H0|? ? H0]; subst; [|assumption].
      simpl in H0. congruence.
    + split; [now left | reflexivity].
Qed.

(** X9: when both spans are nominal the two-sided rule returns NOUN:NUM
    exactly when some positionally paired same-lemma NOUN pair differs in
    Number (here any pair counts, whatever its position), and NOUN
    otherwise. *)
Theorem two_sided_nominal (source target : list Token) :
  nominal source -> nominal target ->
  let pairs := _match_up_pos_tokens source target "NOUN" in
  let tg := _get_two_sided_tag source target in
  (tg = "NOUN:NUM"
   <-> Exists (fun p => _morph_match (fst p) (snd p) "Number" = false) pairs)
  /\ (tg = "NOUN"
      <-> Forall (fun p => _morph_match (fst p) (snd p) "Number" = true) pairs).
Proof.
  intros Hs Ht pairs tg.
  assert (E : tg = noun_loop pairs).
  { unfold tg, _get_two_sided_tag. rewrite (nominal_not_aux source Hs). simpl.
    apply is_noun_span_spec in Hs. apply is_noun_span_spec in Ht.
    now rewrite Hs, Ht. }
  rewrite E. split; [apply noun_loop_num|].
  split.
  - intros H. apply Forall_forall. intros p Hp.
    destruct (_morph_match (fst p) (snd p) "Number") eqn:Em; [reflexivity|].
    assert (Hx : noun_loop pairs = "NOUN:NUM").
    { apply noun_loop_num. apply Exists_exists. now exists p. }
    rewrite H in Hx. discriminate Hx.
  - intros H. destruct (noun_loop_in pairs) as [Hx|Hx]; [|exact Hx].
    apply noun_loop_num in Hx. apply Exists_exists in Hx.
    destruct Hx as (p & Hp & Em). rewrite Forall_forall in H.
    rewrite (H p Hp) in Em. discriminate Em.
Qed.

Lemma two_sided_nominal_witness :
  _get_two_sided_tag [tok_the; tok_cat] [tok_the; tok_cats] = "NOUN:NUM"
  /\ _get_two_sided_tag [tok_the; tok_cat] [tok_cat] = "NOUN".
Proof.
  split.
  - apply (proj1 (two_sided_nominal [tok_the; tok_cat] [tok_the; tok_cats]
                    ltac:(apply is_noun_span_spec; reflexivity)
                    ltac:(apply is_noun_span_spec; reflexivity))).
    left. reflexivity.
  - apply (proj2 (two_sided_nominal [tok_the; tok_cat] [tok_cat]
                    ltac:(apply is_noun_span_spec; reflexivity)
                    ltac:(apply is_noun_span_spec; reflexivity))).
    repeat constructor.
Defined.

Lemma one2one_no_speller lower self s t :
  _aspell self = None ->
  _get_one2one_tag lower self s t
  = if (lemma s =? lemma t)%Z && negb (UPOS_eqb (pos s) (pos t))
    then Ok "MORPH" else Ok (_get_two_sided_tag [s] [t]).
Proof. intros H. unfold _get_one2one_tag. now rewrite H. Qed.

Lemma no_speller_tag_in lower self e tg :
  _aspell self = None ->
  classify_single_span lower self e = Ok tg -> In tg no_speller_tags.
Proof.
  intros Hn. unfold classify_single_span, no_speller_tags.
  destruct (_is_orth_error _ _ _); [intros [= <-]; simpl; tauto|].
  destruct (_is_wo_error _ _ _); [intros [= <-]; simpl; tauto|].
  destruct (_is_punct_error _ _ _); [intros [= <-]; simpl; tauto|].
  destruct (_is_orth_error lower (get_regular_tokens _) _);
    [intros [= <-]; simpl; tauto|].
  assert (H1 : forall l, In (_get_one_sided_tag l)
                 (["ORTH"; "WO"; "PUNCT"; "NUM"; "MORPH"]
                    ++ one_sided_tags ++ two_sided_tags)).
  { intros l. apply in_or_app. right. apply in_or_app. left.
    apply one_sided_tag_in. }
  assert (H2 : forall l l', In (_get_two_sided_tag l l')
                 (["ORTH"; "WO"; "PUNCT"; "NUM"; "MORPH"]
                    ++ one_sided_tags ++ two_sided_tags)).
  { intros l l'. apply in_or_app. right. apply in_or_app. right.
    apply two_sided_tag_in. }
  destruct (get_regular_tokens _) as [|s [|s' ss]];
    destruct (get_regular_tokens _) as [|t [|t' ts]];
    try (intros [= <-]; first [apply H1 | apply H2]).
  rewrite (one2one_no_speller lower self s t Hn).
  destruct (_ && _); intros [= <-]; [simpl; tauto | apply H2].
Qed.

(** X10: a classifier made without an aspell language has no speller
    after [initialize], and then no span is ever tagged SPELL, NOUN:INFL
    or VERB:INFL: the Levenshtein test of the one-to-one rule is behind
    the test on the speller's suggestions and is never reached.  So is
    the classifier of an annotator made without an aspell language. *)
Theorem no_speller_no_spell lower load_spacy aspell_Speller
        (spacy_model : string) (edit_span : EditSpan) :
  let self := GenericClassifier_initialize aspell_Speller
                (GenericClassifier_new None) in
  _aspell self = None
  /\ _classifier (initialize load_spacy aspell_Speller
                             (Annotator_new spacy_model None)) = Some self
  /\ classify_single_span lower self edit_span <> Ok "SPELL"
  /\ classify_single_span lower self edit_span <> Ok "NOUN:INFL"
  /\ classify_single_span lower self edit_span <> Ok "VERB:INFL".
Proof.
  intros self.
  assert (Hn : _aspell self = None) by reflexivity.
  split; [exact Hn|]. split; [reflexivity|].
  repeat split; intros E;
    apply (no_speller_tag_in lower self edit_span _ Hn) in E; not_a_tag E.
Qed.

(** X11: the one-to-one rule when the speller's first suggestion differs
    from the source text up to case.  With the same lemma on both sides
    the tag is NOUN:INFL for two nouns, VERB:INFL for two verbs and MORPH
    in every other case; with different lemmas it is SPELL as soon as one
    suggestion equals the target text up to case. *)
Theorem one2one_speller_cases lower self speller top rest
        (source_token target_token : Token) :
  _aspell self = Some speller ->
  speller (text source_token) = top :: rest ->
  lower top <> lower (text source_token) ->
  let r := _get_one2one_tag lower self source_token target_token in
  (lemma source_token = lemma target_token ->
   (pos source_token = NOUN -> pos target_token = NOUN -> r = Ok "NOUN:INFL")
   /\ (pos source_token = VERB -> pos target_token = VERB -> r = Ok "VERB:INFL")
   /\ (pos source_token <> pos target_token
       \/ (pos source_token <> NOUN /\ pos source_token <> VERB) ->
       r = Ok "MORPH"))
  /\ (lemma source_token <> lemma target_token ->
      (exists suggestion, In suggestion (top :: rest)
                          /\ lower suggestion = lower (text target_token)) ->
      r = Ok "SPELL").
Proof.
  intros Hsp Hsug Htop r. unfold r, _get_one2one_tag. rewrite Hsp, Hsug.
  assert (E1 : top_differs lower (top :: rest) source_token = true).
  { simpl. apply negb_true_iff, String.eqb_neq, Htop. }
  rewrite E1. split.
  - intros Hl. apply Z.eqb_eq in Hl. rewrite Hl. unfold pos_. repeat split.
    + intros -> ->. reflexivity.
    + intros -> ->. reflexivity.
    + intros [Hd | [Hn Hv]].
      * destruct (pos source_token), (pos target_token);
          try reflexivity; now destruct Hd.
      * destruct (pos source_token), (pos target_token);
          try reflexivity; try (now destruct Hn); now destruct Hv.
  - intros Hl (sug & Hin & Hs). apply Z.eqb_neq in Hl. rewrite Hl.
    assert (E : existsb (fun aspell_suggestion =>
                           String.eqb (lower aspell_suggestion)
                                      (lower (text target_token)))
                        (top :: rest) = true).
    { apply existsb_exists. exists sug. split; [exact Hin|].
      now apply String.eqb_eq. }
    now rewrite E.
Qed.

Lemma one2one_speller_cases_witness :
  _get_one2one_tag ascii_lower (speller_of ["god"; "goes"]) tok_goed tok_went
  = Ok "VERB:INFL"
  /\ _get_one2one_tag ascii_lower (speller_of ["stork"; "Store"]) tok_storr tok_store
     = Ok "SPELL".
Proof.
  split.
  - apply (proj1 (proj2 (proj1
             (one2one_speller_cases ascii_lower (speller_of ["god"; "goes"])
                (fun _ => ["god"; "goes"]) "god" ["goes"] tok_goed tok_went
                eq_refl eq_refl ltac:(discriminate)) eq_refl))); reflexivity.
  - apply (proj2
             (one2one_speller_cases ascii_lower (speller_of ["stork"; "Store"])
                (fun _ => ["stork"; "Store"]) "stork" ["Store"] tok_storr tok_store
                eq_refl eq_refl ltac:(discriminate))).
    + discriminate.
    + exists "Store". split; [simpl; tauto | reflexivity].
Defined.

(* ================================================================= *)
(** ** The annotator: one classified target sentence per target *)

Lemma annotate_loop_targets lower nlp classifier targets : forall annotation result_annotation,
  annotate_loop lower nlp classifier targets annotation = Ok result_annotation ->
  source_doc result_annotation = source_doc annotation
  /\ exists added,
      target_sentences result_annotation = target_sentences annotation ++ added
      /\ Forall2 (fun target_sentence ts =>
                    doc ts = nlp target_sentence
                    /\ classify lower classifier (source_doc annotation)
                                (nlp target_sentence) = Ok (edit_spans ts))
                 targets added.
Proof.
  induction targets as [|t rest IH]; intros annotation res H; simpl in H.
  - injection H as <-. split; [reflexivity|]. exists [].
    split; [now rewrite app_nil_r | constructor].
  - destruct (classify lower classifier (source_doc annotation) (nlp t))
      as [spans|err] eqn:E; simpl in H; [|discriminate].
    apply IH in H. simpl in H. destruct H as (Hs & added & Ha & Hf).
    split; [exact Hs|].
    exists ({| doc := nlp t; edit_spans := spans |} :: added). split.
    + rewrite Ha, <- app_assoc. reflexivity.
    + constructor; [split; [reflexivity | exact E] | exact Hf].
Qed.

(** X12: after [initialize], [annotate] on a sequence of strings returns
    the annotation whose source is the pipeline's document of the source
    sentence and whose target sentences are, in the order of the strings,
    the pipeline's document of each string with the spans [classify]
    returns for the source and that document. *)
Theorem annotate_per_target lower load_spacy aspell_Speller
        (self : Annotator) (source_sentence : string) (targets : list string) :
  let nlp := load_spacy (_spacy_model self) in
  let classifier := GenericClassifier_initialize aspell_Speller
                      (GenericClassifier_new (_annotator_aspell_lang self)) in
  exists annotation,
    annotate lower (initialize load_spacy aspell_Speller self)
             source_sentence (TargetsSeq targets) = Ok annotation
    /\ source_doc annotation = nlp source_sentence
    /\ Forall2 (fun target_sentence ts =>
                  doc ts = nlp target_sentence
                  /\ classify lower classifier (nlp source_sentence)
                              (nlp target_sentence) = Ok (edit_spans ts))
               targets (target_sentences annotation).
Proof.
  intros nlp classifier. unfold annotate, initialize. cbn [_initialized negb _nlp _classifier].
  fold nlp classifier.
  destruct (annotate_loop_total lower nlp classifier targets
              {| source_doc := nlp source_sentence; target_sentences := [] |})
    as (res & E & _).
  exists res. split; [exact E|].
  apply annotate_loop_targets in E. simpl in E.
  destruct E as (Hs & added & Ha & Hf). rewrite Ha. auto.
Qed.

(* ================================================================= *)
(** ** The tagged-corruption formatter *)

Lemma tsv_target_step_lines source_text tsv_lines target_sentence :
  tsv_target_step source_text tsv_lines target_sentence
  = tsv_lines
    ++ map (fun edit_span =>
              String.concat (String tab EmptyString)
                [get_label edit_span; doc_text (doc target_sentence); source_text])
           (edit_spans target_sentence).
Proof. unfold tsv_target_step. apply fold_append_lines. Qed.

Lemma tsv_fold_lines source_text targets : forall tsv_lines,
  fold_left (tsv_target_step source_text) targets tsv_lines
  = tsv_lines
    ++ flat_map (fun target_sentence =>
                   map (fun edit_span =>
                          String.concat (String tab EmptyString)
                            [get_label edit_span; doc_text (doc target_sentence);
                             source_text])
                       (edit_spans target_sentence))
                targets.
Proof.
  induction targets as [|ts rest IH]; intros tsv_lines; simpl.
  - now rewrite app_nil_r.
  - rewrite IH, tsv_target_step_lines. now rewrite <- app_assoc.
Qed.

Lemma flat_map_map_length {A B C} (g : A -> list B) (h : A -> B -> C) (l : list A) :
  List.length (flat_map (fun a => map (h a) (g a)) l)
  = list_sum (map (fun a => List.length (g a)) l).
Proof.
  induction l as [|a l IH]; simpl; [reflexivity|].
  now rewrite length_app, length_map, IH.
Qed.

Lemma flat_map_map_nil {A B C} (g : A -> list B) (h : A -> B -> C) (l : list A) :
  Forall (fun a => g a = []) l -> flat_map (fun a => map (h a) (g a)) l = [].
Proof.
  induction 1 as [|a l Ha _ IH]; simpl; [reflexivity|]. now rewrite Ha, IH.
Qed.

(** X13: what the tagged-corruption formatter returns, for every
    annotation: one line per edit span, target after target, each line
    the label, the target text and the source text between tabs, the
    lines joined by newlines (none after the last line).  There are as
    many lines as edit spans in all, and an annotation without any edit
    span gives the empty text (no no-op line, unlike the M2 formatters). *)
Theorem tsv_lines_per_span (annotation : Annotation) :
  let lines :=
    flat_map (fun target_sentence =>
                map (fun edit_span =>
                       (get_label edit_span ++ String tab EmptyString
                          ++ doc_text (doc target_sentence) ++ String tab EmptyString
                          ++ doc_text (source_doc annotation))%string)
                    (edit_spans target_sentence))
             (target_sentences annotation) in
  TSVTaggedCorruptionFormatter_format annotation
  = String.concat (String nl EmptyString) lines
  /\ List.length lines
     = list_sum (map (fun target_sentence =>
                        List.length (edit_spans target_sentence))
                     (target_sentences annotation))
  /\ (Forall (fun target_sentence => edit_spans target_sentence = [])
             (target_sentences annotation) ->
      TSVTaggedCorruptionFormatter_format annotation = "").
Proof.
  intros lines.
  assert (E : TSVTaggedCorruptionFormatter_format annotation
              = String.concat (String nl EmptyString) lines).
  { unfold TSVTaggedCorruptionFormatter_format, TSV_lines.
    rewrite tsv_fold_lines. reflexivity. }
  split; [exact E|]. split.
  - apply flat_map_map_length.
  - intros H. rewrite E. unfold lines. now rewrite flat_map_map_nil.
Qed.

Lemma tsv_lines_per_span_witness :
  TSVTaggedCorruptionFormatter_format
    {| source_doc := doc_of [tok_goed];
       target_sentences := [{| doc := doc_of [tok_goed]; edit_spans := [] |}] |}
  = "".
Proof.
  apply (proj2 (proj2 (tsv_lines_per_span
           {| source_doc := doc_of [tok_goed];
              target_sentences :=
                [{| doc := doc_of [tok_goed]; edit_spans := [] |}] |}))).
  repeat constructor.
Defined.

(** One replacement, and two targets with three spans in all: three
    lines, a newline between them and none at the end. *)
Example tsv_goed_went :
  TSVTaggedCorruptionFormatter_format
    {| source_doc := doc_of [tok_goed];
       target_sentences :=
         [{| doc := doc_of [tok_went];
             edit_spans := [with_tag (span_of [tok_goed] [tok_went]) "VERB:INFL"] |}] |}
  = ("R:VERB:INFL" ++ String tab "went" ++ String tab "goed")%string
  /\ TSVTaggedCorruptionFormatter_format
       {| source_doc := doc_of [tok_goed];
          target_sentences :=
            [{| doc := doc_of [tok_went];
                edit_spans := [with_tag (span_of [tok_goed] [tok_went]) "VERB:INFL";
                               with_tag (span_of [] [tok_went]) "VERB"] |};
             {| doc := doc_of [tok_the];
                edit_spans := [with_tag (span_of [tok_goed] []) "VERB"] |}] |}
     = ("R:VERB:INFL" ++ String tab "went" ++ String tab "goed" ++ String nl
          ("M:VERB" ++ String tab "went" ++ String tab "goed" ++ String nl
             ("U:VERB" ++ String tab "the" ++ String tab "goed")))%string.
Proof. split; reflexivity. Qed.

(* ================================================================= *)
(** ** The command-line tool *)

Lemma split_not_nil sep s : split sep s <> [].
Proof.
  destruct s as [|c rest]; simpl; [discriminate|].
  destruct (Ascii.eqb c sep); [discriminate|].
  destruct (split sep rest); discriminate.
Qed.

Lemma split_length sep s :
  List.length (split sep s) = S (count_char sep s).
Proof.
  induction s as [|c rest IH]; simpl; [reflexivity|].
  destruct (Ascii.eqb c sep); simpl; [now rewrite IH|].
  destruct (split sep rest) as [|h t] eqn:E; [now destruct (split_not_nil sep rest)|].
  simpl in *. exact IH.
Qed.

(** [sep.join(s.split(sep)) == s]. *)
Lemma split_join sep s :
  String.concat (String sep EmptyString) (split sep s) = s.
Proof.
  induction s as [|c rest IH]; simpl; [reflexivity|].
  destruct (Ascii.eqb_spec c sep) as [->|Hc].
  - destruct (split sep rest) as [|h t] eqn:E; [now destruct (split_not_nil sep rest)|].
    change (String sep (String.concat (String sep EmptyString) (h :: t))
            = String sep rest).
    now rewrite IH.
  - destruct (split sep rest) as [|h t] eqn:E; [now destruct (split_not_nil sep rest)|].
    destruct t as [|h' t'].
    + simpl in *. now rewrite IH.
    + change (String c (String.concat (String sep EmptyString) (h :: h' :: t'))
              = String c rest).
      now rewrite IH.
Qed.

Section CliFacts.

Variable lower : string -> string.
Variable load_spacy : string -> string -> Doc.
Variable aspell_Speller : string -> string -> list string.
Variable Span_text : Span -> option string.
Variables Span_start_char Span_end_char : Span -> Z.
Variable repr : string -> string.

Let format := AnnotationFormatter_format Span_text Span_start_char Span_end_char.
Let line_of := annotate_line lower Span_text Span_start_char Span_end_char.

Lemma annotate_line_fields (self : Annotator) formatter line :
  exists source_sentence targets annotation,
    split tab (strip nl line) = source_sentence :: targets
    /\ annotate lower (initialize load_spacy aspell_Speller self)
                source_sentence (TargetsSeq targets) = Ok annotation
    /\ line_of (initialize load_spacy aspell_Speller self) formatter line
       = inr (format formatter annotation).
Proof.
  unfold line_of, annotate_line.
  destruct (split tab (strip nl line)) as [|source_sentence targets] eqn:E;
    [now destruct (split_not_nil tab (strip nl line))|].
  destruct (annotate_loop_total lower (load_spacy (_spacy_model self))
              (GenericClassifier_initialize aspell_Speller
                 (GenericClassifier_new (_annotator_aspell_lang self)))
              targets
              {| source_doc := load_spacy (_spacy_model self) source_sentence;
                 target_sentences := [] |}) as (res & Hres & _).
  exists source_sentence, targets, res. split; [reflexivity|].
  assert (Ha : annotate lower (initialize load_spacy aspell_Speller self)
                        source_sentence (TargetsSeq targets) = Ok res)
    by exact Hres.
  split; [exact Ha|]. now rewrite Ha.
Qed.

Lemma annotate_lines_all (self : Annotator) formatter lines : forall printed,
  exists texts,
    annotate_lines lower Span_text Span_start_char Span_end_char
                   (initialize load_spacy aspell_Speller self) formatter lines printed
    = (printed ++ texts, None)
    /\ Forall2 (fun line text =>
                  line_of (initialize load_spacy aspell_Speller self) formatter line
                  = inr text)
               lines texts.
Proof.
  induction lines as [|line rest IH]; intros printed; simpl.
  - exists []. split; [now rewrite app_nil_r | constructor].
  - destruct (annotate_line_fields self formatter line) as (s & ts & a & _ & _ & E).
    unfold line_of in E. rewrite E.
    destruct (IH (printed ++ [format formatter a])) as (texts & -> & Hf).
    exists (format formatter a :: texts). split.
    + now rewrite <- app_assoc.
    + constructor; [exact E | exact Hf].
Qed.

End CliFacts.

(** X14: a line of the standard input is cut at its tabs, after the
    newlines at its two ends are taken off: the first field is the source
    sentence and the other fields, as many as the line has tabs, are the
    targets, always passed as a list.  So on an initialized annotator a
    line never raises the index error or the invalid-argument error: it
    prints the formatted annotation of these fields. *)
Theorem annotate_line_runs lower load_spacy aspell_Speller
        Span_text Span_start_char Span_end_char
        (self : Annotator) (formatter : AnnotationFormatter) (line : string) :
  exists source_sentence targets annotation,
    split tab (strip nl line) = source_sentence :: targets
    /\ String.concat (String tab EmptyString) (source_sentence :: targets)
       = strip nl line
    /\ List.length targets = count_char tab (strip nl line)
    /\ annotate lower (initialize load_spacy aspell_Speller self)
                source_sentence (TargetsSeq targets) = Ok annotation
    /\ List.length (target_sentences annotation) = count_char tab (strip nl line)
    /\ annotate_line lower Span_text Span_start_char Span_end_char
                     (initialize load_spacy aspell_Speller self) formatter line
       = inr (AnnotationFormatter_format Span_text Span_start_char Span_end_char
                                         formatter annotation).
Proof.
  destruct (annotate_line_fields lower load_spacy aspell_Speller
              Span_text Span_start_char Span_end_char self formatter line)
    as (s & ts & a & Hsplit & Ha & Hl).
  exists s, ts, a.
  pose proof (split_length tab (strip nl line)) as Hlen.
  rewrite Hsplit in Hlen. simpl in Hlen.
  assert (Hts : List.length ts = count_char tab (strip nl line)) by lia.
  repeat split; try assumption.
  - rewrite <- Hsplit. apply split_join.
  - unfold annotate, initialize in Ha. cbn [_initialized negb _nlp _classifier] in Ha.
    apply annotate_loop_targets in Ha. simpl in Ha.
    destruct Ha as (_ & added & -> & Hf).
    apply Forall2_length in Hf. lia.
Qed.

(** X15: the outcomes of the tool.  With more than the program name
    on the command line it raises the usage error before any line is
    read.  Otherwise, the output format being one of the values of its
    flag, it prints one text for every line of the input, in order, and
    raises nothing: the factory returns a formatter exactly for the
    values of the flag, and raises its value error, with the name in the
    message, for every other name. *)
Theorem main_outcomes lower load_spacy aspell_Speller
        Span_text Span_start_char Span_end_char repr
        (argv : list string) (spacy_model output_format : string)
        (stdin : list string) :
  let run := main lower load_spacy aspell_Speller
                  Span_text Span_start_char Span_end_char repr
                  argv spacy_model output_format stdin in
  let annotator := initialize load_spacy aspell_Speller
                     (Annotator_new spacy_model (Some (substring 0 2 spacy_model))) in
  ((1 < List.length argv)%nat ->
   run = ([], Some (UsageError "Too many command-line arguments.")))
  /\ ((List.length argv <= 1)%nat ->
      In output_format _OUTPUT_FORMAT_values ->
      exists formatter printed,
        make_formatter repr output_format = Ok formatter
        /\ run = (printed, None)
        /\ Forall2 (fun line text =>
                      annotate_line lower Span_text Span_start_char Span_end_char
                                    annotator formatter line = inr text)
                   stdin printed)
  /\ (forall formatter_name,
      (In formatter_name _OUTPUT_FORMAT_values ->
       exists formatter, make_formatter repr formatter_name = Ok formatter)
      /\ (~ In formatter_name _OUTPUT_FORMAT_values ->
          make_formatter repr formatter_name
          = Raise (ValueError ("Unknown formatter name " ++ repr formatter_name)))).
Proof.
  assert (Hmk : forall formatter_name,
      (In formatter_name _OUTPUT_FORMAT_values ->
       exists formatter, make_formatter repr formatter_name = Ok formatter)
      /\ (~ In formatter_name _OUTPUT_FORMAT_values ->
          make_formatter repr formatter_name
          = Raise (ValueError ("Unknown formatter name " ++ repr formatter_name)))).
  { intros name. split.
    - intros Hin. simpl in Hin.
      destruct Hin as [<- | [<- | [<- | []]]]; eexists; reflexivity.
    - intros Hn. unfold make_formatter.
      destruct (String.eqb_spec name "M2_CHAR") as [->|_];
        [exfalso; apply Hn; simpl; tauto|].
      destruct (String.eqb_spec name "M2_TOK") as [->|_];
        [exfalso; apply Hn; simpl; tauto|].
      destruct (String.eqb_spec name "TSV_TAGGED_CORRUPTION") as [->|_];
        [exfalso; apply Hn; simpl; tauto|].
      reflexivity. }
  intros run annotator. unfold run, main. split; [|split; [|exact Hmk]].
  - intros H. apply Nat.ltb_lt in H. now rewrite H.
  - intros H Hin. apply Nat.ltb_ge in H. rewrite H.
    destruct (proj1 (Hmk output_format) Hin) as [formatter Hf]. rewrite Hf.
    destruct (annotate_lines_all lower load_spacy aspell_Speller
                Span_text Span_start_char Span_end_char
                (Annotator_new spacy_model (Some (substring 0 2 spacy_model)))
                formatter stdin []) as (texts & E & HF).
    exists formatter, texts. split; [reflexivity|]. split; [exact E | exact HF].
Qed.

Lemma main_outcomes_witness :
  main ascii_lower one_token_nlp silent_speller no_span_text zero_offset zero_offset
       plain_repr ["annotate"; "extra"] "en_core_web_sm" "M2_CHAR" ["a"]
  = ([], Some (UsageError "Too many command-line arguments."))
  /\ exists formatter printed,
       make_formatter plain_repr "M2_TOK" = Ok formatter
       /\ main ascii_lower one_token_nlp silent_speller no_span_text zero_offset
               zero_offset plain_repr ["annotate"] "en_core_web_sm" "M2_TOK" ["a"]
          = (printed, None)
       /\ Forall2 (fun line text =>
                     annotate_line ascii_lower no_span_text zero_offset zero_offset
                       (initialize one_token_nlp silent_speller
                          (Annotator_new "en_core_web_sm"
                             (Some (substring 0 2 "en_core_web_sm"))))
                       formatter line = inr text)
                  ["a"] printed.
Proof.
  split.
  - apply (proj1 (main_outcomes ascii_lower one_token_nlp silent_speller
                    no_span_text zero_offset zero_offset plain_repr
                    ["annotate"; "extra"] "en_core_web_sm" "M2_CHAR" ["a"])).
    simpl. lia.
  - apply (proj1 (proj2 (main_outcomes ascii_lower one_token_nlp silent_speller
                    no_span_text zero_offset zero_offset plain_repr
                    ["annotate"] "en_core_web_sm" "M2_TOK" ["a"]))).
    + simpl. lia.
    + simpl. tauto.
Defined.

(** A run of the tool on two lines: a sentence with one correction equal
    to it, and a sentence alone. *)
Example main_two_lines :
  main ascii_lower one_token_nlp silent_speller no_span_text zero_offset zero_offset
       plain_repr ["annotate"] "en_core_web_sm" "M2_TOK"
       [("went" ++ String tab "went" ++ String nl "")%string; "went"]
  = ([("S went" ++ String nl "A -1 -1|||noop|||-NONE-|||REQUIRED|||-NONE-|||0"
               ++ String nl "")%string;
      ("S went" ++ String nl "")%string], None).
Proof. reflexivity. Qed.

(* ================================================================= *)
(** ** From the sentences to the printed block: unchanged targets *)

Lemma flat_map_noop span_line (tss : list TargetSentence) : forall base,
  Forall (fun ts => edit_spans ts = []) tss ->
  flat_map (target_lines span_line) (combine (seq base (List.length tss)) tss)
  = noop_lines base (List.length tss).
Proof.
  induction tss as [|ts rest IH]; intros base H; [reflexivity|].
  inversion H as [|? ? Hts Hrest]; subst. simpl.
  unfold target_lines at 1. simpl. rewrite Hts. simpl.
  unfold noop_lines in IH. now rewrite IH.
Qed.

Lemma unchanged_spans lower (nlp : string -> Doc) classifier (src : Doc)
      targets added :
  Forall (fun target_sentence =>
            map text (doc_tokens src)
            = map text (doc_tokens (nlp target_sentence))) targets ->
  Forall2 (fun target_sentence ts =>
             doc ts = nlp target_sentence
             /\ classify lower classifier src (nlp target_sentence)
                = Ok (edit_spans ts))
          targets added ->
  Forall (fun ts => edit_spans ts = []) added.
Proof.
  intros Hsame Hf. induction Hf as [|t ts targets added [_ Hc] _ IH];
    [constructor|].
  inversion Hsame as [|? ? Ht Hrest]; subst. constructor; [|now apply IH].
  unfold classify in Hc. rewrite (get_edit_spans_same_texts lower _ _ Ht) in Hc.
  simpl in Hc. now injection Hc as <-.
Qed.

(** X16: when every target sentence is tokenized into the same texts as
    the source sentence (as when it is the source sentence itself), the
    annotator finds no edit span in any target; what the two M2
    formatters return is then the sentence line, one no-op line per
    target, numbered from zero in the order of the targets, and the empty
    closing line, joined by newlines, and the tagged-corruption formatter
    returns the empty text. *)
Theorem unchanged_targets_noop lower load_spacy aspell_Speller
        Span_text Span_start_char Span_end_char
        (self : Annotator) (source_sentence : string) (targets : list string) :
  let nlp := load_spacy (_spacy_model self) in
  Forall (fun target_sentence =>
            map text (doc_tokens (nlp source_sentence))
            = map text (doc_tokens (nlp target_sentence))) targets ->
  exists annotation,
    annotate lower (initialize load_spacy aspell_Speller self)
             source_sentence (TargetsSeq targets) = Ok annotation
    /\ Forall (fun ts => edit_spans ts = []) (target_sentences annotation)
    /\ M2CharFormatter_format Span_text Span_start_char Span_end_char annotation
       = String.concat newline
           (("S " ++ doc_text (nlp source_sentence))%string
              :: noop_lines 0 (List.length targets) ++ [""])
    /\ M2TokFormatter_format Span_text annotation
       = String.concat newline
           (("S " ++ String.concat " "
                       (map text (doc_tokens (nlp source_sentence))))%string
              :: noop_lines 0 (List.length targets) ++ [""])
    /\ TSVTaggedCorruptionFormatter_format annotation = "".
Proof.
  intros nlp Hsame. unfold annotate, initialize.
  cbn [_initialized negb _nlp _classifier]. fold nlp.
  set (classifier := GenericClassifier_initialize aspell_Speller
                       (GenericClassifier_new (_annotator_aspell_lang self))).
  destruct (annotate_loop_total lower nlp classifier targets
              {| source_doc := nlp source_sentence; target_sentences := [] |})
    as (res & E & _).
  exists res. split; [exact E|].
  apply annotate_loop_targets in E. simpl in E.
  destruct E as (Hs & added & Ha & Hf).
  assert (Hnone : Forall (fun ts => edit_spans ts = []) (target_sentences res)).
  { rewrite Ha. exact (unchanged_spans lower nlp classifier _ _ _ Hsame Hf). }
  assert (Hlen : List.length (target_sentences res) = List.length targets).
  { rewrite Ha. symmetry. exact (Forall2_length Hf). }
  split; [exact Hnone|]. split; [|split].
  - unfold M2CharFormatter_format, M2Char_lines.
    rewrite m2_lines_of_spec. unfold enumerate.
    rewrite (flat_map_noop _ _ 0 Hnone), Hlen, Hs. reflexivity.
  - unfold M2TokFormatter_format, M2Tok_lines.
    rewrite m2_lines_of_spec. unfold enumerate.
    rewrite (flat_map_noop _ _ 0 Hnone), Hlen, Hs. reflexivity.
  - unfold TSVTaggedCorruptionFormatter_format, TSV_lines.
    rewrite tsv_fold_lines. now rewrite flat_map_map_nil.
Qed.

Lemma unchanged_targets_noop_witness :
  exists annotation,
    annotate ascii_lower (initialize one_token_nlp silent_speller fresh_annotator)
             "went" (TargetsSeq ["went"; "went"]) = Ok annotation
    /\ M2CharFormatter_format no_span_text zero_offset zero_offset annotation
       = ("S went" ++ newline
            ++ "A -1 -1|||noop|||-NONE-|||REQUIRED|||-NONE-|||0" ++ newline
            ++ "A -1 -1|||noop|||-NONE-|||REQUIRED|||-NONE-|||1" ++ newline)%string
    /\ TSVTaggedCorruptionFormatter_format annotation = "".
Proof.
  destruct (unchanged_targets_noop ascii_lower one_token_nlp silent_speller
              no_span_text zero_offset zero_offset fresh_annotator
              "went" ["went"; "went"]) as (annotation & Ha & _ & Hm & _ & Ht).
  - repeat constructor.
  - exists annotation. split; [exact Ha|]. split; [exact Hm | exact Ht].
Defined.
